(** * cred_fnirs_toolkit: block-segmented aggregation of hemoglobin series

    A shallow embedding of [src/cred_fnirs_toolkit/fnirs_toolkit_cli.py]
    and the properties of its aggregation core.

    Modelling conventions.
    - A Python [str] is a Rocq [string]; channel labels, block labels and
      file names are taken to be ASCII text, on which [str.lower] is the
      A-Z to a-z map and the regular-expression class [\d] is [0-9].
    - A float64 is a [float]: a rational, one of the two infinities, or
      NaN ("no value").  Rounding is not modelled; the square root used
      by [np.std] is a parameter of the development.
    - A raising Python expression is an [Err] in the [result] monad.
    - The MNE conversion pipeline (reading a file, optical density,
      filtering, Beer-Lambert) is a parameter: a function from a path to
      the converted series or to the exception it raised. *)

From Stdlib Require Import List String Ascii Bool Arith ZArith QArith Lia.
From Stdlib Require Import DecimalString Sorted.
Import ListNotations.

Open Scope list_scope.
Open Scope string_scope.

(* ================================================================== *)
(** * Python strings *)
(* ================================================================== *)

Module PyStr.

(** [c in 'A'..'Z'] *)
Definition is_upper (c : ascii) : bool :=
  let n := nat_of_ascii c in (65 <=? n)%nat && (n <=? 90)%nat.

(** [c in '0'..'9'], the class [\d] on ASCII text *)
Definition is_digit (c : ascii) : bool :=
  let n := nat_of_ascii c in (48 <=? n)%nat && (n <=? 57)%nat.

Definition lower_char (c : ascii) : ascii :=
  if is_upper c then ascii_of_nat (nat_of_ascii c + 32) else c.

(** [s.lower()] *)
Fixpoint lower (s : string) : string :=
  match s with
  | EmptyString => EmptyString
  | String c t => String (lower_char c) (lower t)
  end.

(** [hay.startswith(needle)] *)
Fixpoint startswith (needle hay : string) : bool :=
  match needle, hay with
  | EmptyString, _ => true
  | String _ _, EmptyString => false
  | String a n', String b h' => Ascii.eqb a b && startswith n' h'
  end.

(** [needle in hay] *)
Fixpoint contains (needle hay : string) : bool :=
  startswith needle hay ||
  match hay with
  | EmptyString => false
  | String _ t => contains needle t
  end.

(** [hay.endswith(needle)] *)
Fixpoint endswith (needle hay : string) : bool :=
  String.eqb needle hay ||
  match hay with
  | EmptyString => false
  | String _ t => endswith needle t
  end.

(** [s.replace(old, new)] for a non-empty [old]: occurrences are found
    left to right and do not overlap.  [skip] counts the characters of
    an occurrence that are still to be dropped. *)
Fixpoint replace_from (old new : string) (skip : nat) (s : string) : string :=
  match s with
  | EmptyString => EmptyString
  | String c t =>
      match skip with
      | S k => replace_from old new k t
      | O =>
          if startswith old s
          then new ++ replace_from old new (String.length old - 1) t
          else String c (replace_from old new 0 t)
      end
  end.

Definition replace (old new s : string) : string := replace_from old new 0 s.

(** [s.split(sep)] for a one-character separator; the accumulator holds
    the current part.  The result always has at least one part. *)
Fixpoint split_acc (sep : ascii) (acc : string) (s : string) : list string :=
  match s with
  | EmptyString => [acc]
  | String c t =>
      if Ascii.eqb c sep
      then acc :: split_acc sep EmptyString t
      else split_acc sep (acc ++ String c EmptyString) t
  end.

Definition split (sep : ascii) (s : string) : list string :=
  split_acc sep EmptyString s.

(** [os.path.basename(p)] (POSIX): what follows the last slash. *)
Fixpoint basename_acc (acc : string) (p : string) : string :=
  match p with
  | EmptyString => acc
  | String c t =>
      if Ascii.eqb c "/"
      then basename_acc EmptyString t
      else basename_acc (acc ++ String c EmptyString) t
  end.

Definition basename (p : string) : string := basename_acc EmptyString p.

(** [str(n)] for a natural number and for an integer *)
Definition str_of_nat (n : nat) : string :=
  NilZero.string_of_uint (Nat.to_uint n).

Definition str_of_Z (z : Z) : string :=
  NilZero.string_of_int (Z.to_int z).

(** The longest prefix of digits and what follows it: how a greedy
    [\d*] consumes its input. *)
Fixpoint span_digits (s : string) : string * string :=
  match s with
  | EmptyString => (EmptyString, EmptyString)
  | String c t =>
      if is_digit c
      then let (d, r) := span_digits t in (String c d, r)
      else (EmptyString, s)
  end.

Fixpoint all_digits (s : string) : bool :=
  match s with
  | EmptyString => true
  | String c t => is_digit c && all_digits t
  end.

Definition is_empty (s : string) : bool :=
  match s with EmptyString => true | _ => false end.

(** [x in l] for a list of strings *)
Fixpoint mem (x : string) (l : list string) : bool :=
  match l with
  | [] => false
  | y :: t => String.eqb x y || mem x t
  end.

End PyStr.

Import PyStr.

(* ================================================================== *)
(** * Trial Identifier Resolver *)
(* ================================================================== *)

(** [extract_trial_name], lines 22-29. *)
Definition extract_trial_name (snirf_file : string) : string :=
  let filename := basename snirf_file in
  let filename_parts := split "_" (replace ".snirf" EmptyString filename) in
  if (3 <=? List.length filename_parts)%nat
  then nth 1 filename_parts EmptyString ++ "_" ++ nth 2 filename_parts EmptyString
  else replace ".snirf" EmptyString filename.

(** The policy in the words of the specification: the extension is the
    trailing [.snirf]; the parts are those of the name without it. *)
Definition strip_extension (name : string) : string :=
  if endswith ".snirf" name
  then String.substring 0 (String.length name - 6) name
  else name.

Definition trial_identifier_spec (name : string) : string :=
  let parts := split "_" (strip_extension name) in
  if (3 <=? List.length parts)%nat
  then nth 1 parts EmptyString ++ "_" ++ nth 2 parts EmptyString
  else strip_extension name.

(* ================================================================== *)
(** * Exceptions and floats *)
(* ================================================================== *)

Inductive exn : Type :=
| IndexError
| KeyError (key : string)
| ZeroDivisionError
| ConversionError (reason : string).

Inductive result (A : Type) : Type :=
| Ok (a : A)
| Err (e : exn).

Arguments Ok {A} a.
Arguments Err {A} e.

Definition bind {A B : Type} (r : result A) (k : A -> result B) : result B :=
  match r with
  | Ok a => k a
  | Err e => Err e
  end.

Notation "x <- r ;; k" := (bind r (fun x => k))
  (at level 61, r at next level, right associativity).

(** Run [f] on the elements from left to right; stop at the first
    exception. *)
Fixpoint mapM {A B : Type} (f : A -> result B) (l : list A) : result (list B) :=
  match l with
  | [] => Ok []
  | a :: t => b <- f a ;; bs <- mapM f t ;; Ok (b :: bs)
  end.

Definition is_ok {A : Type} (r : result A) : bool :=
  match r with Ok _ => true | Err _ => false end.

(** [enumerate(l)] *)
Definition enumerate {A : Type} (l : list A) : list (nat * A) :=
  combine (seq 0 (List.length l)) l.

Inductive float : Type :=
| NaN
| PInf
| NInf
| Num (q : Q).

Definition isna (x : float) : bool :=
  match x with NaN => true | _ => false end.

Definition fadd (x y : float) : float :=
  match x, y with
  | NaN, _ | _, NaN => NaN
  | PInf, NInf | NInf, PInf => NaN
  | PInf, _ | _, PInf => PInf
  | NInf, _ | _, NInf => NInf
  | Num a, Num b => Num (a + b)
  end.

(** Division of a float by a positive count. *)
Definition fdiv_count (x : float) (n : nat) : float :=
  match x with
  | Num a => Num (Qred (a / inject_Z (Z.of_nat n)))
  | other => other
  end.

Definition Qsum (xs : list Q) : Q := fold_left Qplus xs 0%Q.

Definition Qmean (xs : list Q) : Q :=
  Qred (Qsum xs / inject_Z (Z.of_nat (List.length xs))).

(** [np.mean(xs)]: NaN (with a warning, no exception) on an empty slice. *)
Definition np_mean (xs : list Q) : float :=
  match xs with
  | [] => NaN
  | _ :: _ => Num (Qmean xs)
  end.

(** [numpy_int / python_float]: never raises; a zero divisor gives an
    infinity or NaN. *)
Definition np_true_divide (a : Z) (b : Q) : float :=
  if Qeq_bool b 0
  then (if (a =? 0)%Z then NaN else if (0 <? a)%Z then PInf else NInf)
  else Num (Qred (inject_Z a / b)).

(** [python_int / python_float]: raises on a zero divisor. *)
Definition py_true_divide (a : Z) (b : Q) : result float :=
  if Qeq_bool b 0
  then Err ZeroDivisionError
  else Ok (Num (Qred (inject_Z a / b))).

(** The mean pandas takes over a group: NaN entries are skipped, and a
    group with nothing left has no value. *)
Definition pd_mean (xs : list float) : float :=
  let ys := filter (fun x => negb (isna x)) xs in
  match ys with
  | [] => NaN
  | _ :: _ => fdiv_count (fold_left fadd ys (Num 0)) (List.length ys)
  end.

(** Python slice bounds: a negative bound counts from the end, and both
    bounds are clamped to the sequence. *)
Definition slice_index (n i : Z) : Z :=
  if (i <? 0)%Z then Z.max (i + n) 0 else Z.min i n.

(** [l[start:stop]] *)
Definition py_slice {A : Type} (l : list A) (start stop : Z) : list A :=
  let n := Z.of_nat (List.length l) in
  let a := slice_index n start in
  let b := slice_index n stop in
  firstn (Z.to_nat (b - a)) (skipn (Z.to_nat a) l).

(** [l[i]] for a natural index *)
Definition py_index {A : Type} (l : list A) (i : nat) : result A :=
  match nth_error l i with
  | Some a => Ok a
  | None => Err IndexError
  end.

(* ================================================================== *)
(** * Data model *)
(* ================================================================== *)

(** What the conversion service hands over: [raw_haemo.ch_names],
    [raw_haemo.get_data()] (one list of samples per channel),
    [raw_haemo.info['sfreq']], and the two results of
    [mne.events_from_annotations]: the event rows
    [(sample, duration, id)] and the dictionary from label to id.
    The record describes a series with at least one channel: for a
    series without channels [get_data()] itself raises in MNE, a case
    the development does not model. *)
Record RawHemo : Type := {
  ch_names : list string;
  data : list (list Q);
  sfreq : Q;
  events : list (Z * Z * Z);
  event_ids : list (string * Z)
}.

(** One entry of [results]: a row of the per-file data frame. *)
Record Row : Type := {
  Trial : string;
  Block : string;
  Channel : string;
  HbType : string;
  Mean_Value : float;
  Std_Value : float;
  Block_Duration_s : float
}.

(** A block window, lines 103-108: [(block_start, block_end, label)]. *)
Record Window : Type := {
  block_start : Z;
  block_end : Z;
  block_label : string
}.

(* ================================================================== *)
(** * Block Segmenter and Channel Statistics Extractor *)
(* ================================================================== *)

(** Lines 116-121 and 137-142. *)
Definition hb_type_of (ch_name : string) : string :=
  if contains "hbo" (lower ch_name) then "HbO"
  else if contains "hbr" (lower ch_name) then "HbR"
  else "Unknown".

(** Lines 97-101: the first label of [event_ids.items()] whose id is
    [event_id], or [None]. *)
Fixpoint find_event_label (items : list (string * Z)) (event_id : Z) : option string :=
  match items with
  | [] => None
  | (label, id_val) :: rest =>
      if (id_val =? event_id)%Z then Some label
      else find_event_label rest event_id
  end.

(** Line 127: [event_label if event_label else f'Block_{event_idx}']. *)
Definition label_or_default (event_label : option string) (event_idx : nat) : string :=
  match event_label with
  | Some l => if is_empty l then "Block_" ++ str_of_nat event_idx else l
  | None => "Block_" ++ str_of_nat event_idx
  end.

(** [len(data[0])] *)
Definition n_samples (d : list (list Q)) : result Z :=
  row0 <- py_index d 0 ;; Ok (Z.of_nat (List.length row0)).

(** [ev[0]] *)
Definition event_sample_of (ev : Z * Z * Z) : Z := fst (fst ev).

(** Lines 96-108 for the event at position [event_idx]. *)
Definition event_window (raw : RawHemo) (event_idx : nat) (ev : Z * Z * Z)
  : result Window :=
  let '(event_sample, _, event_id) := ev in
  let event_label := find_event_label (event_ids raw) event_id in
  stop <- (if (event_idx <? List.length (events raw) - 1)%nat
           then next_event <- py_index (events raw) (event_idx + 1) ;;
                Ok (event_sample_of next_event)
           else n_samples (data raw)) ;;
  Ok {| block_start := event_sample;
        block_end := stop;
        block_label := label_or_default event_label event_idx |}.

(** The windows of all events, in event order. *)
Definition block_windows (raw : RawHemo) : result (list Window) :=
  mapM (fun '(event_idx, ev) => event_window raw event_idx ev)
       (enumerate (events raw)).

Section Toolkit.

(** The floating-point square root. *)
Variable np_sqrt : Q -> Q.

(** Lines 50-62: the MNE pipeline, from a path to hemoglobin data. *)
Variable read_and_convert : string -> result RawHemo.

(** [np.std(xs)]: the population standard deviation; NaN on an empty
    slice. *)
Definition np_std (xs : list Q) : float :=
  match xs with
  | [] => NaN
  | _ :: _ =>
      let m := Qmean xs in
      Num (np_sqrt (Qmean (map (fun x => (x - m) * (x - m))%Q xs)))
  end.

(** Lines 111-133: the rows of one block, one per channel. *)
Definition block_rows (raw : RawHemo) (trial_name : string) (w : Window)
  : result (list Row) :=
  let block_data :=
    map (fun row => py_slice row (block_start w) (block_end w)) (data raw) in
  mapM (fun '(ch_idx, ch_name) =>
          samples <- py_index block_data ch_idx ;;
          Ok {| Trial := trial_name;
                Block := block_label w;
                Channel := ch_name;
                HbType := hb_type_of ch_name;
                Mean_Value := np_mean samples;
                Std_Value := np_std samples;
                Block_Duration_s :=
                  np_true_divide (block_end w - block_start w) (sfreq raw) |})
       (enumerate (ch_names raw)).

(** Lines 136-154: the rows of a recording without events. *)
Definition entire_recording_rows (raw : RawHemo) (trial_name : string)
  : result (list Row) :=
  mapM (fun '(ch_idx, ch_name) =>
          samples <- py_index (data raw) ch_idx ;;
          n <- n_samples (data raw) ;;
          duration <- py_true_divide n (sfreq raw) ;;
          Ok {| Trial := trial_name;
                Block := "Entire_Recording";
                Channel := ch_name;
                HbType := hb_type_of ch_name;
                Mean_Value := np_mean samples;
                Std_Value := np_std samples;
                Block_Duration_s := duration |})
       (enumerate (ch_names raw)).

(** [get_hemoglobin_averages], lines 67-156: the data frame as the list
    of its rows. *)
Definition get_hemoglobin_averages (raw : RawHemo) (trial_name : string)
  : result (list Row) :=
  match events raw with
  | _ :: _ =>
      per_event <-
        mapM (fun '(event_idx, ev) =>
                w <- event_window raw event_idx ev ;;
                block_rows raw trial_name w)
             (enumerate (events raw)) ;;
      Ok (List.concat per_event)
  | [] => entire_recording_rows raw trial_name
  end.

(* ================================================================== *)
(** * Global Block-Order Tracker *)
(* ================================================================== *)

(** [Series.unique().tolist()]: the distinct values in order of first
    appearance. *)
Fixpoint unique (l : list string) : list string :=
  match l with
  | [] => []
  | x :: t => x :: filter (fun y => negb (String.eqb y x)) (unique t)
  end.

(** Line 234: [averages_df['Block'].unique().tolist()].  A frame built
    from an empty [results] list has no columns, and the column lookup
    raises. *)
Definition blocks_of_frame (averages_df : list Row) : result (list string) :=
  match averages_df with
  | [] => Err (KeyError "Block")
  | _ :: _ => Ok (unique (map Block averages_df))
  end.

(** Lines 237-239. *)
Definition add_new_blocks (all_blocks_seen file_blocks : list string) : list string :=
  fold_left
    (fun seen block => if mem block seen then seen else (seen ++ [block])%list)
    file_blocks all_blocks_seen.

(* ================================================================== *)
(** * Channel-to-Region Mapper *)
(* ================================================================== *)

(** A match of [S(\d+)_D(\d+)] that starts at the head of [s]: the two
    groups.  Both [\d+] are greedy, and what must follow the first one
    is not a digit, so there is nothing to backtrack into. *)
Definition match_SD_here (s : string) : option (string * string) :=
  match s with
  | String "S" t =>
      let (g1, r) := span_digits t in
      if is_empty g1 then None
      else match r with
           | String "_" (String "D" r2) =>
               let (g2, _) := span_digits r2 in
               if is_empty g2 then None else Some (g1, g2)
           | _ => None
           end
  | _ => None
  end.

(** [re.search(r'S(\d+)_D(\d+)', s)]: the leftmost match. *)
Fixpoint re_search_SD (s : string) : option (string * string) :=
  match match_SD_here s with
  | Some groups => Some groups
  | None =>
      match s with
      | EmptyString => None
      | String _ t => re_search_SD t
      end
  end.

(** [extract_source_detector], lines 159-164. *)
Definition extract_source_detector (channel_name : string) : option string :=
  match re_search_SD channel_name with
  | Some (g1, g2) => Some ("S" ++ g1 ++ "_D" ++ g2)
  | None => None
  end.

(** The label contains a substring of the shape [S<number>_D<number>]. *)
Definition has_SD_substring (label : string) : Prop :=
  exists pre d1 d2 post,
    label = pre ++ "S" ++ d1 ++ "_D" ++ d2 ++ post /\
    d1 <> EmptyString /\ all_digits d1 = true /\
    d2 <> EmptyString /\ all_digits d2 = true.

(** A Python [dict] from strings to strings, in insertion order. *)
Definition dict : Type := list (string * string).

Fixpoint dict_get (d : dict) (k : string) : option string :=
  match d with
  | [] => None
  | (k', v) :: t => if String.eqb k' k then Some v else dict_get t k
  end.

(** [d[k] = v] *)
Fixpoint dict_set (d : dict) (k v : string) : dict :=
  match d with
  | [] => [(k, v)]
  | (k', v') :: t =>
      if String.eqb k' k then (k', v) :: t else (k', v') :: dict_set t k v
  end.

(** A JSON value as the mapping file may hold for an index. *)
Inductive json_scalar : Type :=
| JInt (n : Z)
| JStr (s : string).

Definition format_scalar (j : json_scalar) : string :=
  match j with
  | JInt n => str_of_Z n
  | JStr s => s
  end.

(** One object of the mapping file; an absent key is [None]. *)
Record MappingEntry : Type := {
  source : option json_scalar;
  detector : option json_scalar;
  region : option string
}.

(** [entry[key]] *)
Definition entry_get {A : Type} (field : option A) (key : string) : result A :=
  match field with
  | Some a => Ok a
  | None => Err (KeyError key)
  end.

(** Lines 184-187. *)
Fixpoint load_entries (channel_to_region : dict) (channel_map : list MappingEntry)
  : result dict :=
  match channel_map with
  | [] => Ok channel_to_region
  | entry :: rest =>
      src <- entry_get (source entry) "source" ;;
      det <- entry_get (detector entry) "detector" ;;
      let key := "S" ++ format_scalar src ++ "_D" ++ format_scalar det in
      reg <- entry_get (region entry) "region" ;;
      load_entries (dict_set channel_to_region key reg) rest
  end.

(** [load_channel_mapping], lines 167-189, on the parsed JSON. *)
Definition load_channel_mapping (channel_map : list MappingEntry) : result dict :=
  load_entries [] channel_map.

(** A row of [hbo_df_regions]: the measurement with its two added
    columns; [None] is the missing value. *)
Record RegionRow : Type := {
  base : Row;
  Source_Detector : option string;
  Region : option string
}.

(** [Series.map(channel_to_region)]: a key that is absent from the
    dictionary, and the missing key, map to the missing value. *)
Definition map_region (channel_to_region : dict) (sd : option string) : option string :=
  match sd with
  | Some k => dict_get channel_to_region k
  | None => None
  end.

(** Lines 294-296. *)
Definition add_region_columns (channel_to_region : dict) (hbo_df : list Row)
  : list RegionRow :=
  map (fun r =>
         let sd := extract_source_detector (Channel r) in
         {| base := r;
            Source_Detector := sd;
            Region := map_region channel_to_region sd |})
      hbo_df.

(** The region a channel label resolves to, or [None] for "unmapped". *)
Definition resolve_region (channel_to_region : dict) (channel_name : string)
  : option string :=
  map_region channel_to_region (extract_source_detector channel_name).

Definition option_is (o : option string) (s : string) : bool :=
  match o with
  | Some x => String.eqb x s
  | None => false
  end.

Definition notna (o : option string) : bool :=
  match o with Some _ => true | None => false end.

(* ================================================================== *)
(** * Pivot Table Builder *)
(* ================================================================== *)

(** A data frame with labelled rows and columns. *)
Record PivotTable : Type := {
  index : list string;
  columns : list string;
  values : list (list float)
}.

Definition empty_table : PivotTable :=
  {| index := []; columns := []; values := [] |}.

Fixpoint insert_sorted (x : string) (l : list string) : list string :=
  match l with
  | [] => [x]
  | y :: t => if String.leb x y then x :: l else y :: insert_sorted x t
  end.

(** [sorted(l)] on strings *)
Definition sorted (l : list string) : list string :=
  fold_right insert_sorted [] l.

(** The position of a label among the labels of an axis. *)
Fixpoint position (x : string) (l : list string) : option nat :=
  match l with
  | [] => None
  | y :: t =>
      if String.eqb y x then Some O
      else match position x t with
           | Some n => Some (S n)
           | None => None
           end
  end.

(** The cell at a row label and a column label; a label that the table
    does not have reads as "no value". *)
Definition table_at (t : PivotTable) (i c : string) : float :=
  match position i (index t), position c (columns t) with
  | Some row, Some col => nth col (nth row (values t) []) NaN
  | _, _ => NaN
  end.

(** The three columns a pivot reads from a frame: the row key, the
    column key and the value. *)
Definition PivotInput : Type := list (string * string * float).

Definition group_values (cells : PivotInput) (i c : string) : list float :=
  map snd
      (filter (fun x => String.eqb (fst (fst x)) i && String.eqb (snd (fst x)) c)
              cells).

(** The aggregate of the group [(i, c)]. *)
Definition group_mean (cells : PivotInput) (i c : string) : float :=
  pd_mean (group_values cells i c).

(** [DataFrame.pivot_table(index=.., columns=.., values=..,
    aggfunc='mean')]: group by the two keys, take the mean of each
    group, drop the groups whose mean is missing, and lay the rest out
    with sorted row and column labels. *)
Definition pivot_table (cells : PivotInput) : PivotTable :=
  let keys_i := sorted (unique (map (fun x => fst (fst x)) cells)) in
  let keys_c := sorted (unique (map (fun x => snd (fst x)) cells)) in
  let idx :=
    filter (fun i => existsb (fun c => negb (isna (group_mean cells i c))) keys_c)
           keys_i in
  let cols :=
    filter (fun c => existsb (fun i => negb (isna (group_mean cells i c))) keys_i)
           keys_c in
  {| index := idx;
     columns := cols;
     values := map (fun i => map (fun c => group_mean cells i c) cols) idx |}.

(** [t[labels]]: the columns named by [labels], in that order. *)
Definition select_columns (t : PivotTable) (labels : list string) : PivotTable :=
  {| index := index t;
     columns := labels;
     values :=
       map (fun row =>
              map (fun l =>
                     match position l (columns t) with
                     | Some col => nth col row NaN
                     | None => NaN
                     end)
                  labels)
           (values t) |}.

(** Lines 278-279 and 327-328. *)
Definition reorder_columns (t : PivotTable) (block_order : list string) : PivotTable :=
  let existing_blocks := filter (fun block => mem block (columns t)) block_order in
  select_columns t existing_blocks.

Definition is_HbO (r : Row) : bool := String.eqb (HbType r) "HbO".

Definition Row_Label (r : Row) : string := Trial r ++ " | " ++ Channel r.

(** Lines 267-279. *)
Definition detailed_pivot (combined_df : list Row) (block_order : list string)
  : PivotTable :=
  let hbo_df := filter is_HbO combined_df in
  reorder_columns
    (pivot_table (map (fun r => (Row_Label r, Block r, Mean_Value r)) hbo_df))
    block_order.

(** Lines 294-306: the oxygenated rows that resolve to a region. *)
Definition hbo_df_regions_clean (channel_to_region : dict) (combined_df : list Row)
  : list RegionRow :=
  filter (fun rr => notna (Region rr))
         (add_region_columns channel_to_region (filter is_HbO combined_df)).

(** Line 316. *)
Definition region_data (clean : list RegionRow) (region_name : string)
  : list RegionRow :=
  filter (fun rr => option_is (Region rr) region_name) clean.

(** Lines 316-328. *)
Definition region_pivot (clean : list RegionRow) (block_order : list string)
  (region_name : string) : PivotTable :=
  reorder_columns
    (pivot_table
       (map (fun rr => (Trial (base rr), Block (base rr), Mean_Value (base rr)))
            (region_data clean region_name)))
    block_order.

(** Line 307 and the loop header of line 315. *)
Definition sorted_regions (clean : list RegionRow) : list string :=
  sorted (unique (flat_map (fun rr => match Region rr with
                                       | Some x => [x]
                                       | None => []
                                       end) clean)).

(** Lines 333 and 376. *)
Definition safe_region_name (region_name : string) : string :=
  lower (replace "/" "_" (replace " " "_" region_name)).

(* ================================================================== *)
(** * Run Orchestrator *)
(* ================================================================== *)

(** The lines the run prints that report an outcome (banners and the
    progress lines of the conversion step are left out). *)
Inductive Message : Type :=
| NoSnirfFilesFound
| FoundFiles (n : nat)
| Processed (trial_name : string) (measurements blocks : nat)
| ErrorProcessing (file_name : string) (e : exn)
| UniqueBlocks (block_order : list string)
| NoFilesProcessed
| CombinedResults (n : nat)
| SavedDetailed (rows cols : nat)
| LoadedMappings (n : nat)
| UnmappedWarning (n : nat)
| AllChannelsMapped
| FoundRegions (n : nat)
| RegionSaved (region_name : string) (trials blocks channels : nat) (file : string)
| CreatedRegionPivots (n : nat)
| MappingFileNotFound (path : string)
| SkippingRegions
| FatalError (e : exn).

(** The [channel_mapping_file] argument as line 288 sees it: not given
    (or empty), a path with no file behind it, or a file, taken as the
    array of objects [json.load] returns. *)
Inductive MappingArg : Type :=
| NoMappingGiven
| MappingMissing (path : string)
| MappingFile (channel_map : list MappingEntry).

(** What a run leaves behind: the printed lines, the CSV files written
    (name and table, in the order of the writes), the dictionary
    [region_pivots], and the tables handed to the heatmap renderer. *)
Record Outputs : Type := {
  stdout : list Message;
  written : list (string * PivotTable);
  region_pivots : list (string * PivotTable);
  rendered : list (string * PivotTable)
}.

(** The accumulators of the loop of lines 228-244. *)
Record LoopState : Type := {
  all_averages : list (list Row);
  all_blocks_seen : list string;
  printed : list Message
}.

(** [raw_intensity_to_hemo], lines 32-64. *)
Definition raw_intensity_to_hemo (snirf_file : string) : result (RawHemo * string) :=
  let trial_name := extract_trial_name snirf_file in
  raw_hemo <- read_and_convert snirf_file ;;
  Ok (raw_hemo, trial_name).

(** The part of the [try] block that can raise, lines 230-234: the
    frame, its block labels and the trial name. *)
Definition try_file (snirf_file : string)
  : result (list Row * list string * string) :=
  converted <- raw_intensity_to_hemo snirf_file ;;
  averages_df <- get_hemoglobin_averages (fst converted) (snd converted) ;;
  file_blocks <- blocks_of_frame averages_df ;;
  Ok (averages_df, file_blocks, snd converted).

(** One iteration of the loop, lines 229-244. *)
Definition loop_body (st : LoopState) (snirf_file : string) : LoopState :=
  match try_file snirf_file with
  | Ok (averages_df, file_blocks, trial_name) =>
      {| all_averages := (all_averages st ++ [averages_df])%list;
         all_blocks_seen := add_new_blocks (all_blocks_seen st) file_blocks;
         printed :=
           (printed st ++
            [Processed trial_name (List.length averages_df)
                       (List.length file_blocks)])%list |}
  | Err e =>
      {| all_averages := all_averages st;
         all_blocks_seen := all_blocks_seen st;
         printed := (printed st ++ [ErrorProcessing (basename snirf_file) e])%list |}
  end.

Definition initial_state (snirf_files : list string) : LoopState :=
  {| all_averages := [];
     all_blocks_seen := [];
     printed := [FoundFiles (List.length snirf_files)] |}.

(** Lines 225-244. *)
Definition run_loop (snirf_files : list string) : LoopState :=
  fold_left loop_body snirf_files (initial_state snirf_files).

(** Line 259: [pd.concat(all_averages, ignore_index=True)]. *)
Definition combine_frames (frames : list (list Row)) : list Row :=
  List.concat frames.

Definition detailed_csv : string := "hbo_averages_detailed_pivot.csv".

Definition region_csv (region_name : string) : string :=
  "hbo_region_" ++ safe_region_name region_name ++ ".csv".

(** [region_data['Source_Detector'].nunique()] *)
Definition channels_averaged (rows : list RegionRow) : nat :=
  List.length
    (unique (flat_map (fun rr => match Source_Detector rr with
                                 | Some k => [k]
                                 | None => []
                                 end) rows)).

(** Lines 289-344, from the loaded dictionary on: the printed lines and
    the region tables in the order they are built. *)
Definition region_analysis (combined_df : list Row) (block_order : list string)
  (channel_to_region : dict) : list Message * list (string * PivotTable) :=
  let hbo_df_regions :=
    add_region_columns channel_to_region (filter is_HbO combined_df) in
  let unmapped := filter (fun rr => negb (notna (Region rr))) hbo_df_regions in
  let clean := hbo_df_regions_clean channel_to_region combined_df in
  let regions := sorted_regions clean in
  let pivots :=
    map (fun region_name => (region_name, region_pivot clean block_order region_name))
        regions in
  ((LoadedMappings (List.length channel_to_region)
    :: (if (0 <? List.length unmapped)%nat
        then UnmappedWarning (List.length unmapped)
        else AllChannelsMapped)
    :: FoundRegions (List.length regions)
    :: map (fun rp : string * PivotTable =>
              RegionSaved (fst rp)
                          (List.length (index (snd rp)))
                          (List.length (columns (snd rp)))
                          (channels_averaged (region_data clean (fst rp)))
                          (region_csv (fst rp)))
           pivots)
   ++ [CreatedRegionPivots (List.length pivots)],
   pivots)%list.

(** [process_snirf_files], lines 192-394, given the result of the glob
    of line 214.  The second component is the exception the call
    raised, if it raised one. *)
Definition process_snirf_files (snirf_files : list string) (mapping : MappingArg)
  : Outputs * option exn :=
  match snirf_files with
  | [] =>
      ({| stdout := [NoSnirfFilesFound];
          written := []; region_pivots := []; rendered := [] |}, None)
  | _ :: _ =>
      let st := run_loop snirf_files in
      let block_order := all_blocks_seen st in
      let out1 :=
        (printed st ++
         match block_order with
         | [] => []
         | _ :: _ => [UniqueBlocks block_order]
         end)%list in
      match all_averages st with
      | [] =>
          ({| stdout := (out1 ++ [NoFilesProcessed])%list;
              written := []; region_pivots := []; rendered := [] |}, None)
      | _ :: _ =>
          let combined_df := combine_frames (all_averages st) in
          let detailed := detailed_pivot combined_df block_order in
          let out2 :=
            (out1 ++
             [CombinedResults (List.length combined_df);
              SavedDetailed (List.length (index detailed))
                            (List.length (columns detailed))])%list in
          let files2 := [(detailed_csv, detailed)] in
          match mapping with
          | MappingFile channel_map =>
              match load_channel_mapping channel_map with
              | Err e =>
                  ({| stdout := out2; written := files2;
                      region_pivots := []; rendered := [] |}, Some e)
              | Ok channel_to_region =>
                  let (lines, pivots) :=
                    region_analysis combined_df block_order channel_to_region in
                  ({| stdout := (out2 ++ lines)%list;
                      written :=
                        (files2 ++
                         map (fun rp : string * PivotTable =>
                                (region_csv (fst rp), snd rp)) pivots)%list;
                      region_pivots := pivots;
                      rendered := pivots |}, None)
              end
          | MappingMissing path =>
              ({| stdout := (out2 ++ [MappingFileNotFound path; SkippingRegions])%list;
                  written := files2; region_pivots := []; rendered := [] |}, None)
          | NoMappingGiven =>
              ({| stdout := (out2 ++ [SkippingRegions])%list;
                  written := files2; region_pivots := []; rendered := [] |}, None)
          end
      end
  end.

(** [main], lines 454-461, after the arguments are parsed and the input
    directory is validated: the printed lines and the exit status. *)
Definition main (snirf_files : list string) (mapping : MappingArg)
  : list Message * Z :=
  match process_snirf_files snirf_files mapping with
  | (out, None) => (stdout out, 0%Z)
  | (out, Some e) => ((stdout out ++ [FatalError e])%list, 1%Z)
  end.

(** What the GUI shows when the call is over. *)
Inductive Dialog : Type :=
| ShowInfoCompleted
| ShowErrorFailed (e : exn).

(** [process_files_thread] of [fnirs_toolkit_gui.py], lines 194-206:
    a call that returns is reported as completed successfully, a call
    that raises as failed. *)
Definition process_files_thread (snirf_files : list string) (mapping : MappingArg)
  : Dialog :=
  match snd (process_snirf_files snirf_files mapping) with
  | None => ShowInfoCompleted
  | Some e => ShowErrorFailed e
  end.

(** The table of a region in [region_pivots]; a region without a table
    has no values. *)
Fixpoint lookup_table (pivots : list (string * PivotTable)) (region_name : string)
  : PivotTable :=
  match pivots with
  | [] => empty_table
  | (name, t) :: rest =>
      if String.eqb name region_name then t else lookup_table rest region_name
  end.

(** The block-label lists of the files that are processed, in file
    order. *)
Definition contributed_blocks (snirf_files : list string) : list (list string) :=
  flat_map (fun f => match try_file f with
                     | Ok (_, file_blocks, _) => [file_blocks]
                     | Err _ => []
                     end) snirf_files.

(** The data frames of the files that are processed, in file order. *)
Definition contributed_frames (snirf_files : list string) : list (list Row) :=
  flat_map (fun f => match try_file f with
                     | Ok (averages_df, _, _) => [averages_df]
                     | Err _ => []
                     end) snirf_files.

(** The files that are processed without an exception. *)
Definition succeeds (snirf_file : string) : bool := is_ok (try_file snirf_file).


(* ================================================================== *)
(** * Vocabulary of the properties *)
(* ================================================================== *)

(** [label] contains [needle] up to the case of its letters. *)
Definition contains_ci (needle label : string) : Prop :=
  exists pre mid post,
    label = pre ++ mid ++ post /\ lower mid = lower needle.

(** How many of the windows, read as half-open intervals
    [[block_start, block_end)], hold the sample index [s]. *)
Definition in_window (s : Z) (w : Window) : bool :=
  (block_start w <=? s)%Z && (s <? block_end w)%Z.

Definition covering_count (s : Z) (ws : list Window) : nat :=
  List.length (filter (in_window s) ws).

(** The windows are pairwise disjoint and their union is [[lo, hi)]:
    a sample index lies in exactly one window when it is in the
    interval, and in none otherwise. *)
Definition exactly_covers (lo hi : Z) (ws : list Window) : Prop :=
  forall s : Z,
    covering_count s ws = if ((lo <=? s)%Z && (s <? hi)%Z) then 1%nat else 0%nat.

(** Each window ends where the next one starts. *)
Fixpoint contiguous (ws : list Window) : Prop :=
  match ws with
  | w1 :: ((w2 :: _) as rest) => block_end w1 = block_start w2 /\ contiguous rest
  | _ => True
  end.

(** The event rows are ordered by sample index. *)
Fixpoint ordered_by_sample (evs : list (Z * Z * Z)) : Prop :=
  match evs with
  | e1 :: ((e2 :: _) as rest) =>
      (event_sample_of e1 <= event_sample_of e2)%Z /\ ordered_by_sample rest
  | _ => True
  end.

(** The caller is told of a fatal condition: the call raises, which is
    the one outcome [main] reports as a fatal error, with exit status
    1, and the GUI as a failure. *)
Definition fatal_to_caller (run : Outputs * option exn) : Prop :=
  exists e, snd run = Some e.

(** The means that make up a region value, in the words of the
    specification: the mean measurements of the oxygenated channels
    that resolve to the region, for the trial and the block. *)
Definition constituent_means (channel_to_region : dict) (combined_df : list Row)
  (region_name trial block : string) : list float :=
  map Mean_Value
      (filter (fun r =>
                 is_HbO r &&
                 option_is (resolve_region channel_to_region (Channel r)) region_name &&
                 String.eqb (Trial r) trial &&
                 String.eqb (Block r) block)
              combined_df).

(** The means behind a cell of the detailed table: the oxygenated
    measurements with the row label and the block. *)
Definition detailed_means (combined_df : list Row) (row_label block : string)
  : list float :=
  map Mean_Value
      (filter (fun r =>
                 is_HbO r &&
                 String.eqb (Row_Label r) row_label &&
                 String.eqb (Block r) block)
              combined_df).

(** [block_data] of the window has no samples in any channel. *)
Definition no_samples (raw : RawHemo) (w : Window) : Prop :=
  Forall (fun row => py_slice row (block_start w) (block_end w) = []) (data raw).

(** The windows of lines 103-108 written by recursion on the events:
    [idx] is the position of the first of [evs]; [n] is [len(data[0])]. *)
Fixpoint windows_from (ids : list (string * Z)) (idx : nat)
  (evs : list (Z * Z * Z)) (n : Z) : list Window :=
  match evs with
  | [] => []
  | ev :: rest =>
      {| block_start := event_sample_of ev;
         block_end := match rest with
                      | [] => n
                      | next_event :: _ => event_sample_of next_event
                      end;
         block_label :=
           label_or_default (find_event_label ids (snd ev)) idx |}
      :: windows_from ids (S idx) rest n
  end.

(** The row of line 125 for a channel and its samples within a window. *)
Definition window_row (raw : RawHemo) (trial_name : string) (w : Window)
  (ch_name : string) (samples : list Q) : Row :=
  let block_samples := py_slice samples (block_start w) (block_end w) in
  {| Trial := trial_name;
     Block := block_label w;
     Channel := ch_name;
     HbType := hb_type_of ch_name;
     Mean_Value := np_mean block_samples;
     Std_Value := np_std block_samples;
     Block_Duration_s :=
       np_true_divide (block_end w - block_start w) (sfreq raw) |}.

(** The row of line 146 for a channel and its samples, [n] samples
    long. *)
Definition recording_row (raw : RawHemo) (trial_name : string) (n : nat)
  (ch_name : string) (samples : list Q) : Row :=
  {| Trial := trial_name;
     Block := "Entire_Recording";
     Channel := ch_name;
     HbType := hb_type_of ch_name;
     Mean_Value := np_mean (py_slice samples 0 (Z.of_nat n));
     Std_Value := np_std (py_slice samples 0 (Z.of_nat n));
     Block_Duration_s := Num (Qred (inject_Z (Z.of_nat n) / sfreq raw)) |}.

(* ================================================================== *)
(** * Example inputs *)
(* ================================================================== *)

(** A square root to evaluate examples with: the root of a square of
    a multiple of 1/1024, rounded down to such a multiple elsewhere. *)
Definition example_sqrt (q : Q) : Q :=
  Qred (Z.sqrt (Qnum q * 2 ^ 20 / Zpos (Qden q)) # 2 ^ 10).

(** Twenty samples at 5 Hz, one channel, and a single annotation at
    sample 10. *)
Definition late_start_series : RawHemo :=
  {| ch_names := ["S1_D1 hbo"];
     data := [repeat 1%Q 20];
     sfreq := 5%Q;
     events := [(10, 0, 1)]%Z;
     event_ids := [("task", 1%Z)] |}.

(** The example of the specification: 200 samples at 5 Hz, two
    channels, annotations at samples 0, 50 and 120. *)
Definition three_block_series : RawHemo :=
  {| ch_names := ["S1_D1 hbo"; "S1_D1 hbr"];
     data := [repeat (1 # 2)%Q 200; repeat 3%Q 200];
     sfreq := 5%Q;
     events := [(0, 0, 1); (50, 0, 2); (120, 0, 1)]%Z;
     event_ids := [("rest", 1%Z); ("task", 2%Z)] |}.

(** Two annotations share the sample index 4. *)
Definition duplicate_index_series : RawHemo :=
  {| ch_names := ["S1_D1 hbo"; "S1_D1 hbr"];
     data := [[1; 2; 3; 4; 5; 6; 7; 8]%Q; [2; 2; 2; 2; 4; 4; 4; 4]%Q];
     sfreq := 5%Q;
     events := [(0, 0, 1); (4, 0, 2); (4, 0, 3)]%Z;
     event_ids := [("rest", 1%Z); ("cue", 2%Z); ("task", 3%Z)] |}.

(** A recording without annotations. *)
Definition unannotated_series : RawHemo :=
  {| ch_names := ["S1_D1 hbo"; "S1_D1 hbr"];
     data := [[1; 2; 3; 4]%Q; [2; 2; 4; 4]%Q];
     sfreq := 5%Q;
     events := [];
     event_ids := [] |}.

(** A conversion service that reads only the file
    [data/20240101_ctrl_P01.snirf]. *)
Definition example_convert (snirf_file : string) : result RawHemo :=
  if String.eqb snirf_file "data/20240101_ctrl_P01.snirf"
  then Ok three_block_series
  else Err (ConversionError "not a SNIRF file").

(** A conversion service that reads nothing. *)
Definition failing_convert (snirf_file : string) : result RawHemo :=
  Err (ConversionError "not a SNIRF file").

(** A mapping file with one entry, and one whose entry lacks its
    region. *)
Definition example_mapping : list MappingEntry :=
  [{| source := Some (JInt 1); detector := Some (JInt 1);
      region := Some "PFC left" |}].

Definition malformed_mapping : list MappingEntry :=
  [{| source := Some (JInt 1); detector := Some (JInt 1); region := None |}].

Definition example_files : list string :=
  ["data/broken.snirf"; "data/20240101_ctrl_P01.snirf"].

(** The arithmetic mean of a list of floats: their sum divided by their
    number.  A NaN among them makes the sum, and with it the mean,
    NaN. *)
Definition arithmetic_mean (xs : list float) : float :=
  match xs with
  | [] => NaN
  | _ :: _ => fdiv_count (fold_left fadd xs (Num 0)) (List.length xs)
  end.

(** The numbers among a list of floats, in their order. *)
Definition present_values (xs : list float) : list Q :=
  flat_map (fun x => match x with Num q => [q] | _ => [] end) xs.

(** The label rest is annotated at samples 0 and 4, and the label task
    at sample 4 as well: the second block of rest has no samples. *)
Definition repeated_label_series : RawHemo :=
  {| ch_names := ["S1_D1 hbo"];
     data := [[1; 2; 3; 4; 5; 6; 7; 8]%Q];
     sfreq := 5%Q;
     events := [(0, 0, 1); (4, 0, 1); (4, 0, 2)]%Z;
     event_ids := [("rest", 1%Z); ("task", 2%Z)] |}.

Definition repeated_label_convert (snirf_file : string) : result RawHemo :=
  if String.eqb snirf_file "data/20240103_ctrl_P03.snirf"
  then Ok repeated_label_series
  else Err (ConversionError "not a SNIRF file").

Definition repeated_label_files : list string :=
  ["data/20240103_ctrl_P03.snirf"].

(** Two channels whose labels carry no source and detector index, one
    deoxygenated and one oxygenated. *)
Definition unindexed_series : RawHemo :=
  {| ch_names := ["Fp1 hbr"; "Fp2 hbo"];
     data := [[2; 2; 4; 4]%Q; [1; 2; 3; 4]%Q];
     sfreq := 5%Q;
     events := [(0, 0, 1); (2, 0, 2)]%Z;
     event_ids := [("rest", 1%Z); ("task", 2%Z)] |}.

Definition unindexed_convert (snirf_file : string) : result RawHemo :=
  if String.eqb snirf_file "data/20240102_ctrl_P02.snirf"
  then Ok unindexed_series
  else Err (ConversionError "not a SNIRF file").

Definition unindexed_files : list string :=
  ["data/20240102_ctrl_P02.snirf"].

(** An oxygenated channel without index whose only block, annotated at
    the end of the recording, has no samples. *)
Definition unindexed_empty_series : RawHemo :=
  {| ch_names := ["Fp1 hbo"];
     data := [[1; 2; 3; 4]%Q];
     sfreq := 5%Q;
     events := [(4, 0, 1)]%Z;
     event_ids := [("rest", 1%Z)] |}.

Definition unindexed_empty_convert (snirf_file : string) : result RawHemo :=
  if String.eqb snirf_file "data/20240102_ctrl_P02.snirf"
  then Ok unindexed_empty_series
  else Err (ConversionError "not a SNIRF file").

(** The needles of the classification are already in lower case. *)
Ltac needle H :=
  change (lower "hbo") with "hbo" in H;
  change (lower "hbr") with "hbr" in H.

(* ================================================================== *)
(** * Vocabulary of the further properties *)
(* ================================================================== *)

(** The key [entry[..]] raises on first, in the order lines 186-187
    read the keys; [None] when the entry has all three. *)
Definition first_missing_key (entry : MappingEntry) : option string :=
  match source entry, detector entry, region entry with
  | None, _, _ => Some "source"
  | Some _, None, _ => Some "detector"
  | Some _, Some _, None => Some "region"
  | Some _, Some _, Some _ => None
  end.

(** The lookup key line 186 builds for an entry that has its indices. *)
Definition entry_key (entry : MappingEntry) : option string :=
  match source entry, detector entry with
  | Some src, Some det =>
      Some ("S" ++ format_scalar src ++ "_D" ++ format_scalar det)
  | _, _ => None
  end.

(** The region of the last entry of the file that has the key. *)
Definition last_region (channel_map : list MappingEntry) (key : string)
  : option string :=
  fold_left
    (fun found entry =>
       match entry_key entry with
       | Some k => if String.eqb k key then region entry else found
       | None => found
       end)
    channel_map None.

(** The string does not begin with a digit. *)
Definition no_leading_digit (s : string) : Prop :=
  match s with
  | EmptyString => True
  | String c _ => is_digit c = false
  end.

(** The line the loop of lines 228-244 prints for a file. *)
Definition file_report (snirf_file : string) : Message :=
  match try_file snirf_file with
  | Ok (averages_df, file_blocks, trial_name) =>
      Processed trial_name (List.length averages_df) (List.length file_blocks)
  | Err e => ErrorProcessing (basename snirf_file) e
  end.

(** Some oxygenated measurement of the frame with the block label (the
    row label) has a mean that is not missing. *)
Definition block_has_value (combined_df : list Row) (block : string) : bool :=
  existsb (fun r => is_HbO r && String.eqb (Block r) block &&
                    negb (isna (Mean_Value r)))
          combined_df.

Definition row_label_has_value (combined_df : list Row) (row_label : string) : bool :=
  existsb (fun r => is_HbO r && String.eqb (Row_Label r) row_label &&
                    negb (isna (Mean_Value r)))
          combined_df.

(** A mean as [np.mean] returns it: a number or NaN, never an
    infinity. *)
Definition finite_or_nan (x : float) : Prop :=
  match x with
  | NaN | Num _ => True
  | PInf | NInf => False
  end.

(** Every row of the values has one cell per column, and there is one
    row of values per row label. *)
Definition rectangular (t : PivotTable) : Prop :=
  List.length (values t) = List.length (index t) /\
  Forall (fun row => List.length row = List.length (columns t)) (values t).

(** The labels are in ascending order, as [sorted] compares strings. *)
Definition ascending (l : list string) : Prop :=
  StronglySorted (fun a b => String.leb a b = true) l.

(** The string with every character replaced by its image. *)
Fixpoint translate (f : ascii -> ascii) (s : string) : string :=
  match s with
  | EmptyString => EmptyString
  | String c t => String (f c) (translate f t)
  end.

(** What lines 333 and 376 do to one character of a region name. *)
Definition safe_char (c : ascii) : ascii :=
  lower_char (if Ascii.eqb c "/" then "_"%char
              else if Ascii.eqb c " " then "_"%char else c).

Fixpoint all_chars (p : ascii -> bool) (s : string) : bool :=
  match s with
  | EmptyString => true
  | String c t => p c && all_chars p t
  end.

(** Nothing, or an underscore and more parts. *)
Definition further_parts (tail : string) : Prop :=
  tail = EmptyString \/ exists more, tail = "_" ++ more.

(* ================================================================== *)
(** * The file system and the GUI *)
(* ================================================================== *)

(** What the code asks the file system: [os.path.isdir],
    [os.path.isfile], [os.path.exists], the result of
    [Path(d).glob("*.snirf")] as paths, and the array of objects
    [json.load] reads from a mapping file. *)
Record FileSystem : Type := {
  isdir : string -> bool;
  isfile : string -> bool;
  path_exists : string -> bool;
  glob_snirf : string -> list string;
  json_load : string -> list MappingEntry
}.

(** Lines 288 and 392: how [process_snirf_files] reads its
    [channel_mapping_file] argument ([None] or a string). *)
Definition mapping_argument (fs : FileSystem) (channel_mapping_file : option string)
  : MappingArg :=
  match channel_mapping_file with
  | None => NoMappingGiven
  | Some path =>
      if is_empty path then NoMappingGiven
      else if path_exists fs path then MappingFile (json_load fs path)
      else MappingMissing path
  end.

(** [c.isspace()] on ASCII text *)
Definition is_space (c : ascii) : bool :=
  let n := nat_of_ascii c in
  ((9 <=? n)%nat && (n <=? 13)%nat) || ((28 <=? n)%nat && (n <=? 32)%nat).

(** [s.lstrip()], [s.rstrip()] and [s.strip()] *)
Fixpoint lstrip (s : string) : string :=
  match s with
  | EmptyString => EmptyString
  | String c t => if is_space c then lstrip t else s
  end.

Fixpoint rstrip (s : string) : string :=
  match s with
  | EmptyString => EmptyString
  | String c t =>
      let t' := rstrip t in
      if is_space c && is_empty t' then EmptyString else String c t'
  end.

Definition strip (s : string) : string := lstrip (rstrip s).

(** The three entry fields of the window. *)
Record Fields : Type := {
  input_dir : string;
  output_dir : string;
  mapping_file : string
}.

(** The message boxes of [validate_inputs]. *)
Inductive ValidationBox : Type :=
| SelectInputDirectory
| InputDirectoryDoesNotExist (path : string)
| NoSnirfFilesIn (path : string)
| SpecifyOutputDirectory
| MappingFileDoesNotExist (path : string).

(** [validate_inputs] of [fnirs_toolkit_gui.py], lines 134-170:
    whether the inputs are accepted, the fields afterwards, and the
    boxes shown; [continue_without] is the user's answer to the
    question of lines 160-164. *)
Definition validate_inputs (fs : FileSystem) (fields : Fields)
  (continue_without : bool) : bool * Fields * list ValidationBox :=
  let input := strip (input_dir fields) in
  if is_empty input then (false, fields, [SelectInputDirectory])
  else if negb (isdir fs input)
  then (false, fields, [InputDirectoryDoesNotExist input])
  else
    match glob_snirf fs input with
    | [] => (false, fields, [NoSnirfFilesIn input])
    | _ :: _ =>
        let output := strip (output_dir fields) in
        if is_empty output then (false, fields, [SpecifyOutputDirectory])
        else
          let mapping := strip (mapping_file fields) in
          if negb (is_empty mapping) && negb (isfile fs mapping)
          then
            if continue_without
            then (true,
                  {| input_dir := input_dir fields;
                     output_dir := output_dir fields;
                     mapping_file := EmptyString |},
                  [MappingFileDoesNotExist mapping])
            else (false, fields, [MappingFileDoesNotExist mapping])
          else (true, fields, [])
    end.

(** [process_files] and [process_files_thread], lines 172-226: nothing
    when the inputs are refused; otherwise the call of lines 175-195
    with the stripped fields, and the box shown when it is over. *)
Definition process_files (fs : FileSystem) (fields : Fields)
  (continue_without : bool) : option ((Outputs * option exn) * Dialog) :=
  let '(accepted, fields', _) := validate_inputs fs fields continue_without in
  if accepted
  then
    let input := strip (input_dir fields') in
    let mapping := strip (mapping_file fields') in
    let mapping_or_none := if is_empty mapping then None else Some mapping in
    let snirf_files := glob_snirf fs input in
    let mapping_arg := mapping_argument fs mapping_or_none in
    Some (process_snirf_files snirf_files mapping_arg,
          process_files_thread snirf_files mapping_arg)
  else None.

(* ================================================================== *)
(** * Further example inputs *)
(* ================================================================== *)

(** A mapping file in which the key [S1_D1] occurs twice. *)
Definition duplicate_key_mapping : list MappingEntry :=
  [{| source := Some (JInt 1); detector := Some (JInt 1);
      region := Some "PFC left" |};
   {| source := Some (JInt 2); detector := Some (JInt 1);
      region := Some "M1" |};
   {| source := Some (JStr "1"); detector := Some (JInt 1);
      region := Some "PFC right" |}].

Definition entry_without_region : MappingEntry :=
  {| source := Some (JInt 3); detector := Some (JInt 1); region := None |}.

(** Eight samples, and a second annotation at sample 12. *)
Definition late_annotation_series : RawHemo :=
  {| ch_names := ["S1_D1 hbo"];
     data := [[1; 2; 3; 4; 5; 6; 7; 8]%Q];
     sfreq := 5%Q;
     events := [(0, 0, 1); (12, 0, 2)]%Z;
     event_ids := [("rest", 1%Z); ("task", 2%Z)] |}.

(** Two oxygenated measurements of different channels. *)
Definition example_frame : list Row :=
  [{| Trial := "ctrl_P01"; Block := "rest"; Channel := "S1_D1 hbo";
      HbType := "HbO"; Mean_Value := Num 1; Std_Value := Num 0;
      Block_Duration_s := Num 10 |};
   {| Trial := "ctrl_P01"; Block := "rest"; Channel := "S2_D1 hbo";
      HbType := "HbO"; Mean_Value := Num 3; Std_Value := Num 0;
      Block_Duration_s := Num 10 |}].

(** A file system with the directory [data], holding two SNIRF files,
    and the mapping file [map.json]. *)
Definition example_fs : FileSystem :=
  {| isdir := fun p => String.eqb p "data";
     isfile := fun p => String.eqb p "map.json";
     path_exists := fun p => String.eqb p "map.json" || String.eqb p "data";
     glob_snirf := fun p => if String.eqb p "data" then example_files else [];
     json_load := fun _ => example_mapping |}.

Definition example_fields : Fields :=
  {| input_dir := " data ";
     output_dir := "output";
     mapping_file := "missing.json" |}.

(* ================================================================== *)
(** * Properties: strings *)
(* ================================================================== *)

Lemma startswith_spec (needle hay : string) :
  startswith needle hay = true <-> exists post, hay = needle ++ post.
Proof.
  revert hay; induction needle as [|a n IH]; intros hay; simpl.
  - split; [intros _; now exists hay | reflexivity].
  - destruct hay as [|b h].
    + split; [discriminate | intros [post H]; discriminate].
    + rewrite andb_true_iff, Ascii.eqb_eq, IH. split.
      * intros [-> [post ->]]. now exists post.
      * intros [post H]. injection H as -> ->. split; [reflexivity | now exists post].
Qed.

Lemma contains_spec (needle hay : string) :
  contains needle hay = true <-> exists pre post, hay = pre ++ needle ++ post.
Proof.
  induction hay as [|c t IH]; simpl.
  - rewrite orb_false_r, startswith_spec. split.
    + intros [post H]. now exists EmptyString, post.
    + intros [pre [post H]]. destruct pre; [now exists post | discriminate].
  - rewrite orb_true_iff, startswith_spec, IH. split.
    + intros [[post H] | [pre [post H]]].
      * now exists EmptyString, post.
      * exists (String c pre), post. simpl. now rewrite H.
    + intros [pre [post H]]. destruct pre as [|c' pre]; simpl in H.
      * left. now exists post.
      * right. injection H as -> ->. now exists pre, post.
Qed.

Lemma lower_app (a b : string) : lower (a ++ b) = lower a ++ lower b.
Proof. induction a as [|c a IH]; simpl; [reflexivity | now rewrite IH]. Qed.

Lemma lower_split (s a b : string) :
  lower s = a ++ b ->
  exists s1 s2, s = s1 ++ s2 /\ lower s1 = a /\ lower s2 = b.
Proof.
  revert s; induction a as [|c a IH]; intros s H; simpl in H.
  - now exists EmptyString, s.
  - destruct s as [|d s]; [discriminate |].
    simpl in H. injection H as Hc Hs.
    destruct (IH s Hs) as [s1 [s2 [-> [H1 H2]]]].
    exists (String d s1), s2. simpl. now rewrite Hc, H1.
Qed.

(** The test of lines 116 and 118 decides containment up to case. *)
Lemma contains_lower_spec (needle label : string) :
  contains (lower needle) (lower label) = true <-> contains_ci needle label.
Proof.
  rewrite contains_spec. unfold contains_ci. split.
  - intros [pre' [post' H]].
    destruct (lower_split _ _ _ H) as [pre [rest [-> [_ Hrest]]]].
    destruct (lower_split _ _ _ Hrest) as [mid [post [-> [Hmid _]]]].
    now exists pre, mid, post.
  - intros [pre [mid [post [-> Hmid]]]].
    exists (lower pre), (lower post).
    now rewrite !lower_app, Hmid.
Qed.

Lemma contains_ci_false (needle label : string) :
  contains (lower needle) (lower label) = false <-> ~ contains_ci needle label.
Proof.
  rewrite <- contains_lower_spec.
  destruct (contains (lower needle) (lower label)).
  - split; [discriminate | intros H; exfalso; now apply H].
  - split; [intros _ H; discriminate | reflexivity].
Qed.

(* ================================================================== *)
(** * Properties: signal-type classification *)
(* ================================================================== *)

(** C8, as written, fails on a label that holds both substrings: the
    label contains the deoxygenated substring and is not tagged
    [HbR]. *)
Lemma hb_type_hbr_clause_fails :
  contains_ci "hbr" "S1_D1 hbo hbr" /\ hb_type_of "S1_D1 hbo hbr" <> "HbR".
Proof.
  split.
  - apply contains_lower_spec. reflexivity.
  - vm_compute. discriminate.
Qed.

(** C8 (amended): the tag is [HbO] when the label contains "hbo" up to
    case, [HbR] when it contains "hbr" up to case and does not contain
    "hbo", and [Unknown] when it contains neither; whatever surrounds
    the substring plays no part. *)
Theorem hb_type_classification (label : string) :
  (contains_ci "hbo" label -> hb_type_of label = "HbO") /\
  (contains_ci "hbr" label -> ~ contains_ci "hbo" label ->
   hb_type_of label = "HbR") /\
  (~ contains_ci "hbo" label -> ~ contains_ci "hbr" label ->
   hb_type_of label = "Unknown") /\
  (forall pre mid post, lower mid = "hbo" ->
     hb_type_of (pre ++ mid ++ post) = "HbO").
Proof.
  unfold hb_type_of. repeat split.
  - intros H. apply (contains_lower_spec "hbo") in H. needle H.
    now rewrite H.
  - intros Hr Ho. apply (contains_lower_spec "hbr") in Hr.
    apply (contains_ci_false "hbo") in Ho.
    needle Hr. needle Ho. now rewrite Ho, Hr.
  - intros Ho Hr. apply (contains_ci_false "hbo") in Ho.
    apply (contains_ci_false "hbr") in Hr.
    needle Hr. needle Ho. now rewrite Ho, Hr.
  - intros pre mid post Hmid.
    assert (H : contains_ci "hbo" (pre ++ mid ++ post))
      by (now exists pre, mid, post).
    apply (contains_lower_spec "hbo") in H. needle H.
    now rewrite H.
Qed.

Lemma hb_type_classification_witness :
  hb_type_of "S2_D1 HBR" = "HbR".
Proof.
  apply (hb_type_classification "S2_D1 HBR").
  - apply contains_lower_spec. reflexivity.
  - apply contains_ci_false. reflexivity.
Defined.

(** C10: a label that contains both "hbo" and "hbr" up to case is
    tagged [HbO]; the oxygenated test is made first. *)
Theorem hb_type_hbo_precedence (label : string) :
  contains_ci "hbo" label -> contains_ci "hbr" label ->
  hb_type_of label = "HbO".
Proof.
  intros Ho _. unfold hb_type_of.
  apply (contains_lower_spec "hbo") in Ho. needle Ho.
  now rewrite Ho.
Qed.

Lemma hb_type_hbo_precedence_witness :
  hb_type_of "HbR vs hBo" = "HbO".
Proof.
  apply hb_type_hbo_precedence; apply contains_lower_spec; reflexivity.
Defined.

(* ================================================================== *)
(** * Properties: global block order *)
(* ================================================================== *)

Lemma mem_In (x : string) (l : list string) : mem x l = true <-> In x l.
Proof.
  induction l as [|y l IH]; simpl.
  - split; [discriminate | tauto].
  - rewrite orb_true_iff, String.eqb_eq, IH. split; intros [H | H]; auto.
Qed.

Lemma mem_app (x : string) (a b : list string) :
  mem x (a ++ b) = mem x a || mem x b.
Proof.
  induction a as [|y a IH]; simpl; [reflexivity |].
  now rewrite IH, orb_assoc.
Qed.

Lemma unique_In (x : string) (l : list string) : In x (unique l) <-> In x l.
Proof.
  induction l as [|y l IH]; simpl; [tauto |].
  rewrite filter_In, IH, negb_true_iff, String.eqb_neq.
  destruct (string_dec y x) as [-> | Hne]; [tauto |].
  split; [tauto |]. intros [H | H]; [tauto |].
  right. split; [assumption | congruence].
Qed.

Lemma unique_NoDup (l : list string) : NoDup (unique l).
Proof.
  induction l as [|y l IH]; simpl; constructor.
  - rewrite filter_In, negb_true_iff, String.eqb_neq. tauto.
  - now apply NoDup_filter.
Qed.

Lemma filter_filter {A : Type} (f g : A -> bool) (l : list A) :
  filter f (filter g l) = filter (fun x => g x && f x) l.
Proof.
  induction l as [|a l IH]; simpl; [reflexivity |].
  destruct (g a); simpl; [destruct (f a) |]; now rewrite IH.
Qed.

(** The loop of lines 237-239 in closed form. *)
Lemma add_new_blocks_closed_form (seen file_blocks : list string) :
  add_new_blocks seen file_blocks =
  (seen ++ filter (fun b => negb (mem b seen)) (unique file_blocks))%list.
Proof.
  unfold add_new_blocks. revert seen.
  induction file_blocks as [|b fb IH]; intros seen; simpl.
  - now rewrite app_nil_r.
  - rewrite IH. destruct (mem b seen) eqn:Hb; simpl.
    + f_equal. rewrite filter_filter. apply filter_ext_in. intros x _.
      destruct (String.eqb_spec x b) as [-> | _]; simpl; [now rewrite Hb | reflexivity].
    + rewrite <- app_assoc. simpl. do 2 f_equal.
      rewrite filter_filter. apply filter_ext. intros x.
      rewrite mem_app. simpl. rewrite orb_false_r, negb_orb.
      apply andb_comm.
Qed.

Lemma add_new_blocks_In (x : string) (seen file_blocks : list string) :
  In x (add_new_blocks seen file_blocks) <-> In x seen \/ In x file_blocks.
Proof.
  rewrite add_new_blocks_closed_form, in_app_iff, filter_In, unique_In,
    negb_true_iff.
  destruct (mem x seen) eqn:Hm.
  - apply mem_In in Hm. split; [intros [H | [_ H]]; [tauto | discriminate] | tauto].
  - tauto.
Qed.

Lemma add_new_blocks_NoDup (seen file_blocks : list string) :
  NoDup seen -> NoDup (add_new_blocks seen file_blocks).
Proof.
  intros Hs. rewrite add_new_blocks_closed_form. apply NoDup_app.
  repeat split.
  - assumption.
  - apply NoDup_filter, unique_NoDup.
  - intros x Hx Hf. apply filter_In in Hf. destruct Hf as [_ Hf].
    apply mem_In in Hx. now rewrite Hx in Hf.
Qed.

Lemma loop_blocks (snirf_files : list string) (st : LoopState) :
  all_blocks_seen (fold_left loop_body snirf_files st) =
  fold_left add_new_blocks (contributed_blocks snirf_files) (all_blocks_seen st).
Proof.
  revert st. induction snirf_files as [|f fs IH]; intros st; simpl.
  - reflexivity.
  - rewrite IH, fold_left_app. unfold loop_body at 1.
    destruct (try_file f) as [[[df fb] tn] | e]; reflexivity.
Qed.

Lemma loop_frames (snirf_files : list string) (st : LoopState) :
  all_averages (fold_left loop_body snirf_files st) =
  (all_averages st ++ contributed_frames snirf_files)%list.
Proof.
  revert st. induction snirf_files as [|f fs IH]; intros st; simpl.
  - now rewrite app_nil_r.
  - rewrite IH. unfold loop_body at 1.
    destruct (try_file f) as [[[df fb] tn] | e]; simpl.
    + now rewrite <- app_assoc.
    + reflexivity.
Qed.

Lemma fold_add_new_blocks_NoDup (lists : list (list string)) (seen : list string) :
  NoDup seen -> NoDup (fold_left add_new_blocks lists seen).
Proof.
  revert seen. induction lists as [|fb lists IH]; intros seen Hs; simpl.
  - assumption.
  - now apply IH, add_new_blocks_NoDup.
Qed.


(* ================================================================== *)
(** * Properties: the result monad and enumeration *)
(* ================================================================== *)

Lemma mapM_ok_map {A B : Type} (f : A -> result B) (g : A -> B) (l : list A) :
  (forall a, In a l -> f a = Ok (g a)) -> mapM f l = Ok (map g l).
Proof.
  induction l as [|a l IH]; intros H; simpl; [reflexivity |].
  rewrite (H a (or_introl eq_refl)). simpl.
  rewrite IH by (intros x Hx; apply H; now right). reflexivity.
Qed.

Lemma mapM_ext {A B : Type} (f g : A -> result B) (l : list A) :
  (forall a, In a l -> f a = g a) -> mapM f l = mapM g l.
Proof.
  induction l as [|a l IH]; intros H; simpl; [reflexivity |].
  rewrite (H a (or_introl eq_refl)).
  rewrite IH by (intros x Hx; apply H; now right). reflexivity.
Qed.

(** A loop whose body first computes [f] and then [g] is, when [f]
    never raises, the loop of [g] over the results of [f]. *)
Lemma mapM_fuse {A B C : Type} (f : A -> result B) (g : B -> result C)
  (l : list A) (bs : list B) :
  mapM f l = Ok bs ->
  mapM (fun a => b <- f a ;; g b) l = mapM g bs.
Proof.
  revert bs. induction l as [|a l IH]; intros bs H; simpl in *.
  - injection H as <-. reflexivity.
  - destruct (f a) as [b | e]; simpl in H; [| discriminate].
    destruct (mapM f l) as [bs' | e]; simpl in H; [| discriminate].
    injection H as <-. simpl. now rewrite (IH bs' eq_refl).
Qed.

Lemma py_index_app {A : Type} (pre : list A) (x : A) (post : list A) :
  py_index (pre ++ x :: post) (List.length pre) = Ok x.
Proof.
  unfold py_index. rewrite nth_error_app2 by lia.
  now rewrite Nat.sub_diag.
Qed.

(** Indexing a second sequence by the positions of the first is
    walking the two side by side. *)
Lemma mapM_enumerate_index {A B C : Type} (g : A -> B -> result C)
  (pre : list B) (xs : list A) (ys : list B) :
  List.length ys = List.length xs ->
  mapM (fun p : nat * A => y <- py_index (pre ++ ys) (fst p) ;; g (snd p) y)
       (combine (seq (List.length pre) (List.length xs)) xs) =
  mapM (fun q : A * B => g (fst q) (snd q)) (combine xs ys).
Proof.
  revert pre ys. induction xs as [|x xs IH]; intros pre ys Hlen; simpl.
  - reflexivity.
  - destruct ys as [|y ys]; [discriminate |]. simpl in Hlen.
    rewrite py_index_app. simpl.
    specialize (IH (pre ++ [y])%list ys).
    rewrite length_app, Nat.add_1_r, <- app_assoc in IH. simpl in IH.
    rewrite IH by lia. reflexivity.
Qed.

(* ================================================================== *)
(** * Properties: block segmentation and channel statistics *)
(* ================================================================== *)

Lemma py_slice_all {A : Type} (l : list A) :
  py_slice l 0 (Z.of_nat (List.length l)) = l.
Proof.
  unfold py_slice, slice_index.
  change (0 <? 0)%Z with false. cbv iota.
  destruct (Z.ltb_spec (Z.of_nat (List.length l)) 0) as [Hneg | _]; [lia |].
  rewrite Z.min_id, Z.min_l by lia.
  rewrite Z.sub_0_r, Nat2Z.id. simpl. apply firstn_all.
Qed.

Lemma py_slice_same {A : Type} (l : list A) (i : Z) : py_slice l i i = [].
Proof. unfold py_slice. now rewrite Z.sub_diag. Qed.

(** Lines 111-133 with the channel loop written over the channel names
    and their sample rows side by side. *)
Lemma block_rows_closed_form (raw : RawHemo) (trial_name : string) (w : Window) :
  List.length (data raw) = List.length (ch_names raw) ->
  block_rows raw trial_name w =
  Ok (map (fun q => window_row raw trial_name w (fst q) (snd q))
          (combine (ch_names raw) (data raw))).
Proof.
  intros Hlen. unfold block_rows, enumerate.
  set (sl := fun row : list Q => py_slice row (block_start w) (block_end w)).
  transitivity
    (mapM (fun q : string * list Q =>
             Ok (window_row raw trial_name w (fst q) (snd q)))
          (combine (ch_names raw) (data raw))).
  - pose proof (mapM_enumerate_index
                  (fun ch_name samples =>
                     Ok {| Trial := trial_name;
                           Block := block_label w;
                           Channel := ch_name;
                           HbType := hb_type_of ch_name;
                           Mean_Value := np_mean samples;
                           Std_Value := np_std samples;
                           Block_Duration_s :=
                             np_true_divide (block_end w - block_start w)
                                            (sfreq raw) |})
                  [] (ch_names raw) (map sl (data raw))) as H.
    simpl in H. rewrite length_map in H. specialize (H Hlen).
    etransitivity; [etransitivity; [| exact H] |].
    + apply mapM_ext. now intros [i ch] _.
    + clear H. revert Hlen. generalize (data raw) as d.
      induction (ch_names raw) as [|c cs IH]; intros d Hlen; [reflexivity |].
      destruct d as [|r d]; [discriminate |]. simpl.
      rewrite IH by (simpl in Hlen; lia). reflexivity.
  - now apply mapM_ok_map.
Qed.

Lemma n_samples_cons (row : list Q) (rest : list (list Q)) :
  n_samples (row :: rest) = Ok (Z.of_nat (List.length row)).
Proof. reflexivity. Qed.

(** Lines 136-154 in the same form. *)
Lemma entire_recording_closed_form (raw : RawHemo) (trial_name : string) (n : nat) :
  List.length (data raw) = List.length (ch_names raw) ->
  Forall (fun row => List.length row = n) (data raw) ->
  Qeq_bool (sfreq raw) 0 = false ->
  entire_recording_rows raw trial_name =
  Ok (map (fun q => recording_row raw trial_name n (fst q) (snd q))
          (combine (ch_names raw) (data raw))).
Proof.
  intros Hlen Hrect Hsf. unfold entire_recording_rows, enumerate.
  pose proof (mapM_enumerate_index
                (fun ch_name samples =>
                   n0 <- n_samples (data raw) ;;
                   duration <- py_true_divide n0 (sfreq raw) ;;
                   Ok {| Trial := trial_name;
                         Block := "Entire_Recording";
                         Channel := ch_name;
                         HbType := hb_type_of ch_name;
                         Mean_Value := np_mean samples;
                         Std_Value := np_std samples;
                         Block_Duration_s := duration |})
                [] (ch_names raw) (data raw) Hlen) as H.
  simpl in H.
  etransitivity; [etransitivity; [| exact H] |].
  - apply mapM_ext. now intros [i ch] _.
  - clear H. apply mapM_ok_map. intros [ch samples] Hin. simpl.
    assert (Hs : List.length samples = n).
    { apply in_combine_r in Hin. rewrite Forall_forall in Hrect. now apply Hrect. }
    destruct (data raw) as [|row0 rest] eqn:Hd.
    + apply in_combine_r in Hin. destruct Hin.
    + rewrite n_samples_cons. simpl.
      assert (Hr0 : List.length row0 = n) by (now inversion Hrect).
      unfold py_true_divide. rewrite Hsf. simpl.
      unfold recording_row. rewrite <- Hs at 1 2. rewrite py_slice_all.
      now rewrite Hr0.
Qed.

(** C4: a series without event annotations yields one row per channel,
    every row labelled [Entire_Recording], with statistics over the
    samples [[0, n_samples)] and the duration [n_samples / sample_rate];
    the block labels of the frame are that one label. *)
Theorem no_annotations_single_block (raw : RawHemo) (trial_name : string) (n : nat) :
  events raw = [] ->
  List.length (data raw) = List.length (ch_names raw) ->
  Forall (fun row => List.length row = n) (data raw) ->
  Qeq_bool (sfreq raw) 0 = false ->
  exists rows,
    get_hemoglobin_averages raw trial_name = Ok rows /\
    rows = map (fun q => recording_row raw trial_name n (fst q) (snd q))
               (combine (ch_names raw) (data raw)) /\
    map Channel rows = ch_names raw /\
    Forall (fun r => Block r = "Entire_Recording" /\
                     Block_Duration_s r =
                     Num (Qred (inject_Z (Z.of_nat n) / sfreq raw))) rows /\
    unique (map Block rows) =
      match ch_names raw with [] => [] | _ :: _ => ["Entire_Recording"] end.
Proof.
  intros Hev Hlen Hrect Hsf.
  eexists. split; [| split; [reflexivity |]].
  - unfold get_hemoglobin_averages. rewrite Hev.
    now apply entire_recording_closed_form.
  - revert Hlen. generalize (data raw) as d.
    induction (ch_names raw) as [|c cs IH]; intros d Hlen.
    + repeat split; constructor.
    + destruct d as [|r d]; [discriminate |]. simpl in Hlen.
      destruct (IH d ltac:(lia)) as [H1 [H2 H3]]. simpl.
      repeat split.
      * now rewrite H1.
      * constructor; [now split | assumption].
      * f_equal. rewrite H3. now destruct cs.
Qed.

(** Lines 95-108 in closed form: the events from position
    [length pre] on. *)
Lemma event_windows_from (raw : RawHemo) (n : Z)
  (pre rest : list (Z * Z * Z)) :
  events raw = (pre ++ rest)%list ->
  n_samples (data raw) = Ok n ->
  mapM (fun p : nat * (Z * Z * Z) => event_window raw (fst p) (snd p))
       (combine (seq (List.length pre) (List.length rest)) rest) =
  Ok (windows_from (event_ids raw) (List.length pre) rest n).
Proof.
  intros Hev Hn. revert pre Hev.
  induction rest as [|ev rest IH]; intros pre Hev; simpl; [reflexivity |].
  specialize (IH (pre ++ [ev])%list).
  rewrite <- app_assoc, length_app, Nat.add_1_r in IH.
  rewrite (IH Hev). clear IH.
  unfold event_window at 1. simpl.
  destruct ev as [[event_sample dur] event_id]. rewrite Hev, length_app. simpl.
  destruct rest as [|next rest]; simpl.
  - assert ((List.length pre <? List.length pre + 1 - 1)%nat = false) as ->
      by (apply Nat.ltb_ge; lia).
    rewrite Hn. reflexivity.
  - assert ((List.length pre <? List.length pre + S (S (List.length rest)) - 1)%nat
            = true) as -> by (apply Nat.ltb_lt; lia).
    replace (pre ++ (event_sample, dur, event_id) :: next :: rest)%list
      with ((pre ++ [(event_sample, dur, event_id)]) ++ next :: rest)%list
      by (now rewrite <- app_assoc).
    replace (List.length pre + 1)%nat
      with (List.length (pre ++ [(event_sample, dur, event_id)])%list)
      by (now rewrite length_app).
    rewrite py_index_app. reflexivity.
Qed.

Lemma block_windows_closed_form (raw : RawHemo) (n : Z) :
  n_samples (data raw) = Ok n ->
  block_windows raw = Ok (windows_from (event_ids raw) 0 (events raw) n).
Proof.
  intros Hn. unfold block_windows, enumerate.
  etransitivity; [| exact (event_windows_from raw n [] (events raw) eq_refl Hn)].
  apply mapM_ext. now intros [i ev] _.
Qed.

Lemma windows_from_length ids idx evs n :
  List.length (windows_from ids idx evs n) = List.length evs.
Proof.
  revert idx. induction evs as [|ev evs IH]; intros idx; simpl; [reflexivity |].
  now rewrite IH.
Qed.

(** With at least one event, the frame is the rows of the windows, one
    window after the other. *)
Lemma averages_by_window (raw : RawHemo) (trial_name : string) (ws : list Window) :
  events raw <> [] ->
  block_windows raw = Ok ws ->
  List.length (data raw) = List.length (ch_names raw) ->
  get_hemoglobin_averages raw trial_name =
  Ok (List.concat
        (map (fun w =>
                map (fun q => window_row raw trial_name w (fst q) (snd q))
                    (combine (ch_names raw) (data raw)))
             ws)).
Proof.
  intros Hev Hws Hlen. unfold get_hemoglobin_averages.
  destruct (events raw) as [|ev0 evs] eqn:He; [congruence |].
  rewrite <- He. unfold block_windows in Hws.
  rewrite (mapM_ext _ (fun p => w <- (fun '(event_idx, ev) =>
                                        event_window raw event_idx ev) p ;;
                                block_rows raw trial_name w))
    by (now intros [i ev] _).
  rewrite (mapM_fuse _ _ _ _ Hws).
  rewrite (mapM_ok_map _
             (fun w => map (fun q => window_row raw trial_name w (fst q) (snd q))
                           (combine (ch_names raw) (data raw))))
    by (intros w _; now apply block_rows_closed_form).
  reflexivity.
Qed.

Lemma data_nonempty_n_samples (raw : RawHemo) :
  List.length (data raw) = List.length (ch_names raw) ->
  ch_names raw <> [] ->
  exists n, n_samples (data raw) = Ok n.
Proof.
  intros Hlen Hch. destruct (data raw) as [|row rest].
  - destruct (ch_names raw); [congruence | discriminate].
  - eexists. apply n_samples_cons.
Qed.

Lemma map_fst_combine {A B : Type} (xs : list A) (ys : list B) :
  List.length ys = List.length xs -> map fst (combine xs ys) = xs.
Proof.
  revert ys. induction xs as [|x xs IH]; intros ys H; [reflexivity |].
  destruct ys as [|y ys]; [discriminate |]. simpl.
  rewrite IH by (simpl in H; lia). reflexivity.
Qed.

(** C5: a block whose sample range holds no samples (as when two
    annotations share a sample index) gets, for every channel, a row
    whose mean and standard deviation are NaN -- not a number, so not
    zero -- and the extraction returns its frame without raising. *)
Theorem empty_block_statistics_are_nan (raw : RawHemo) (trial_name : string) :
  List.length (data raw) = List.length (ch_names raw) ->
  ch_names raw <> [] ->
  events raw <> [] ->
  exists ws per_block,
    block_windows raw = Ok ws /\
    get_hemoglobin_averages raw trial_name = Ok (List.concat per_block) /\
    Forall2
      (fun w rows =>
         map Channel rows = ch_names raw /\
         Forall (fun r => Block r = block_label w) rows /\
         (block_start w = block_end w -> no_samples raw w) /\
         (no_samples raw w ->
          Forall (fun r => Mean_Value r = NaN /\ Std_Value r = NaN /\
                           Mean_Value r <> Num 0 /\ Std_Value r <> Num 0)
                 rows))
      ws per_block.
Proof.
  intros Hlen Hch Hev.
  destruct (data_nonempty_n_samples raw Hlen Hch) as [n Hn].
  pose proof (block_windows_closed_form raw n Hn) as Hws.
  eexists. eexists. split; [exact Hws |].
  split; [exact (averages_by_window raw trial_name _ Hev Hws Hlen) |].
  generalize (windows_from (event_ids raw) 0 (events raw) n) as ws.
  induction ws as [|w ws IH]; simpl; constructor; [| exact IH].
  clear IH. repeat split.
  - rewrite map_map. simpl. now apply map_fst_combine.
  - apply Forall_forall. intros r Hr. apply in_map_iff in Hr.
    now destruct Hr as [q [<- _]].
  - intros Heq. apply Forall_forall. intros row _. rewrite Heq.
    apply py_slice_same.
  - intros Hempty. apply Forall_forall. intros r Hr.
    apply in_map_iff in Hr. destruct Hr as [[ch samples] [<- Hin]].
    apply in_combine_r in Hin. unfold no_samples in Hempty.
    rewrite Forall_forall in Hempty. unfold window_row. simpl.
    rewrite (Hempty samples Hin). simpl.
    repeat split; discriminate.
Qed.

(* ================================================================== *)
(** * Properties: the blocks as a partition *)
(* ================================================================== *)

Lemma windows_from_contiguous ids idx evs n :
  contiguous (windows_from ids idx evs n).
Proof.
  revert idx. induction evs as [|ev evs IH]; intros idx; [exact I |].
  destruct evs as [|next evs]; [exact I |].
  split; [reflexivity | apply IH].
Qed.

Lemma covering_count_cons (s : Z) (w : Window) (ws : list Window) :
  covering_count s (w :: ws) =
  ((if in_window s w then 1 else 0) + covering_count s ws)%nat.
Proof. unfold covering_count. simpl. now destruct (in_window s w). Qed.

Lemma windows_from_cover ids idx ev0 rest n :
  ordered_by_sample (ev0 :: rest) ->
  Forall (fun ev => (event_sample_of ev <= n)%Z) (ev0 :: rest) ->
  exactly_covers (event_sample_of ev0) n (windows_from ids idx (ev0 :: rest) n).
Proof.
  revert idx ev0. induction rest as [|ev1 rest IH]; intros idx ev0 Hord Hle s.
  - simpl. unfold covering_count, in_window. simpl.
    now destruct ((event_sample_of ev0 <=? s)%Z && (s <? n)%Z).
  - destruct Hord as [H01 Hord]. inversion Hle as [|? ? H0 Hle']; subst.
    assert (H1 : (event_sample_of ev1 <= n)%Z) by (now inversion Hle').
    change (windows_from ids idx (ev0 :: ev1 :: rest) n)
      with ({| block_start := event_sample_of ev0;
               block_end := event_sample_of ev1;
               block_label :=
                 label_or_default (find_event_label ids (snd ev0)) idx |}
            :: windows_from ids (S idx) (ev1 :: rest) n).
    rewrite covering_count_cons, (IH (S idx) ev1 Hord Hle' s).
    unfold in_window. simpl.
    destruct (Z.leb_spec (event_sample_of ev0) s),
             (Z.ltb_spec s (event_sample_of ev1)),
             (Z.leb_spec (event_sample_of ev1) s),
             (Z.ltb_spec s n); simpl; try reflexivity; lia.
Qed.

(** C1, as written, fails when the first annotation is not at sample
    0: the samples before it lie in no block. *)
Lemma blocks_miss_samples_before_first_annotation :
  exists ws,
    block_windows late_start_series = Ok ws /\
    covering_count 0 ws = 0%nat /\
    ~ exactly_covers 0 20 ws.
Proof.
  eexists. split; [reflexivity |]. split; [reflexivity |].
  intros H. specialize (H 0%Z). vm_compute in H. discriminate.
Qed.

(** C1 (amended): for a series whose annotations are ordered by sample
    index and lie within the recording, there is one block per
    annotation, each block ends where the next starts, no two blocks
    overlap, and their union is exactly the samples from the first
    annotation to the end, [[first_sample, n_samples)]. *)
Theorem blocks_partition_from_first_annotation
  (raw : RawHemo) (n : Z) (ev0 : Z * Z * Z) (rest : list (Z * Z * Z)) :
  events raw = ev0 :: rest ->
  n_samples (data raw) = Ok n ->
  ordered_by_sample (events raw) ->
  Forall (fun ev => (event_sample_of ev <= n)%Z) (events raw) ->
  exists ws,
    block_windows raw = Ok ws /\
    List.length ws = List.length (events raw) /\
    contiguous ws /\
    exactly_covers (event_sample_of ev0) n ws.
Proof.
  intros Hev Hn Hord Hle.
  exists (windows_from (event_ids raw) 0 (events raw) n).
  split; [now apply block_windows_closed_form |].
  split; [apply windows_from_length |].
  split; [apply windows_from_contiguous |].
  rewrite Hev in *. now apply windows_from_cover.
Qed.

Lemma blocks_partition_from_first_annotation_witness :
  exists ws,
    block_windows three_block_series = Ok ws /\
    List.length ws = 3%nat /\
    contiguous ws /\
    exactly_covers 0 200 ws.
Proof.
  apply (blocks_partition_from_first_annotation
           three_block_series 200 (0, 0, 1)%Z [(50, 0, 2); (120, 0, 1)]%Z).
  - reflexivity.
  - reflexivity.
  - simpl. unfold event_sample_of. simpl. lia.
  - repeat constructor; unfold event_sample_of; simpl; lia.
Defined.

(* ================================================================== *)
(** * Properties: per-file failures and a run without data *)
(* ================================================================== *)

Lemma succeeds_false (f : string) :
  succeeds f = false <-> exists e, try_file f = Err e.
Proof.
  unfold succeeds. destruct (try_file f) as [x | e]; simpl.
  - split; [discriminate | intros [e H]; discriminate].
  - split; [intros _; now exists e | reflexivity].
Qed.

Lemma loop_printed_grows (m : Message) (snirf_files : list string) (st : LoopState) :
  In m (printed st) -> In m (printed (fold_left loop_body snirf_files st)).
Proof.
  revert st. induction snirf_files as [|f fs IH]; intros st H; simpl; [assumption |].
  apply IH. unfold loop_body.
  destruct (try_file f) as [[[df fb] tn] | e]; simpl;
    apply in_or_app; now left.
Qed.

Lemma loop_reports_failure (f : string) (e : exn)
  (snirf_files : list string) (st : LoopState) :
  In f snirf_files -> try_file f = Err e ->
  In (ErrorProcessing (basename f) e)
     (printed (fold_left loop_body snirf_files st)).
Proof.
  revert st. induction snirf_files as [|g fs IH]; intros st Hin He; [destruct Hin |].
  simpl. destruct Hin as [-> | Hin].
  - apply loop_printed_grows. unfold loop_body. rewrite He. simpl.
    apply in_or_app. right. now left.
  - now apply IH.
Qed.

Lemma run_loop_frames (snirf_files : list string) :
  all_averages (run_loop snirf_files) = contributed_frames snirf_files.
Proof. unfold run_loop. now rewrite loop_frames. Qed.

Lemma run_loop_blocks (snirf_files : list string) :
  all_blocks_seen (run_loop snirf_files) =
  fold_left add_new_blocks (contributed_blocks snirf_files) [].
Proof. unfold run_loop. now rewrite loop_blocks. Qed.

Lemma nothing_contributed (snirf_files : list string) :
  (forall f, In f snirf_files -> succeeds f = false) ->
  contributed_frames snirf_files = [] /\ contributed_blocks snirf_files = [].
Proof.
  induction snirf_files as [|f fs IH]; intros H; [now split |].
  destruct IH as [IH1 IH2]; [intros g Hg; apply H; now right |].
  assert (Hf : succeeds f = false) by (apply H; now left).
  apply succeeds_false in Hf. destruct Hf as [e He].
  unfold contributed_frames, contributed_blocks in *. simpl.
  rewrite He, IH1, IH2. now split.
Qed.

(** C6 (amended): a file whose processing raises is reported and
    skipped, and the files after it are processed as if it were not
    there; a run in which no file is processed prints that no files
    were processed, writes no table, builds no region table, and
    returns to its caller without raising, so that [main] ends with
    exit status 0 and the GUI reports a completed run. *)
Theorem failed_files_are_skipped_and_empty_run_returns :
  (forall (before after : list string) (bad : string),
     succeeds bad = false ->
     all_averages (run_loop (before ++ bad :: after)) =
       all_averages (run_loop (before ++ after)) /\
     all_blocks_seen (run_loop (before ++ bad :: after)) =
       all_blocks_seen (run_loop (before ++ after)) /\
     all_averages (run_loop (before ++ bad :: after)) =
       (contributed_frames before ++ contributed_frames after)%list /\
     exists e,
       In (ErrorProcessing (basename bad) e)
          (printed (run_loop (before ++ bad :: after)))) /\
  (forall (snirf_files : list string) (mapping : MappingArg),
     snirf_files <> [] ->
     (forall f, In f snirf_files -> succeeds f = false) ->
     exists lines,
       process_snirf_files snirf_files mapping =
         ({| stdout := (lines ++ [NoFilesProcessed])%list;
             written := []; region_pivots := []; rendered := [] |}, None) /\
       ~ fatal_to_caller (process_snirf_files snirf_files mapping) /\
       main snirf_files mapping = ((lines ++ [NoFilesProcessed])%list, 0%Z) /\
       process_files_thread snirf_files mapping = ShowInfoCompleted).
Proof.
  split.
  - intros before after bad Hbad.
    pose proof Hbad as Hs. apply succeeds_false in Hs. destruct Hs as [e He].
    assert (Hf : contributed_frames (before ++ bad :: after) =
                 (contributed_frames before ++ contributed_frames after)%list).
    { unfold contributed_frames. rewrite flat_map_app. simpl. now rewrite He. }
    assert (Hb : contributed_blocks (before ++ bad :: after) =
                 contributed_blocks (before ++ after)).
    { unfold contributed_blocks. rewrite !flat_map_app. simpl. now rewrite He. }
    rewrite !run_loop_frames, !run_loop_blocks, Hf, Hb.
    repeat split.
    + unfold contributed_frames. now rewrite flat_map_app.
    + exists e. apply loop_reports_failure; [| assumption].
      apply in_or_app. right. now left.
  - intros snirf_files mapping Hne Hall.
    destruct (nothing_contributed snirf_files Hall) as [Hf Hb].
    exists (printed (run_loop snirf_files)).
    assert (Hrun : process_snirf_files snirf_files mapping =
                   ({| stdout := (printed (run_loop snirf_files)
                                  ++ [NoFilesProcessed])%list;
                       written := []; region_pivots := []; rendered := [] |},
                    None)).
    { unfold process_snirf_files.
      destruct snirf_files as [|f fs]; [congruence |].
      rewrite run_loop_frames, run_loop_blocks, Hf, Hb. simpl.
      now rewrite app_nil_r. }
    split; [exact Hrun |]. split; [| split].
    + intros [e He]. rewrite Hrun in He. discriminate.
    + unfold main. now rewrite Hrun.
    + unfold process_files_thread. now rewrite Hrun.
Qed.

(* ================================================================== *)
(** * Properties: pivot tables *)
(* ================================================================== *)

Lemma insert_sorted_In (x y : string) (l : list string) :
  In x (insert_sorted y l) <-> x = y \/ In x l.
Proof.
  induction l as [|z l IH]; simpl; [intuition |].
  destruct (String.leb y z); simpl; [intuition |].
  rewrite IH. intuition.
Qed.

Lemma sorted_In (x : string) (l : list string) : In x (sorted l) <-> In x l.
Proof.
  induction l as [|y l IH]; simpl; [tauto |].
  rewrite insert_sorted_In, IH. intuition.
Qed.

Lemma position_mem (x : string) (l : list string) :
  position x l = None <-> mem x l = false.
Proof.
  induction l as [|y l IH]; simpl; [tauto |].
  rewrite (String.eqb_sym x y). destruct (String.eqb y x); simpl.
  - split; discriminate.
  - destruct (position x l); [| exact IH].
    split; [discriminate |]. intros H. apply IH in H. discriminate.
Qed.

Lemma position_None (x : string) (l : list string) :
  position x l = None <-> ~ In x l.
Proof.
  rewrite position_mem, <- mem_In. destruct (mem x l).
  - split; [discriminate | intros H; now exfalso; apply H].
  - split; [intros _ H; discriminate | reflexivity].
Qed.

Lemma nth_map_position {B : Type} (f : string -> B) (x : string)
  (l : list string) (n : nat) (d : B) :
  position x l = Some n -> nth n (map f l) d = f x.
Proof.
  revert n. induction l as [|y l IH]; intros n H; simpl in H; [discriminate |].
  destruct (String.eqb_spec y x) as [-> | _].
  - injection H as <-. reflexivity.
  - destruct (position x l) as [m |]; [| discriminate].
    injection H as <-. simpl. now apply IH.
Qed.

Lemma isna_true (x : float) : isna x = true -> x = NaN.
Proof. destruct x; simpl; congruence. Qed.

Lemma filter_none {A : Type} (f : A -> bool) (l : list A) :
  (forall x, In x l -> f x = false) -> filter f l = [].
Proof.
  induction l as [|a l IH]; intros H; simpl; [reflexivity |].
  rewrite (H a (or_introl eq_refl)). apply IH. intros x Hx. apply H. now right.
Qed.

Lemma In_string_dec (x : string) (l : list string) : In x l \/ ~ In x l.
Proof. destruct (in_dec string_dec x l); auto. Qed.

(** A group without rows has no value. *)
Lemma group_mean_without_row (cells : PivotInput) (i c : string) :
  ~ In i (map (fun x => fst (fst x)) cells) -> group_mean cells i c = NaN.
Proof.
  intros H. unfold group_mean, group_values. rewrite filter_none; [reflexivity |].
  intros x Hx. apply andb_false_iff. left. apply String.eqb_neq.
  intros Heq. apply H. apply in_map_iff. now exists x.
Qed.

Lemma group_mean_without_column (cells : PivotInput) (i c : string) :
  ~ In c (map (fun x => snd (fst x)) cells) -> group_mean cells i c = NaN.
Proof.
  intros H. unfold group_mean, group_values. rewrite filter_none; [reflexivity |].
  intros x Hx. apply andb_false_iff. right. apply String.eqb_neq.
  intros Heq. apply H. apply in_map_iff. now exists x.
Qed.

(** What [dropna] leaves out had no value. *)
Lemma dropped_has_no_value (p : string -> string -> float)
  (la lb : list string) (a b : string) :
  ~ In a (filter (fun a' => existsb (fun b' => negb (isna (p a' b'))) lb) la) ->
  In a la -> In b lb -> p a b = NaN.
Proof.
  intros Hnot Ha Hb. apply isna_true.
  destruct (isna (p a b)) eqn:E; [reflexivity |].
  exfalso. apply Hnot. apply filter_In. split; [assumption |].
  apply existsb_exists. exists b. split; [assumption |]. now rewrite E.
Qed.

(** The cell of a pivot table is the mean of its group; where the
    table has no such row or column, the group has no value. *)
Lemma table_at_pivot_table (cells : PivotInput) (i c : string) :
  table_at (pivot_table cells) i c = group_mean cells i c.
Proof.
  unfold table_at, pivot_table. simpl.
  set (keys_i := sorted (unique (map (fun x => fst (fst x)) cells))).
  set (keys_c := sorted (unique (map (fun x => snd (fst x)) cells))).
  assert (Hrow : In i keys_i \/ group_mean cells i c = NaN).
  { destruct (In_string_dec i keys_i) as [H | H]; [now left | right].
    apply group_mean_without_row. intros Hin. apply H.
    now apply sorted_In, unique_In. }
  assert (Hcol : In c keys_c \/ group_mean cells i c = NaN).
  { destruct (In_string_dec c keys_c) as [H | H]; [now left | right].
    apply group_mean_without_column. intros Hin. apply H.
    now apply sorted_In, unique_In. }
  match goal with
  | |- context [position i ?l] => destruct (position i l) as [row |] eqn:Hi
  end.
  - match goal with
    | |- context [position c ?l] => destruct (position c l) as [col |] eqn:Hc
    end.
    + rewrite (nth_map_position _ i _ row [] Hi).
      now rewrite (nth_map_position _ c _ col NaN Hc).
    + apply position_None in Hc.
      destruct Hrow as [Hrow | ->]; [| reflexivity].
      destruct Hcol as [Hcol | ->]; [| reflexivity].
      symmetry.
      exact (dropped_has_no_value (fun c' i' => group_mean cells i' c')
                                  keys_c keys_i c i Hc Hcol Hrow).
  - apply position_None in Hi.
    destruct Hrow as [Hrow | ->]; [| reflexivity].
    destruct Hcol as [Hcol | ->]; [| reflexivity].
    symmetry.
    exact (dropped_has_no_value (fun i' c' => group_mean cells i' c')
                                keys_i keys_c i c Hi Hrow Hcol).
Qed.

Lemma table_at_select_columns (t : PivotTable) (labels : list string)
  (i c : string) :
  table_at (select_columns t labels) i c =
  if mem c labels then table_at t i c else NaN.
Proof.
  unfold table_at, select_columns. simpl.
  destruct (position i (index t)) as [row |]; [| now destruct (mem c labels)].
  destruct (position c labels) as [col |] eqn:Hc.
  - assert (Hm : mem c labels = true).
    { destruct (mem c labels) eqn:E; [reflexivity |].
      apply position_mem in E. congruence. }
    rewrite Hm.
    destruct (Nat.lt_ge_cases row (List.length (values t))) as [Hlt | Hge].
    + rewrite (nth_indep _ [] (map (fun l => match position l (columns t) with
                                             | Some col0 => nth col0 [] NaN
                                             | None => NaN
                                             end) labels))
        by (now rewrite length_map).
      rewrite (map_nth (fun r => map (fun l => match position l (columns t) with
                                               | Some col0 => nth col0 r NaN
                                               | None => NaN
                                               end) labels)).
      rewrite (nth_map_position _ c _ col NaN Hc).
      reflexivity.
    + rewrite (nth_overflow (map _ (values t)) []) by (now rewrite length_map).
      rewrite (nth_overflow (values t) []) by assumption.
      destruct col; simpl; now destruct (position c (columns t)) as [[|k] |].
  - apply position_mem in Hc. now rewrite Hc.
Qed.

Lemma mem_filter (f : string -> bool) (x : string) (l : list string) :
  mem x (filter f l) = mem x l && f x.
Proof.
  induction l as [|y l IH]; simpl; [reflexivity |].
  destruct (f y) eqn:Hy; simpl; rewrite IH.
  - destruct (String.eqb_spec x y) as [-> | _]; simpl; [now rewrite Hy | reflexivity].
  - destruct (String.eqb_spec x y) as [-> | _]; simpl; [| reflexivity].
    rewrite Hy. now rewrite andb_false_r.
Qed.

(** Reordering keeps the cells of the blocks in the order and drops the
    others. *)
Lemma table_at_reorder_columns (t : PivotTable) (block_order : list string)
  (i c : string) :
  table_at (reorder_columns t block_order) i c =
  if mem c block_order then table_at t i c else NaN.
Proof.
  unfold reorder_columns. rewrite table_at_select_columns, mem_filter.
  destruct (mem c block_order); simpl; [| reflexivity].
  destruct (mem c (columns t)) eqn:E; [reflexivity |].
  apply position_mem in E. unfold table_at. rewrite E.
  now destruct (position i (index t)).
Qed.

(* ================================================================== *)
(** * Properties: region tables *)
(* ================================================================== *)

Lemma try_file_blocks (f : string) (df : list Row) (fb : list string) (tn : string) :
  try_file f = Ok (df, fb, tn) -> fb = unique (map Block df).
Proof.
  unfold try_file.
  destruct (raw_intensity_to_hemo f) as [[raw t] | e]; simpl; [| discriminate].
  destruct (get_hemoglobin_averages raw t) as [rows | e]; simpl; [| discriminate].
  destruct rows as [|r rows]; simpl; [discriminate |].
  intros H. injection H as <- <- _. reflexivity.
Qed.

Lemma fold_add_new_blocks_In (x : string) (lists : list (list string))
  (seen : list string) :
  In x (fold_left add_new_blocks lists seen) <->
  In x seen \/ exists l, In l lists /\ In x l.
Proof.
  revert seen. induction lists as [|fb lists IH]; intros seen; simpl.
  - split; [now left | intros [H | [l [[] _]]]; assumption].
  - rewrite IH, add_new_blocks_In. split.
    + intros [[H | H] | [l [Hl Hx]]].
      * now left.
      * right. exists fb. split; [now left | assumption].
      * right. exists l. split; [now right | assumption].
    + intros [H | [l [[<- | Hl] Hx]]].
      * left. now left.
      * left. now right.
      * right. now exists l.
Qed.

Lemma contributed_blocks_cover (snirf_files : list string) (df : list Row) (r : Row) :
  In df (contributed_frames snirf_files) -> In r df ->
  exists fb, In fb (contributed_blocks snirf_files) /\ In (Block r) fb.
Proof.
  unfold contributed_frames, contributed_blocks.
  induction snirf_files as [|f fs IH]; intros Hdf Hr; [destruct Hdf |].
  simpl in *. apply in_app_or in Hdf. destruct Hdf as [Hdf | Hdf].
  - destruct (try_file f) as [[[df' fb] tn] | e] eqn:Hf; [| destruct Hdf].
    destruct Hdf as [<- | []]. exists fb. split; [apply in_or_app; left; now left |].
    rewrite (try_file_blocks f df' fb tn Hf). apply unique_In.
    now apply in_map.
  - destruct (IH Hdf Hr) as [fb [Hfb Hb]]. exists fb.
    split; [apply in_or_app; now right | assumption].
Qed.

(** Every block label of the combined frame is in the global order. *)
Lemma every_block_is_ordered (snirf_files : list string) (r : Row) :
  In r (combine_frames (contributed_frames snirf_files)) ->
  In (Block r) (all_blocks_seen (run_loop snirf_files)).
Proof.
  intros H. unfold combine_frames in H. apply in_concat in H.
  destruct H as [df [Hdf Hr]].
  rewrite run_loop_blocks. apply fold_add_new_blocks_In. right.
  now apply (contributed_blocks_cover snirf_files df r).
Qed.

Lemma clean_rows_come_from_frame (channel_to_region : dict)
  (combined_df : list Row) (rr : RegionRow) :
  In rr (hbo_df_regions_clean channel_to_region combined_df) ->
  In (base rr) combined_df /\ is_HbO (base rr) = true /\
  Region rr = resolve_region channel_to_region (Channel (base rr)) /\
  Region rr <> None.
Proof.
  unfold hbo_df_regions_clean, add_region_columns. intros H.
  apply filter_In in H. destruct H as [H Hna].
  apply in_map_iff in H. destruct H as [r [<- Hr]].
  apply filter_In in Hr. destruct Hr as [Hr Hhbo]. simpl in *.
  repeat split; try assumption.
  intros Hnone. unfold resolve_region in Hna. now rewrite Hnone in Hna.
Qed.

(** The value of a region table at a trial and a block is the mean of
    the group of the region's rows. *)
Lemma region_pivot_value (clean : list RegionRow) (block_order : list string)
  (region_name trial block : string) :
  (forall rr, In rr clean -> In (Block (base rr)) block_order) ->
  table_at (region_pivot clean block_order region_name) trial block =
  group_mean
    (map (fun rr => (Trial (base rr), Block (base rr), Mean_Value (base rr)))
         (region_data clean region_name))
    trial block.
Proof.
  intros Hord. unfold region_pivot.
  rewrite table_at_reorder_columns, table_at_pivot_table.
  destruct (mem block block_order) eqn:E; [reflexivity |].
  symmetry. apply group_mean_without_column.
  rewrite map_map. simpl. intros Hin. apply in_map_iff in Hin.
  destruct Hin as [rr [<- Hrr]]. unfold region_data in Hrr.
  apply filter_In in Hrr. destruct Hrr as [Hrr _].
  apply Hord, mem_In in Hrr. congruence.
Qed.

(** The group behind a region value holds the means the specification
    names, in the order of the combined frame. *)
Lemma region_group_is_constituents (channel_to_region : dict)
  (combined_df : list Row) (region_name trial block : string) :
  group_values
    (map (fun rr => (Trial (base rr), Block (base rr), Mean_Value (base rr)))
         (region_data (hbo_df_regions_clean channel_to_region combined_df)
                      region_name))
    trial block =
  constituent_means channel_to_region combined_df region_name trial block.
Proof.
  unfold group_values, region_data, hbo_df_regions_clean, add_region_columns,
    constituent_means, resolve_region.
  induction combined_df as [|r rest IH]; [reflexivity |].
  simpl. destruct (is_HbO r); simpl; [| exact IH].
  destruct (map_region channel_to_region (extract_source_detector (Channel r)))
    as [x |]; simpl; [| exact IH].
  destruct (String.eqb x region_name); simpl; [| exact IH].
  destruct (String.eqb (Trial r) trial); simpl; [| exact IH].
  destruct (String.eqb (Block r) block); simpl; [| exact IH].
  now rewrite IH.
Qed.

Lemma region_data_of_unknown_region (clean : list RegionRow) (region_name : string) :
  ~ In region_name (sorted_regions clean) -> region_data clean region_name = [].
Proof.
  intros H. unfold region_data. apply filter_none. intros rr Hrr.
  destruct (Region rr) as [x |] eqn:Hx; [| reflexivity]. simpl.
  apply String.eqb_neq. intros ->. apply H.
  unfold sorted_regions. apply sorted_In, unique_In, in_flat_map.
  exists rr. split; [assumption |]. rewrite Hx. now left.
Qed.

Lemma lookup_table_map (F : string -> PivotTable) (regions : list string)
  (region_name : string) :
  lookup_table (map (fun name => (name, F name)) regions) region_name =
  if mem region_name regions then F region_name else empty_table.
Proof.
  induction regions as [|name regions IH]; simpl; [reflexivity |].
  rewrite (String.eqb_sym region_name name).
  destruct (String.eqb_spec name region_name) as [-> | _]; simpl;
    [reflexivity | exact IH].
Qed.

Lemma fold_fadd_numeric (qs : list Q) (a : Q) :
  fold_left fadd (map Num qs) (Num a) = Num (fold_left Qplus qs a).
Proof.
  revert a. induction qs as [|q qs IH]; intros a; simpl; [reflexivity |].
  apply IH.
Qed.

(** On numbers the mean of pandas is the arithmetic mean. *)
Lemma pd_mean_numeric (qs : list Q) : pd_mean (map Num qs) = np_mean qs.
Proof.
  unfold pd_mean.
  assert (H : filter (fun x => negb (isna x)) (map Num qs) = map Num qs).
  { induction qs as [|q qs IH]; simpl; [reflexivity | now rewrite IH]. }
  rewrite H. destruct qs as [|q qs]; [reflexivity |].
  change (map Num (q :: qs)) with (Num q :: map Num qs) at 1.
  cbv iota. rewrite fold_fadd_numeric, length_map. reflexivity.
Qed.

(** What a run with a loadable mapping leaves in [region_pivots]. *)
Lemma region_pivots_of_run (snirf_files : list string)
  (channel_map : list MappingEntry) (channel_to_region : dict) :
  load_channel_mapping channel_map = Ok channel_to_region ->
  snd (process_snirf_files snirf_files (MappingFile channel_map)) = None /\
  region_pivots (fst (process_snirf_files snirf_files (MappingFile channel_map))) =
  match contributed_frames snirf_files with
  | [] => []
  | _ :: _ =>
      let clean :=
        hbo_df_regions_clean channel_to_region
          (combine_frames (contributed_frames snirf_files)) in
      map (fun name =>
             (name, region_pivot clean (all_blocks_seen (run_loop snirf_files)) name))
          (sorted_regions clean)
  end.
Proof.
  intros Hload. unfold process_snirf_files.
  destruct snirf_files as [|f fs]; [now split |].
  rewrite run_loop_frames.
  destruct (contributed_frames (f :: fs)) as [|df dfs] eqn:Hc; [now split |].
  rewrite Hload. unfold region_analysis. simpl. now split.
Qed.

(* ================================================================== *)
(** * Properties: the source-detector pattern *)
(* ================================================================== *)

Lemma span_digits_spec (s : string) :
  s = fst (span_digits s) ++ snd (span_digits s) /\
  all_digits (fst (span_digits s)) = true.
Proof.
  induction s as [|c s [IH1 IH2]]; simpl; [now split |].
  destruct (is_digit c) eqn:Hc; [| now split].
  destruct (span_digits s) as [d r]. simpl in *.
  split; [now rewrite <- IH1 | now rewrite Hc].
Qed.

Lemma is_empty_false (s : string) : is_empty s = false <-> s <> EmptyString.
Proof. destruct s; simpl; split; congruence. Qed.

Lemma match_SD_here_sound (s g1 g2 : string) :
  match_SD_here s = Some (g1, g2) ->
  exists post,
    s = "S" ++ g1 ++ "_D" ++ g2 ++ post /\
    g1 <> EmptyString /\ all_digits g1 = true /\ g2 <> EmptyString /\ all_digits g2 = true.
Proof.
  unfold match_SD_here.
  destruct s as [|c t]; [discriminate |].
  destruct (Ascii.eqb_spec c "S") as [-> | Hne].
  2:{ destruct c as [[] [] [] [] [] [] [] []]; try discriminate.
      now exfalso; apply Hne. }
  destruct (span_digits_spec t) as [Ht Hd1].
  destruct (span_digits t) as [d1 r]. simpl in Ht, Hd1.
  destruct (is_empty d1) eqn:He1; [discriminate |].
  destruct r as [|u r]; [discriminate |].
  destruct (Ascii.eqb_spec u "_") as [-> | Hne].
  2:{ destruct u as [[] [] [] [] [] [] [] []]; try discriminate.
      now exfalso; apply Hne. }
  destruct r as [|v r2]; [discriminate |].
  destruct (Ascii.eqb_spec v "D") as [-> | Hne].
  2:{ destruct v as [[] [] [] [] [] [] [] []]; try discriminate.
      now exfalso; apply Hne. }
  destruct (span_digits_spec r2) as [Hr2 Hd2].
  destruct (span_digits r2) as [d2 post]. simpl in Hr2, Hd2.
  destruct (is_empty d2) eqn:He2; [discriminate |].
  intros H. injection H as <- <-.
  exists post. rewrite Ht, Hr2. simpl.
  repeat split; try assumption; now apply is_empty_false.
Qed.

Lemma re_search_SD_sound (s g1 g2 : string) :
  re_search_SD s = Some (g1, g2) -> has_SD_substring s.
Proof.
  induction s as [|c t IH].
  - simpl. discriminate.
  - intros H. cbn [re_search_SD] in H.
    destruct (match_SD_here (String c t)) as [[h1 h2] |] eqn:Hm.
    + injection H as <- <-.
      destruct (match_SD_here_sound _ _ _ Hm) as [post [Hs Hrest]].
      exists EmptyString, h1, h2, post. now split.
    + destruct (IH H) as [pre [d1 [d2 [post [Hs Hrest]]]]].
      exists (String c pre), d1, d2, post. split; [| assumption].
      simpl. now rewrite Hs.
Qed.

Lemma span_digits_stops (d r : string) :
  all_digits d = true ->
  match r with EmptyString => True | String c _ => is_digit c = false end ->
  span_digits (d ++ r) = (d, r).
Proof.
  intros Hd Hr. induction d as [|c d IH]; simpl in *.
  - destruct r as [|c r]; [reflexivity |]. simpl. now rewrite Hr.
  - apply andb_true_iff in Hd. destruct Hd as [Hc Hd].
    rewrite Hc, (IH Hd). reflexivity.
Qed.

Lemma span_digits_takes (d post : string) :
  all_digits d = true ->
  exists more r, span_digits (d ++ post) = (d ++ more, r).
Proof.
  intros Hd. induction d as [|c d IH]; simpl in *.
  - destruct (span_digits post) as [more r] eqn:E. exists more, r.
    destruct post; simpl in *; congruence.
  - apply andb_true_iff in Hd. destruct Hd as [Hc Hd].
    destruct (IH Hd) as [more [r Hspan]].
    exists more, r. now rewrite Hc, Hspan.
Qed.

Lemma match_SD_here_complete (d1 d2 post : string) :
  d1 <> EmptyString -> all_digits d1 = true -> d2 <> EmptyString -> all_digits d2 = true ->
  match_SD_here ("S" ++ d1 ++ "_D" ++ d2 ++ post) <> None.
Proof.
  intros Hn1 Hd1 Hn2 Hd2. unfold match_SD_here.
  change ("S" ++ d1 ++ "_D" ++ d2 ++ post)
    with (String "S" (d1 ++ String "_" (String "D" (d2 ++ post)))).
  cbv iota beta.
  change (Ascii.eqb "S" "S") with true.
  rewrite (span_digits_stops d1 (String "_" (String "D" (d2 ++ post))) Hd1)
    by reflexivity.
  apply is_empty_false in Hn1. rewrite Hn1.
  destruct (span_digits_takes d2 post Hd2) as [more [r Hspan]].
  rewrite Hspan.
  assert (He : is_empty (d2 ++ more) = false)
    by (destruct d2; [congruence | reflexivity]).
  rewrite He. discriminate.
Qed.

Lemma re_search_SD_complete (s : string) :
  has_SD_substring s -> re_search_SD s <> None.
Proof.
  intros [pre [d1 [d2 [post [-> [Hn1 [Hd1 [Hn2 Hd2]]]]]]]].
  induction pre as [|c pre IH].
  - pose proof (match_SD_here_complete d1 d2 post Hn1 Hd1 Hn2 Hd2) as H.
    change (EmptyString ++ "S" ++ d1 ++ "_D" ++ d2 ++ post)
      with (String "S" (d1 ++ "_D" ++ d2 ++ post)).
    cbn [re_search_SD].
    change (String "S" (d1 ++ "_D" ++ d2 ++ post))
      with ("S" ++ d1 ++ "_D" ++ d2 ++ post).
    destruct (match_SD_here ("S" ++ d1 ++ "_D" ++ d2 ++ post)); congruence.
  - change (String c pre ++ "S" ++ d1 ++ "_D" ++ d2 ++ post)
      with (String c (pre ++ "S" ++ d1 ++ "_D" ++ d2 ++ post)).
    cbn [re_search_SD].
    destruct (match_SD_here (String c (pre ++ "S" ++ d1 ++ "_D" ++ d2 ++ post)));
      [discriminate | exact IH].
Qed.

(** The pattern search of line 161 finds a match exactly in the labels
    that contain a substring [S<number>_D<number>]. *)
Lemma extract_source_detector_None (label : string) :
  extract_source_detector label = None <-> ~ has_SD_substring label.
Proof.
  unfold extract_source_detector. split.
  - intros H Hhas. apply re_search_SD_complete in Hhas.
    destruct (re_search_SD label) as [[g1 g2] |]; [discriminate | congruence].
  - intros H. destruct (re_search_SD label) as [[g1 g2] |] eqn:E; [| reflexivity].
    exfalso. apply H. now apply (re_search_SD_sound label g1 g2).
Qed.

(* ================================================================== *)
(** * Properties: unmapped channels *)
(* ================================================================== *)

Lemma detailed_group_is_means (combined_df : list Row) (i c : string) :
  group_values
    (map (fun r => (Row_Label r, Block r, Mean_Value r))
         (filter is_HbO combined_df))
    i c =
  detailed_means combined_df i c.
Proof.
  unfold group_values, detailed_means.
  induction combined_df as [|r rest IH]; [reflexivity |].
  simpl. destruct (is_HbO r); simpl; [| exact IH].
  destruct (String.eqb (Row_Label r) i); simpl; [| exact IH].
  destruct (String.eqb (Block r) c); simpl; [| exact IH].
  now rewrite IH.
Qed.

(** The cell of the detailed table is the mean of the oxygenated
    measurements with its row label and block. *)
Lemma detailed_pivot_value (combined_df : list Row) (block_order : list string)
  (i c : string) :
  (forall r, In r combined_df -> In (Block r) block_order) ->
  table_at (detailed_pivot combined_df block_order) i c =
  pd_mean (detailed_means combined_df i c).
Proof.
  intros Hord. unfold detailed_pivot.
  rewrite table_at_reorder_columns, table_at_pivot_table.
  rewrite <- detailed_group_is_means.
  destruct (mem c block_order) eqn:E; [reflexivity |].
  symmetry. apply group_mean_without_column.
  rewrite map_map. simpl. intros Hin. apply in_map_iff in Hin.
  destruct Hin as [r [<- Hr]]. apply filter_In in Hr. destruct Hr as [Hr _].
  apply Hord, mem_In in Hr. congruence.
Qed.

(** A run that processes a file writes the detailed table, whatever
    the mapping argument is. *)
Lemma detailed_table_is_written (snirf_files : list string) (mapping : MappingArg) :
  contributed_frames snirf_files <> [] ->
  In (detailed_csv,
      detailed_pivot (combine_frames (contributed_frames snirf_files))
                     (all_blocks_seen (run_loop snirf_files)))
     (written (fst (process_snirf_files snirf_files mapping))).
Proof.
  intros Hne. unfold process_snirf_files.
  destruct snirf_files as [|f fs]; [now exfalso; apply Hne |].
  rewrite run_loop_frames.
  destruct (contributed_frames (f :: fs)) as [|df dfs] eqn:Hc; [congruence |].
  destruct mapping as [| path | channel_map]; simpl; try (now left).
  destruct (load_channel_mapping channel_map) as [m | e]; simpl; [| now left].
  unfold region_analysis. simpl. now left.
Qed.

(* ================================================================== *)
(** * Properties: trial identifiers *)
(* ================================================================== *)

Lemma contains_char_cons (a c : ascii) (t : string) :
  contains (String a EmptyString) (String c t) =
  Ascii.eqb a c || contains (String a EmptyString) t.
Proof. cbn [contains startswith]. now rewrite andb_true_r. Qed.

Lemma append_char_cons (acc : string) (c : ascii) (t : string) :
  (acc ++ String c EmptyString) ++ t = acc ++ String c t.
Proof. induction acc as [|a acc IH]; simpl; [reflexivity | now rewrite IH]. Qed.

Lemma no_slash_basename (acc p : string) :
  contains "/" p = false -> basename_acc acc p = acc ++ p.
Proof.
  revert acc. induction p as [|c t IH]; intros acc H.
  - simpl. induction acc as [|a acc IHa]; simpl; [reflexivity | now rewrite <- IHa].
  - rewrite contains_char_cons in H.
    apply orb_false_iff in H. destruct H as [Hc Ht].
    rewrite Ascii.eqb_sym in Hc. cbn [basename_acc]. rewrite Hc, (IH _ Ht).
    apply append_char_cons.
Qed.

Lemma endswith_append (needle s : string) : endswith needle (s ++ needle) = true.
Proof.
  induction s as [|c t IH]; simpl.
  - destruct needle; simpl; [reflexivity |].
    now rewrite Ascii.eqb_refl, String.eqb_refl.
  - rewrite IH. apply orb_true_r.
Qed.

Lemma substring_prefix (a b : string) :
  String.substring 0 (String.length (a ++ b) - String.length b) (a ++ b) = a.
Proof.
  assert (Hlen : forall x y, String.length (x ++ y) =
                             (String.length x + String.length y)%nat).
  { intros x y. induction x as [|c x IHx]; simpl; [reflexivity | now rewrite IHx]. }
  rewrite Hlen, Nat.add_sub.
  induction a as [|c a IH]; simpl.
  - now destruct b.
  - now rewrite IH.
Qed.

Lemma strip_extension_append (stem : string) :
  strip_extension (stem ++ ".snirf") = stem.
Proof.
  unfold strip_extension. rewrite endswith_append.
  exact (substring_prefix stem ".snirf").
Qed.

(** An occurrence of [.snirf] cannot begin in the stem and end in the
    extension. *)
Lemma no_straddling_occurrence (s : string) :
  s <> EmptyString -> startswith ".snirf" s = false ->
  startswith ".snirf" (s ++ ".snirf") = false.
Proof.
  intros Hne.
  destruct s as [|c1 s]; [congruence |]. clear Hne.
  cbn [startswith String.append].
  destruct (Ascii.eqb_spec "." c1) as [<- | _]; [| reflexivity].
  destruct s as [|c2 s]; [reflexivity |]. cbn [startswith String.append andb].
  destruct (Ascii.eqb_spec "s" c2) as [<- | _]; [| reflexivity].
  destruct s as [|c3 s]; [reflexivity |]. cbn [startswith String.append andb].
  destruct (Ascii.eqb_spec "n" c3) as [<- | _]; [| reflexivity].
  destruct s as [|c4 s]; [reflexivity |]. cbn [startswith String.append andb].
  destruct (Ascii.eqb_spec "i" c4) as [<- | _]; [| reflexivity].
  destruct s as [|c5 s]; [reflexivity |]. cbn [startswith String.append andb].
  destruct (Ascii.eqb_spec "r" c5) as [<- | _]; [| reflexivity].
  destruct s as [|c6 s]; [reflexivity |]. cbn [startswith String.append andb].
  destruct (Ascii.eqb_spec "f" c6) as [<- | _]; [discriminate | reflexivity].
Qed.

Lemma replace_removes_extension (stem : string) :
  contains ".snirf" stem = false ->
  replace ".snirf" EmptyString (stem ++ ".snirf") = stem.
Proof.
  unfold replace. induction stem as [|c t IH]; intros H.
  - reflexivity.
  - change (contains ".snirf" (String c t))
      with (startswith ".snirf" (String c t) || contains ".snirf" t) in H.
    apply orb_false_iff in H. destruct H as [Hs Ht].
    pose proof (no_straddling_occurrence (String c t) ltac:(discriminate) Hs) as Hn.
    change (String c t ++ ".snirf") with (String c (t ++ ".snirf")) in *.
    cbn [replace_from]. rewrite Hn, (IH Ht). reflexivity.
Qed.

(** Where the only occurrence of [.snirf] in a file name is its
    extension, the code computes the identifier the specification
    describes. *)
Lemma extract_trial_name_on_plain_names (stem : string) :
  contains "/" stem = false ->
  contains ".snirf" stem = false ->
  extract_trial_name (stem ++ ".snirf") = trial_identifier_spec (stem ++ ".snirf").
Proof.
  intros Hslash Hext.
  assert (Hb : basename (stem ++ ".snirf") = stem ++ ".snirf").
  { unfold basename. rewrite no_slash_basename; [reflexivity |].
    clear Hext. induction stem as [|c t IH]; [reflexivity |].
    rewrite contains_char_cons in Hslash.
    apply orb_false_iff in Hslash. destruct Hslash as [Hc Ht].
    change (String c t ++ ".snirf") with (String c (t ++ ".snirf")).
    now rewrite contains_char_cons, Hc, (IH Ht). }
  unfold extract_trial_name, trial_identifier_spec.
  now rewrite Hb, strip_extension_append, replace_removes_extension.
Qed.

(** C9: on the file name [sub01.snirf.snirf], which has fewer than
    three underscore-separated parts, the code returns [sub01], not the
    name with its extension stripped, [sub01.snirf]: [str.replace]
    removes every occurrence of [.snirf].  The function is total: it
    returns a string for every name. *)
Theorem extract_trial_name_strips_inner_occurrences :
  extract_trial_name "sub01.snirf.snirf" = "sub01" /\
  trial_identifier_spec "sub01.snirf.snirf" = "sub01.snirf" /\
  extract_trial_name "sub01.snirf.snirf" <> trial_identifier_spec "sub01.snirf.snirf" /\
  extract_trial_name "20240101_ctrl.snirf_P01.snirf" = "ctrl_P01" /\
  trial_identifier_spec "20240101_ctrl.snirf_P01.snirf" = "ctrl.snirf_P01".
Proof. repeat split; vm_compute; try reflexivity; discriminate. Qed.

(* ================================================================== *)
(** * Further properties: the channel mapping *)
(* ================================================================== *)

Lemma dict_get_set_same (d : dict) (k v : string) :
  dict_get (dict_set d k v) k = Some v.
Proof.
  induction d as [|[k' v'] d IH]; simpl.
  - now rewrite String.eqb_refl.
  - destruct (String.eqb k' k) eqn:E; simpl; now rewrite E.
Qed.

Lemma dict_get_set_other (d : dict) (k k' v : string) :
  k <> k' -> dict_get (dict_set d k v) k' = dict_get d k'.
Proof.
  intros Hne. induction d as [|[k0 v0] d IH]; simpl.
  - destruct (String.eqb_spec k k'); [contradiction | reflexivity].
  - destruct (String.eqb_spec k0 k) as [-> | Hk]; simpl.
    + destruct (String.eqb_spec k k'); [contradiction | reflexivity].
    + destruct (String.eqb k0 k'); [reflexivity | exact IH].
Qed.

Lemma dict_set_key_In (d : dict) (k v x : string) :
  In x (map fst (dict_set d k v)) -> x = k \/ In x (map fst d).
Proof.
  induction d as [|[k0 v0] d IH]; simpl.
  - intros [<- | []]. now left.
  - destruct (String.eqb_spec k0 k) as [-> | Hne]; simpl.
    + intros H. now right.
    + intros [<- | H]; [right; now left |].
      destruct (IH H) as [-> | Hin]; [now left | right; now right].
Qed.

Lemma dict_set_NoDup (d : dict) (k v : string) :
  NoDup (map fst d) -> NoDup (map fst (dict_set d k v)).
Proof.
  induction d as [|[k0 v0] d IH]; simpl; intros H.
  - constructor; [intros [] | constructor].
  - destruct (String.eqb_spec k0 k) as [-> | Hne]; simpl; [exact H |].
    inversion H as [|? ? Hk0 Hd]; subst. constructor; [| now apply IH].
    intros Hin. apply dict_set_key_In in Hin.
    destruct Hin as [-> | Hin]; [now apply Hne | now apply Hk0].
Qed.

Lemma load_entries_lookup (channel_map : list MappingEntry) (d m : dict)
  (key : string) :
  load_entries d channel_map = Ok m ->
  dict_get m key =
  fold_left
    (fun found entry =>
       match entry_key entry with
       | Some k => if String.eqb k key then region entry else found
       | None => found
       end)
    channel_map (dict_get d key).
Proof.
  revert d. induction channel_map as [|e cm IH]; intros d H; simpl in *.
  - now injection H as <-.
  - unfold entry_key.
    destruct (source e) as [src |]; simpl in H; [| discriminate].
    destruct (detector e) as [det |]; simpl in H; [| discriminate].
    destruct (region e) as [reg |]; simpl in H; [| discriminate].
    rewrite (IH _ H). f_equal.
    destruct (String.eqb_spec
                ("S" ++ format_scalar src ++ "_D" ++ format_scalar det) key)
      as [<- | Hne].
    + apply dict_get_set_same.
    + now apply dict_get_set_other.
Qed.

Lemma load_entries_NoDup (channel_map : list MappingEntry) (d m : dict) :
  NoDup (map fst d) -> load_entries d channel_map = Ok m -> NoDup (map fst m).
Proof.
  revert d. induction channel_map as [|e cm IH]; intros d Hd H; simpl in *.
  - now injection H as <-.
  - destruct (source e) as [src |]; simpl in H; [| discriminate].
    destruct (detector e) as [det |]; simpl in H; [| discriminate].
    destruct (region e) as [reg |]; simpl in H; [| discriminate].
    apply (IH _ (dict_set_NoDup d _ reg Hd) H).
Qed.

Lemma load_entries_complete (channel_map : list MappingEntry) (d : dict) :
  (forall e, In e channel_map -> first_missing_key e = None) ->
  exists m, load_entries d channel_map = Ok m.
Proof.
  revert d. induction channel_map as [|e cm IH]; intros d H; simpl.
  - now exists d.
  - pose proof (H e (or_introl eq_refl)) as He. unfold first_missing_key in He.
    destruct (source e) as [src |]; [| discriminate].
    destruct (detector e) as [det |]; [| discriminate].
    destruct (region e) as [reg |]; [| discriminate]. simpl.
    apply IH. intros e' He'. apply H. now right.
Qed.

(** X1: a mapping file whose entries all have their three keys loads
    into a dictionary with one entry per distinct key, and looking a
    key up gives the region of the last entry of the file with that
    key: on duplicate keys the last entry wins. *)
Theorem load_channel_mapping_last_entry_wins (channel_map : list MappingEntry) :
  (forall e, In e channel_map -> first_missing_key e = None) ->
  exists channel_to_region,
    load_channel_mapping channel_map = Ok channel_to_region /\
    NoDup (map fst channel_to_region) /\
    forall key, dict_get channel_to_region key = last_region channel_map key.
Proof.
  intros H. destruct (load_entries_complete channel_map [] H) as [m Hm].
  exists m. split; [exact Hm |]. split.
  - apply (load_entries_NoDup channel_map [] m); [constructor | exact Hm].
  - intros key. apply (load_entries_lookup channel_map [] m key Hm).
Qed.

(** X2: loading stops at the first entry that lacks a key and raises
    the [KeyError] of the first key it lacks, in the order source,
    detector, region; the entries after it are not looked at. *)
Theorem load_channel_mapping_first_missing_key
  (before after : list MappingEntry) (bad : MappingEntry) (key : string) :
  (forall e, In e before -> first_missing_key e = None) ->
  first_missing_key bad = Some key ->
  load_channel_mapping (before ++ bad :: after) = Err (KeyError key).
Proof.
  unfold load_channel_mapping. generalize ([] : dict) as d.
  induction before as [|e cm IH]; intros d H Hbad; simpl.
  - unfold first_missing_key in Hbad.
    destruct (source bad) as [src |]; simpl; [| now injection Hbad as <-].
    destruct (detector bad) as [det |]; simpl; [| now injection Hbad as <-].
    destruct (region bad) as [reg |]; simpl; [discriminate | now injection Hbad as <-].
  - pose proof (H e (or_introl eq_refl)) as He. unfold first_missing_key in He.
    destruct (source e) as [src |]; [| discriminate].
    destruct (detector e) as [det |]; [| discriminate].
    destruct (region e) as [reg |]; [| discriminate]. simpl.
    apply IH; [| assumption]. intros e' He'. apply H. now right.
Qed.

(** X3: when at least one file is processed and the mapping file has
    an entry without one of its keys, the run raises that [KeyError]
    after it has written the detailed table and before any region
    table: [main] reports a fatal error with exit status 1 and the GUI
    a failure, and the detailed CSV is the only file written. *)
Theorem malformed_mapping_raises_after_detailed_table
  (snirf_files : list string) (channel_map : list MappingEntry) (e : exn) :
  contributed_frames snirf_files <> [] ->
  load_channel_mapping channel_map = Err e ->
  snd (process_snirf_files snirf_files (MappingFile channel_map)) = Some e /\
  written (fst (process_snirf_files snirf_files (MappingFile channel_map))) =
    [(detailed_csv,
      detailed_pivot (combine_frames (contributed_frames snirf_files))
                     (all_blocks_seen (run_loop snirf_files)))] /\
  region_pivots (fst (process_snirf_files snirf_files (MappingFile channel_map)))
    = [] /\
  snd (main snirf_files (MappingFile channel_map)) = 1%Z /\
  In (FatalError e) (fst (main snirf_files (MappingFile channel_map))) /\
  process_files_thread snirf_files (MappingFile channel_map) = ShowErrorFailed e.
Proof.
  intros Hne Hload. unfold process_files_thread, main, process_snirf_files.
  destruct snirf_files as [|f fs]; [now exfalso; apply Hne |].
  rewrite run_loop_frames.
  destruct (contributed_frames (f :: fs)) as [|df dfs] eqn:Hc; [congruence |].
  rewrite Hload. simpl. repeat split.
  apply in_or_app. right. now left.
Qed.

(* ================================================================== *)
(** * Further properties: the source-detector key *)
(* ================================================================== *)

Lemma span_digits_rest (s : string) :
  no_leading_digit (snd (span_digits s)).
Proof.
  induction s as [|c s IH]; simpl; [exact I |].
  destruct (is_digit c) eqn:Hc; [| simpl; exact Hc].
  now destruct (span_digits s).
Qed.

Lemma match_SD_here_groups (s g1 g2 : string) :
  match_SD_here s = Some (g1, g2) ->
  exists post,
    s = "S" ++ g1 ++ "_D" ++ g2 ++ post /\
    g1 <> EmptyString /\ all_digits g1 = true /\
    g2 <> EmptyString /\ all_digits g2 = true /\
    no_leading_digit post.
Proof.
  intros H. destruct (match_SD_here_sound s g1 g2 H)
    as [post [Hs [Hn1 [Hd1 [Hn2 Hd2]]]]].
  exists post. repeat split; try assumption.
  (* the second group is a whole run of digits *)
  subst s. unfold match_SD_here in H.
  change ("S" ++ g1 ++ "_D" ++ g2 ++ post)
    with (String "S" (g1 ++ String "_" (String "D" (g2 ++ post)))) in H.
  cbv iota beta in H.
  rewrite (span_digits_stops g1 (String "_" (String "D" (g2 ++ post))) Hd1)
    in H by reflexivity.
  apply is_empty_false in Hn1. rewrite Hn1 in H.
  pose proof (span_digits_spec (g2 ++ post)) as [Happ _].
  pose proof (span_digits_rest (g2 ++ post)) as Hrest.
  destruct (span_digits (g2 ++ post)) as [d r]. simpl in *.
  destruct (is_empty d); [discriminate |].
  injection H as Hd. subst d.
  assert (Hr : r = post).
  { clear - Happ. induction g2 as [|c g2 IH]; simpl in Happ; [now symmetry |].
    injection Happ as Happ. now apply IH. }
  now rewrite <- Hr.
Qed.

Lemma re_search_SD_groups (s g1 g2 : string) :
  re_search_SD s = Some (g1, g2) ->
  exists pre post,
    s = pre ++ "S" ++ g1 ++ "_D" ++ g2 ++ post /\
    g1 <> EmptyString /\ all_digits g1 = true /\
    g2 <> EmptyString /\ all_digits g2 = true /\
    no_leading_digit post.
Proof.
  induction s as [|c t IH].
  - simpl. discriminate.
  - intros H. cbn [re_search_SD] in H.
    destruct (match_SD_here (String c t)) as [[h1 h2] |] eqn:Hm.
    + injection H as <- <-.
      destruct (match_SD_here_groups _ _ _ Hm) as [post [Hs Hrest]].
      exists EmptyString, post. now split.
    + destruct (IH H) as [pre [post [Hs Hrest]]].
      exists (String c pre), post. split; [| assumption].
      simpl. now rewrite Hs.
Qed.

Lemma match_SD_here_exact (d1 d2 suffix : string) :
  d1 <> EmptyString -> all_digits d1 = true ->
  d2 <> EmptyString -> all_digits d2 = true ->
  no_leading_digit suffix ->
  match_SD_here ("S" ++ d1 ++ "_D" ++ d2 ++ suffix) = Some (d1, d2).
Proof.
  intros Hn1 Hd1 Hn2 Hd2 Hsuf. unfold match_SD_here.
  change ("S" ++ d1 ++ "_D" ++ d2 ++ suffix)
    with (String "S" (d1 ++ String "_" (String "D" (d2 ++ suffix)))).
  cbv iota beta.
  rewrite (span_digits_stops d1 (String "_" (String "D" (d2 ++ suffix))) Hd1)
    by reflexivity.
  apply is_empty_false in Hn1. rewrite Hn1.
  rewrite (span_digits_stops d2 suffix Hd2 Hsuf).
  apply is_empty_false in Hn2. now rewrite Hn2.
Qed.

Lemma extract_source_detector_exact (d1 d2 suffix : string) :
  d1 <> EmptyString -> all_digits d1 = true ->
  d2 <> EmptyString -> all_digits d2 = true ->
  no_leading_digit suffix ->
  extract_source_detector ("S" ++ d1 ++ "_D" ++ d2 ++ suffix) =
  Some ("S" ++ d1 ++ "_D" ++ d2).
Proof.
  intros Hn1 Hd1 Hn2 Hd2 Hsuf. unfold extract_source_detector.
  change ("S" ++ d1 ++ "_D" ++ d2 ++ suffix)
    with (String "S" (d1 ++ "_D" ++ d2 ++ suffix)).
  cbn [re_search_SD].
  change (String "S" (d1 ++ "_D" ++ d2 ++ suffix))
    with ("S" ++ d1 ++ "_D" ++ d2 ++ suffix).
  now rewrite (match_SD_here_exact d1 d2 suffix).
Qed.

Lemma append_empty_r (s : string) : s ++ EmptyString = s.
Proof. induction s as [|c s IH]; simpl; [reflexivity | now rewrite IH]. Qed.

Lemma append_assoc (a b c : string) : (a ++ b) ++ c = a ++ b ++ c.
Proof. induction a as [|x a IH]; simpl; [reflexivity | now rewrite IH]. Qed.

(** X4: the key [extract_source_detector] returns is a substring of
    the channel name of the shape [S<digits>_D<digits>]; its second
    number is not cut short (what follows it in the name is not a
    digit); and the key is its own key. *)
Theorem extract_source_detector_key (channel_name key : string) :
  extract_source_detector channel_name = Some key ->
  exists pre d1 d2 post,
    key = "S" ++ d1 ++ "_D" ++ d2 /\
    channel_name = pre ++ key ++ post /\
    d1 <> EmptyString /\ all_digits d1 = true /\
    d2 <> EmptyString /\ all_digits d2 = true /\
    no_leading_digit post /\
    contains key channel_name = true /\
    extract_source_detector key = Some key.
Proof.
  unfold extract_source_detector.
  destruct (re_search_SD channel_name) as [[g1 g2] |] eqn:E; [| discriminate].
  intros H. injection H as <-.
  destruct (re_search_SD_groups channel_name g1 g2 E)
    as [pre [post [Hs [Hn1 [Hd1 [Hn2 [Hd2 Hpost]]]]]]].
  assert (Hcat : channel_name = pre ++ ("S" ++ g1 ++ "_D" ++ g2) ++ post).
  { rewrite Hs. f_equal. simpl. f_equal. now rewrite append_assoc. }
  exists pre, g1, g2, post. repeat split; try assumption.
  - apply contains_spec. now exists pre, post.
  - pose proof (extract_source_detector_exact g1 g2 EmptyString
                  Hn1 Hd1 Hn2 Hd2 I) as Hx.
    unfold extract_source_detector in Hx.
    now rewrite !append_empty_r in Hx.
Qed.

Lemma string_of_uint_digits (u : Decimal.uint) :
  all_digits (NilEmpty.string_of_uint u) = true.
Proof. induction u; simpl; auto. Qed.

Lemma str_of_Z_digits (z : Z) :
  (0 <= z)%Z ->
  all_digits (str_of_Z z) = true /\ str_of_Z z <> EmptyString.
Proof.
  intros Hz. unfold str_of_Z.
  destruct z as [| p | p]; [split; [reflexivity | discriminate] | | lia].
  unfold Z.to_int, NilZero.string_of_int, NilZero.string_of_uint.
  pose proof (string_of_uint_digits (Pos.to_uint p)) as Hd.
  destruct (Pos.to_uint p); simpl in *;
    (split; [first [reflexivity | exact Hd] | discriminate]).
Qed.

(** X5: under a loaded mapping, a channel named
    [S<s>_D<d>] followed by anything that does not start with a digit
    (as in ["S3_D7 hbo"]) resolves to the region of the last mapping
    entry with source index [s] and detector index [d], for
    non-negative indices; without such an entry it is unmapped. *)
Theorem mapped_channel_resolves_to_last_entry
  (channel_map : list MappingEntry) (channel_to_region : dict)
  (s d : Z) (suffix : string) :
  load_channel_mapping channel_map = Ok channel_to_region ->
  (0 <= s)%Z -> (0 <= d)%Z ->
  no_leading_digit suffix ->
  resolve_region channel_to_region
    ("S" ++ str_of_Z s ++ "_D" ++ str_of_Z d ++ suffix) =
  last_region channel_map ("S" ++ str_of_Z s ++ "_D" ++ str_of_Z d).
Proof.
  intros Hload Hs Hd Hsuf.
  destruct (str_of_Z_digits s Hs) as [Hs1 Hs2].
  destruct (str_of_Z_digits d Hd) as [Hd1 Hd2].
  unfold resolve_region.
  rewrite (extract_source_detector_exact _ _ suffix Hs2 Hs1 Hd2 Hd1 Hsuf).
  simpl map_region.
  apply (load_entries_lookup channel_map [] channel_to_region _ Hload).
Qed.

(* ================================================================== *)
(** * Further properties: the per-file frame *)
(* ================================================================== *)

Lemma label_or_default_nonempty (event_label : option string) (event_idx : nat) :
  label_or_default event_label event_idx <> EmptyString.
Proof.
  unfold label_or_default.
  destruct event_label as [[|c l] |]; simpl; discriminate.
Qed.

Lemma windows_from_labels ids idx evs n :
  Forall (fun w => block_label w <> EmptyString) (windows_from ids idx evs n).
Proof.
  revert idx. induction evs as [|ev evs IH]; intros idx; simpl; constructor.
  - apply label_or_default_nonempty.
  - apply IH.
Qed.

(** X6: for a series with events, a row per channel name and at least
    one channel, the frame has exactly one row for every pair of a
    block and a channel, blocks in event order and channels in channel
    order within each block; every row carries the trial name and the
    classification of its own channel; no block label is empty. *)
Theorem rows_are_blocks_times_channels (raw : RawHemo) (trial_name : string) :
  List.length (data raw) = List.length (ch_names raw) ->
  ch_names raw <> [] ->
  events raw <> [] ->
  exists ws rows,
    block_windows raw = Ok ws /\
    get_hemoglobin_averages raw trial_name = Ok rows /\
    List.length ws = List.length (events raw) /\
    map (fun r => (Block r, Channel r)) rows =
      list_prod (map block_label ws) (ch_names raw) /\
    List.length rows = (List.length (events raw) * List.length (ch_names raw))%nat /\
    Forall (fun r => Trial r = trial_name /\
                     HbType r = hb_type_of (Channel r) /\
                     Block r <> EmptyString) rows.
Proof.
  intros Hlen Hch Hev.
  destruct (data_nonempty_n_samples raw Hlen Hch) as [n Hn].
  pose proof (block_windows_closed_form raw n Hn) as Hws.
  pose proof (averages_by_window raw trial_name _ Hev Hws Hlen) as Hrows.
  pose proof (windows_from_labels (event_ids raw) 0 (events raw) n) as Hlab.
  pose proof (windows_from_length (event_ids raw) 0 (events raw) n) as Hwl.
  revert Hws Hrows Hlab Hwl.
  generalize (windows_from (event_ids raw) 0 (events raw) n) as ws.
  intros ws Hws Hrows Hlab Hwl.
  exists ws. eexists. split; [exact Hws |]. split; [exact Hrows |].
  split; [exact Hwl |].
  assert (Hpairs :
    map (fun r => (Block r, Channel r))
        (List.concat
           (map (fun w =>
                   map (fun q => window_row raw trial_name w (fst q) (snd q))
                       (combine (ch_names raw) (data raw))) ws)) =
    list_prod (map block_label ws) (ch_names raw)).
  { clear Hws Hrows Hlab Hwl. induction ws as [|w ws IH]; [reflexivity |].
    simpl. rewrite map_app, IH. f_equal.
    rewrite map_map. simpl.
    rewrite <- (map_fst_combine (ch_names raw) (data raw) Hlen) at 2.
    now rewrite map_map. }
  split; [exact Hpairs |]. split.
  - rewrite <- Hwl, <- (length_map block_label ws), <- length_prod, <- Hpairs.
    now rewrite length_map.
  - apply Forall_forall. intros r Hr. apply in_concat in Hr.
    destruct Hr as [rows_w [Hin Hr]]. apply in_map_iff in Hin.
    destruct Hin as [w [<- Hw]]. apply in_map_iff in Hr.
    destruct Hr as [q [<- _]]. simpl. repeat split.
    rewrite Forall_forall in Hlab. now apply Hlab.
Qed.

Lemma py_slice_in_range {A : Type} (l : list A) (a b : Z) :
  (0 <= a <= b)%Z -> (b <= Z.of_nat (List.length l))%Z ->
  py_slice l a b = firstn (Z.to_nat (b - a)) (skipn (Z.to_nat a) l) /\
  List.length (py_slice l a b) = Z.to_nat (b - a).
Proof.
  intros Hab Hb. unfold py_slice, slice_index.
  destruct (Z.ltb_spec a 0) as [Ha | _]; [lia |].
  destruct (Z.ltb_spec b 0) as [Hb0 | _]; [lia |].
  rewrite !Z.min_l by lia. split; [reflexivity |].
  rewrite length_firstn, length_skipn. lia.
Qed.

Lemma windows_from_slices {A : Type} ids idx ev0 rest (n : Z) (row : list A) :
  Z.of_nat (List.length row) = n ->
  (0 <= event_sample_of ev0)%Z ->
  ordered_by_sample (ev0 :: rest) ->
  Forall (fun ev => (event_sample_of ev <= n)%Z) (ev0 :: rest) ->
  List.concat
    (map (fun w => py_slice row (block_start w) (block_end w))
         (windows_from ids idx (ev0 :: rest) n)) =
  skipn (Z.to_nat (event_sample_of ev0)) row /\
  Forall (fun w => List.length (py_slice row (block_start w) (block_end w)) =
                   Z.to_nat (block_end w - block_start w))
         (windows_from ids idx (ev0 :: rest) n).
Proof.
  intros Hrow. revert idx ev0.
  induction rest as [|ev1 rest IH]; intros idx ev0 H0 Hord Hle.
  - inversion Hle as [|? ? Hs _]; subst. simpl.
    destruct (py_slice_in_range row (event_sample_of ev0)
                (Z.of_nat (List.length row))) as [Heq Hl]; [lia | lia |].
    split; [| constructor; [exact Hl | constructor]].
    rewrite app_nil_r, Heq. apply firstn_all2. rewrite length_skipn. lia.
  - destruct Hord as [H01 Hord]. inversion Hle as [|? ? Hs Hle']; subst.
    assert (H1 : (event_sample_of ev1 <= Z.of_nat (List.length row))%Z)
      by (now inversion Hle').
    assert (H1' : (0 <= event_sample_of ev1)%Z) by lia.
    destruct (IH (S idx) ev1 H1' Hord Hle') as [IHc IHf].
    change (windows_from ids idx (ev0 :: ev1 :: rest) (Z.of_nat (List.length row)))
      with ({| block_start := event_sample_of ev0;
               block_end := event_sample_of ev1;
               block_label :=
                 label_or_default (find_event_label ids (snd ev0)) idx |}
            :: windows_from ids (S idx) (ev1 :: rest) (Z.of_nat (List.length row))).
    destruct (py_slice_in_range row (event_sample_of ev0) (event_sample_of ev1))
      as [Heq Hl]; [lia | lia |].
    split; [| constructor; [exact Hl | exact IHf]].
    cbn [map List.concat block_start block_end]. rewrite IHc, Heq.
    replace (Z.to_nat (event_sample_of ev1))
      with (Z.to_nat (event_sample_of ev1 - event_sample_of ev0) +
            Z.to_nat (event_sample_of ev0))%nat by lia.
    rewrite <- skipn_skipn. apply firstn_skipn.
Qed.

(** X7: for annotations ordered by sample index that lie within the
    recording and do not start before sample 0, the sample slices the
    blocks take from a channel, one after the other, are exactly the
    channel's samples from the first annotation on: no sample is used
    twice or left out, and every block holds [block_end - block_start]
    samples. *)
Theorem block_slices_partition_the_samples
  (raw : RawHemo) (n : Z) (ev0 : Z * Z * Z) (rest : list (Z * Z * Z))
  (row : list Q) :
  events raw = ev0 :: rest ->
  n_samples (data raw) = Ok n ->
  Z.of_nat (List.length row) = n ->
  (0 <= event_sample_of ev0)%Z ->
  ordered_by_sample (events raw) ->
  Forall (fun ev => (event_sample_of ev <= n)%Z) (events raw) ->
  exists ws,
    block_windows raw = Ok ws /\
    List.concat (map (fun w => py_slice row (block_start w) (block_end w)) ws) =
      skipn (Z.to_nat (event_sample_of ev0)) row /\
    Forall (fun w => List.length (py_slice row (block_start w) (block_end w)) =
                     Z.to_nat (block_end w - block_start w)) ws.
Proof.
  intros Hev Hn Hrow H0 Hord Hle.
  exists (windows_from (event_ids raw) 0 (events raw) n).
  split; [now apply block_windows_closed_form |].
  rewrite Hev in *. now apply windows_from_slices.
Qed.

(* ================================================================== *)
(** * Further properties: the loop over the files *)
(* ================================================================== *)

Lemma mem_unique (x : string) (l : list string) : mem x (unique l) = mem x l.
Proof.
  destruct (mem x l) eqn:E.
  - apply (proj2 (mem_In _ _)), (proj2 (unique_In _ _)), (proj1 (mem_In _ _)). exact E.
  - destruct (mem x (unique l)) eqn:E'; [| reflexivity].
    apply (proj1 (mem_In _ _)), (proj1 (unique_In _ _)), (proj2 (mem_In _ _)) in E'.
    congruence.
Qed.

Lemma unique_app (a b : list string) :
  unique (a ++ b) =
  (unique a ++ filter (fun x => negb (mem x a)) (unique b))%list.
Proof.
  induction a as [|x a IH]; simpl.
  - now rewrite filter_true.
  - rewrite IH, filter_app, filter_filter. do 2 f_equal.
    apply filter_ext. intros y.
    rewrite negb_orb. apply andb_comm.
Qed.

Lemma unique_NoDup_id (l : list string) : NoDup l -> unique l = l.
Proof.
  induction 1 as [|x l Hx Hnd IH]; simpl; [reflexivity |].
  rewrite IH. f_equal. apply forallb_filter_id, forallb_forall.
  intros y Hy. apply negb_true_iff, String.eqb_neq. now intros ->.
Qed.

Lemma contributed_blocks_of_frames (snirf_files : list string) :
  contributed_blocks snirf_files =
  map (fun df => unique (map Block df)) (contributed_frames snirf_files).
Proof.
  unfold contributed_blocks, contributed_frames.
  induction snirf_files as [|f fs IH]; [reflexivity |]. simpl.
  rewrite map_app, IH. f_equal.
  destruct (try_file f) as [[[df fb] tn] | e] eqn:Hf; [| reflexivity].
  simpl. now rewrite (try_file_blocks f df fb tn Hf).
Qed.

Lemma fold_add_new_blocks_unique (frames : list (list Row)) (seen : list string) :
  fold_left add_new_blocks
            (map (fun df => unique (map Block df)) frames) (unique seen) =
  unique (seen ++ map Block (List.concat frames)).
Proof.
  revert seen. induction frames as [|df frames IH]; intros seen; simpl.
  - now rewrite app_nil_r.
  - rewrite map_app, app_assoc, <- IH. f_equal.
    rewrite add_new_blocks_closed_form, unique_app.
    rewrite (unique_NoDup_id (unique (map Block df))) by apply unique_NoDup.
    f_equal. apply filter_ext. intros x. now rewrite mem_unique.
Qed.

(** X9: after the loop, the global block order is the block labels of
    the combined frame, each once, in the order of their first
    appearance in it. *)
Theorem block_order_is_first_appearance (snirf_files : list string) :
  all_blocks_seen (run_loop snirf_files) =
  unique (map Block (combine_frames (contributed_frames snirf_files))).
Proof.
  rewrite run_loop_blocks, contributed_blocks_of_frames.
  exact (fold_add_new_blocks_unique (contributed_frames snirf_files) []).
Qed.

Lemma loop_printed (snirf_files : list string) (st : LoopState) :
  printed (fold_left loop_body snirf_files st) =
  (printed st ++ map file_report snirf_files)%list.
Proof.
  revert st. induction snirf_files as [|f fs IH]; intros st; simpl.
  - now rewrite app_nil_r.
  - rewrite IH. unfold loop_body at 1, file_report at 2.
    destruct (try_file f) as [[[df fb] tn] | e]; simpl;
      now rewrite <- app_assoc.
Qed.

Lemma try_file_ok (f : string) (df : list Row) (fb : list string) (tn : string) :
  try_file f = Ok (df, fb, tn) ->
  tn = extract_trial_name f /\ df <> [] /\
  exists raw, read_and_convert f = Ok raw /\
              get_hemoglobin_averages raw tn = Ok df.
Proof.
  unfold try_file, raw_intensity_to_hemo.
  destruct (read_and_convert f) as [raw | e]; simpl; [| discriminate].
  destruct (get_hemoglobin_averages raw (extract_trial_name f)) as [rows | e] eqn:Hg;
    simpl; [| discriminate].
  destruct rows as [|r rows]; simpl; [discriminate |].
  intros H. injection H as <- _ <-.
  split; [reflexivity |]. split; [discriminate |].
  now exists raw.
Qed.

(** X10: of the lines that report an outcome, the loop prints, after
    the count of files, exactly one per file in file order: for a
    processed file its trial name (that of the file name), the number
    of its measurements (at least one) and of its distinct block
    labels; for a failed file its base name and the exception. *)
Theorem one_report_line_per_file (snirf_files : list string) :
  printed (run_loop snirf_files) =
    FoundFiles (List.length snirf_files) :: map file_report snirf_files /\
  forall f, In f snirf_files ->
    (forall e, try_file f = Err e ->
       file_report f = ErrorProcessing (basename f) e) /\
    (forall df fb tn, try_file f = Ok (df, fb, tn) ->
       file_report f =
         Processed (extract_trial_name f) (List.length df)
                   (List.length (unique (map Block df))) /\
       (0 < List.length df)%nat /\
       In df (contributed_frames snirf_files)).
Proof.
  split; [unfold run_loop; now rewrite loop_printed |].
  intros f Hin. split.
  - intros e He. unfold file_report. now rewrite He.
  - intros df fb tn Hf. unfold file_report. rewrite Hf.
    destruct (try_file_ok f df fb tn Hf) as [-> [Hne _]].
    rewrite (try_file_blocks f df fb _ Hf). split; [reflexivity |].
    split; [destruct df; [congruence | simpl; lia] |].
    unfold contributed_frames. apply in_flat_map. exists f.
    split; [assumption |]. rewrite Hf. now left.
Qed.

(* ================================================================== *)
(** * Further properties: the detailed table *)
(* ================================================================== *)

Lemma written_head (snirf_files : list string) (mapping : MappingArg) :
  contributed_frames snirf_files <> [] ->
  hd_error (written (fst (process_snirf_files snirf_files mapping))) =
  Some (detailed_csv,
        detailed_pivot (combine_frames (contributed_frames snirf_files))
                       (all_blocks_seen (run_loop snirf_files))).
Proof.
  intros Hne. unfold process_snirf_files.
  destruct snirf_files as [|f fs]; [now exfalso; apply Hne |].
  rewrite run_loop_frames.
  destruct (contributed_frames (f :: fs)) as [|df dfs] eqn:Hc; [congruence |].
  destruct mapping as [| path | channel_map]; simpl; try reflexivity.
  destruct (load_channel_mapping channel_map) as [m | e]; reflexivity.
Qed.

(** X11: a run that processes at least one file writes the detailed
    table first, and the table is the same whatever the mapping
    argument is; its value at a row label and a block is the mean, as
    pandas takes it, of the oxygenated measurements with that row label
    and block, and it has no value where there is none. *)
Theorem detailed_table_values (snirf_files : list string) (mapping : MappingArg) :
  contributed_frames snirf_files <> [] ->
  exists detailed,
    hd_error (written (fst (process_snirf_files snirf_files mapping))) =
      Some (detailed_csv, detailed) /\
    (forall other : MappingArg,
       hd_error (written (fst (process_snirf_files snirf_files other))) =
         Some (detailed_csv, detailed)) /\
    forall row_label block : string,
      table_at detailed row_label block =
      pd_mean (detailed_means (combine_frames (contributed_frames snirf_files))
                              row_label block).
Proof.
  intros Hne. eexists. split; [now apply written_head |].
  split; [intros other; now apply written_head |].
  intros i c. apply detailed_pivot_value. intros r Hr.
  now apply every_block_is_ordered.
Qed.

Lemma pd_mean_has_value (xs : list float) :
  isna (pd_mean xs) = false -> exists x, In x xs /\ isna x = false.
Proof.
  unfold pd_mean. intros H.
  destruct (filter (fun x => negb (isna x)) xs) as [|y ys] eqn:E; [discriminate |].
  assert (Hy : In y (filter (fun x => negb (isna x)) xs)) by (rewrite E; now left).
  apply filter_In in Hy. destruct Hy as [Hin Hv].
  exists y. split; [assumption | now apply negb_true_iff].
Qed.

Lemma fold_fadd_finite (ys : list float) (a : Q) :
  Forall (fun y => exists q, y = Num q) ys ->
  exists q, fold_left fadd ys (Num a) = Num q.
Proof.
  revert a. induction ys as [|y ys IH]; intros a H; simpl; [now exists a |].
  inversion H as [|? ? [q ->] Hys]; subst. simpl. now apply IH.
Qed.

Lemma pd_mean_of_finite (xs : list float) :
  Forall finite_or_nan xs ->
  (exists x, In x xs /\ isna x = false) ->
  isna (pd_mean xs) = false.
Proof.
  intros Hfin [x [Hin Hx]]. unfold pd_mean.
  assert (Hys : Forall (fun y => exists q, y = Num q)
                       (filter (fun x => negb (isna x)) xs)).
  { apply Forall_forall. intros y Hy. apply filter_In in Hy.
    destruct Hy as [Hy Hv]. rewrite Forall_forall in Hfin.
    specialize (Hfin y Hy). destruct y; simpl in *; try contradiction;
      [discriminate | now eexists]. }
  destruct (filter (fun x => negb (isna x)) xs) as [|y ys] eqn:E.
  - assert (Hx' : In x (filter (fun x => negb (isna x)) xs))
      by (apply filter_In; split; [assumption | now rewrite Hx]).
    rewrite E in Hx'. destruct Hx'.
  - inversion Hys as [|? ? [q ->] Hys']; subst. simpl.
    destruct (fold_fadd_finite ys (0 + q) Hys') as [q' ->]. reflexivity.
Qed.

Lemma mapM_Forall {A B : Type} (P : B -> Prop) (f : A -> result B)
  (l : list A) (bs : list B) :
  (forall a b, f a = Ok b -> P b) -> mapM f l = Ok bs -> Forall P bs.
Proof.
  intros Hf. revert bs. induction l as [|a l IH]; intros bs H; simpl in H.
  - injection H as <-. constructor.
  - destruct (f a) as [b | e] eqn:Ha; simpl in H; [| discriminate].
    destruct (mapM f l) as [bs' | e]; simpl in H; [| discriminate].
    injection H as <-. constructor; [now apply (Hf a) | now apply IH].
Qed.

Lemma np_mean_finite (xs : list Q) : finite_or_nan (np_mean xs).
Proof. destruct xs; exact I. Qed.

(** The extraction records only numbers and NaN as means. *)
Lemma averages_are_finite (raw : RawHemo) (trial_name : string) (rows : list Row) :
  get_hemoglobin_averages raw trial_name = Ok rows ->
  Forall (fun r => finite_or_nan (Mean_Value r)) rows.
Proof.
  unfold get_hemoglobin_averages. destruct (events raw) as [|ev evs].
  - apply mapM_Forall. intros [i ch] r. simpl.
    destruct (py_index (data raw) i) as [samples |]; simpl; [| discriminate].
    destruct (n_samples (data raw)) as [n |]; simpl; [| discriminate].
    destruct (py_true_divide n (sfreq raw)) as [d |]; simpl; [| discriminate].
    intros H. injection H as <-. apply np_mean_finite.
  - destruct (mapM _ (enumerate (ev :: evs))) as [per_event |] eqn:E; simpl;
      [| discriminate].
    intros H. injection H as <-.
    apply (mapM_Forall (Forall (fun r => finite_or_nan (Mean_Value r)))) in E.
    + apply Forall_forall. intros r Hr. apply in_concat in Hr.
      destruct Hr as [rows_w [Hw Hr]]. rewrite Forall_forall in E.
      specialize (E rows_w Hw). rewrite Forall_forall in E. now apply E.
    + intros [i e] rows_w. simpl.
      destruct (event_window raw i e) as [w |]; simpl; [| discriminate].
      apply mapM_Forall. intros [c ch] r. simpl.
      destruct (py_index _ c) as [samples |]; simpl; [| discriminate].
      intros H. injection H as <-. apply np_mean_finite.
Qed.

Lemma combined_means_are_finite (snirf_files : list string) (r : Row) :
  In r (combine_frames (contributed_frames snirf_files)) ->
  finite_or_nan (Mean_Value r).
Proof.
  intros H. apply in_concat in H. destruct H as [df [Hdf Hr]].
  unfold contributed_frames in Hdf. apply in_flat_map in Hdf.
  destruct Hdf as [f [_ Hf]].
  destruct (try_file f) as [[[df' fb] tn] | e] eqn:Ht; [| destruct Hf].
  destruct Hf as [<- | []].
  destruct (try_file_ok f df' fb tn Ht) as [_ [_ [raw [_ Hg]]]].
  pose proof (averages_are_finite raw tn df' Hg) as Hfin.
  rewrite Forall_forall in Hfin. now apply Hfin.
Qed.

Lemma group_has_row (cells : PivotInput) (i c : string) :
  isna (group_mean cells i c) = false ->
  In i (map (fun x => fst (fst x)) cells) /\
  In c (map (fun x => snd (fst x)) cells).
Proof.
  intros H. split.
  - destruct (In_string_dec i (map (fun x => fst (fst x)) cells)) as [Hi | Hi];
      [assumption |].
    now rewrite (group_mean_without_row cells i c Hi) in H.
  - destruct (In_string_dec c (map (fun x => snd (fst x)) cells)) as [Hc | Hc];
      [assumption |].
    now rewrite (group_mean_without_column cells i c Hc) in H.
Qed.

(** The rows and columns of a pivot table are the keys with a value. *)
Lemma pivot_table_index (cells : PivotInput) (i : string) :
  In i (index (pivot_table cells)) <->
  exists c, isna (group_mean cells i c) = false.
Proof.
  unfold pivot_table. simpl. rewrite filter_In, existsb_exists. split.
  - intros [_ [c [_ Hc]]]. exists c. now apply negb_true_iff.
  - intros [c Hc]. destruct (group_has_row cells i c Hc) as [Hi Hcol]. split.
    + now apply sorted_In, unique_In.
    + exists c. split; [now apply sorted_In, unique_In | now rewrite Hc].
Qed.

Lemma pivot_table_columns (cells : PivotInput) (c : string) :
  In c (columns (pivot_table cells)) <->
  exists i, isna (group_mean cells i c) = false.
Proof.
  unfold pivot_table. simpl. rewrite filter_In, existsb_exists. split.
  - intros [_ [i [_ Hi]]]. exists i. now apply negb_true_iff.
  - intros [i Hi]. destruct (group_has_row cells i c Hi) as [Hrow Hc]. split.
    + now apply sorted_In, unique_In.
    + exists i. split; [now apply sorted_In, unique_In | now rewrite Hi].
Qed.

Lemma detailed_means_have_value (combined_df : list Row) (i c : string) :
  (forall r, In r combined_df -> finite_or_nan (Mean_Value r)) ->
  (isna (pd_mean (detailed_means combined_df i c)) = false <->
   exists r, In r combined_df /\ is_HbO r = true /\ Row_Label r = i /\
             Block r = c /\ isna (Mean_Value r) = false).
Proof.
  intros Hfin. split.
  - intros H. apply pd_mean_has_value in H. destruct H as [x [Hx Hv]].
    unfold detailed_means in Hx. apply in_map_iff in Hx.
    destruct Hx as [r [<- Hr]]. apply filter_In in Hr. destruct Hr as [Hr Hk].
    apply andb_true_iff in Hk. destruct Hk as [Hk Hb].
    apply andb_true_iff in Hk. destruct Hk as [Hh Hl].
    exists r. repeat split; try assumption; now apply String.eqb_eq.
  - intros [r [Hr [Hh [Hl [Hb Hv]]]]]. apply pd_mean_of_finite.
    + apply Forall_forall. intros x Hx. unfold detailed_means in Hx.
      apply in_map_iff in Hx. destruct Hx as [r' [<- Hr']].
      apply filter_In in Hr'. now apply Hfin.
    + exists (Mean_Value r). split; [| assumption].
      unfold detailed_means. apply in_map, filter_In. split; [assumption |].
      now rewrite Hh, Hl, Hb, !String.eqb_refl.
Qed.

Lemma existsb_false_iff {A : Type} (f : A -> bool) (l : list A) :
  existsb f l = false <-> forall x, In x l -> f x = false.
Proof.
  induction l as [|a l IH]; simpl.
  - split; [intros _ x [] | reflexivity].
  - rewrite orb_false_iff, IH. split.
    + intros [Ha Hl] x [<- | Hx]; auto.
    + intros H. split; [apply H; now left | intros x Hx; apply H; now right].
Qed.

(** X12: in the detailed table a run writes, the columns are the
    blocks of the global order that have an oxygenated measurement
    with a mean that is not NaN, in the global order; the rows are the
    row labels that have one.  A block or a channel whose means are all
    NaN, or that has no oxygenated measurement, is not in the table. *)
Theorem detailed_table_rows_and_columns (snirf_files : list string) :
  let combined_df := combine_frames (contributed_frames snirf_files) in
  let detailed := detailed_pivot combined_df (all_blocks_seen (run_loop snirf_files)) in
  columns detailed =
    filter (block_has_value combined_df) (all_blocks_seen (run_loop snirf_files)) /\
  (forall block, In block (columns detailed) <->
                 block_has_value combined_df block = true) /\
  (forall row_label, In row_label (index detailed) <->
                     row_label_has_value combined_df row_label = true).
Proof.
  intros combined_df detailed.
  assert (Hfin : forall r, In r combined_df -> finite_or_nan (Mean_Value r))
    by (intros r; apply combined_means_are_finite).
  set (cells := map (fun r => (Row_Label r, Block r, Mean_Value r))
                    (filter is_HbO combined_df)).
  assert (Hgm : forall i c, group_mean cells i c =
                            pd_mean (detailed_means combined_df i c)).
  { intros i c. unfold group_mean, cells. now rewrite detailed_group_is_means. }
  assert (Hblock : forall c,
            block_has_value combined_df c = true <->
            exists r, In r combined_df /\ is_HbO r = true /\ Block r = c /\
                      isna (Mean_Value r) = false).
  { intros c. unfold block_has_value. rewrite existsb_exists. split.
    - intros [r [Hr Hk]].
      apply andb_true_iff in Hk. destruct Hk as [Hk Hv].
      apply andb_true_iff in Hk. destruct Hk as [Hh Hb].
      exists r. repeat split; try assumption;
        [now apply String.eqb_eq | now apply negb_true_iff].
    - intros [r [Hr [Hh [Hb Hv]]]]. exists r. split; [assumption |].
      now rewrite Hh, Hb, String.eqb_refl, Hv. }
  assert (Hcol : forall c, In c (columns (pivot_table cells)) <->
                           block_has_value combined_df c = true).
  { intros c. rewrite pivot_table_columns, Hblock. split.
    - intros [i Hi]. rewrite Hgm in Hi.
      apply detailed_means_have_value in Hi; [| exact Hfin].
      destruct Hi as [r [Hr [Hh [_ [Hb Hv]]]]]. now exists r.
    - intros [r [Hr [Hh [Hb Hv]]]]. exists (Row_Label r). rewrite Hgm.
      apply detailed_means_have_value; [exact Hfin |]. now exists r. }
  assert (Hcols : columns detailed =
                  filter (block_has_value combined_df)
                         (all_blocks_seen (run_loop snirf_files))).
  { unfold detailed, detailed_pivot, reorder_columns, select_columns.
    cbn [columns]. fold cells.
    apply filter_ext. intros b.
    destruct (block_has_value combined_df b) eqn:E.
    - now apply mem_In, Hcol.
    - destruct (mem b (columns (pivot_table cells))) eqn:E'; [| reflexivity].
      apply mem_In, Hcol in E'. congruence. }
  split; [exact Hcols |]. split.
  - intros block. rewrite Hcols, filter_In. split; [tauto |].
    intros H. split; [| assumption].
    apply Hblock in H. destruct H as [r [Hr [_ [<- _]]]].
    now apply every_block_is_ordered.
  - intros row_label.
    change (index detailed) with (index (pivot_table cells)).
    rewrite pivot_table_index. unfold row_label_has_value.
    rewrite existsb_exists. split.
    + intros [c Hc]. rewrite Hgm in Hc.
      apply detailed_means_have_value in Hc; [| exact Hfin].
      destruct Hc as [r [Hr [Hh [Hl [_ Hv]]]]]. exists r. split; [assumption |].
      now rewrite Hh, Hl, String.eqb_refl, Hv.
    + intros [r [Hr Hk]].
      apply andb_true_iff in Hk. destruct Hk as [Hk Hv].
      apply andb_true_iff in Hk. destruct Hk as [Hh Hl].
      exists (Block r). rewrite Hgm.
      apply detailed_means_have_value; [exact Hfin |].
      exists r. repeat split; try assumption;
        [now apply String.eqb_eq | now apply negb_true_iff].
Qed.

(* ================================================================== *)
(** * Further properties: the shape of the tables *)
(* ================================================================== *)

Lemma ascii_compare_refl (a : ascii) : Ascii.compare a a = Eq.
Proof. unfold Ascii.compare. apply N.compare_refl. Qed.

Lemma string_leb_trans (a b c : string) :
  String.leb a b = true -> String.leb b c = true -> String.leb a c = true.
Proof.
  unfold String.leb. revert b c.
  induction a as [|x a IH]; intros b c Hab Hbc.
  - now destruct c.
  - destruct b as [|y b]; [discriminate |].
    destruct c as [|z c]; [discriminate |].
    simpl in *.
    destruct (Ascii.compare x y) eqn:Hxy.
    + apply Ascii.compare_eq_iff in Hxy. subst y.
      destruct (Ascii.compare x z) eqn:Hxz; try reflexivity; try discriminate.
      now apply (IH b c).
    + destruct (Ascii.compare y z) eqn:Hyz.
      * apply Ascii.compare_eq_iff in Hyz. subst z. now rewrite Hxy.
      * unfold Ascii.compare in *.
        rewrite N.compare_lt_iff in Hxy, Hyz.
        assert (Hxz : (N_of_ascii x < N_of_ascii z)%N) by lia.
        apply N.compare_lt_iff in Hxz. now rewrite Hxz.
      * discriminate.
    + discriminate.
Qed.

Lemma insert_sorted_ascending (x : string) (l : list string) :
  ascending l -> ascending (insert_sorted x l).
Proof.
  unfold ascending. induction 1 as [|y l Hl IH Hy]; simpl.
  - repeat constructor.
  - destruct (String.leb x y) eqn:E.
    + constructor; [now constructor |].
      constructor; [assumption |].
      rewrite Forall_forall in *. intros z Hz.
      apply (string_leb_trans x y z E). now apply Hy.
    + constructor; [assumption |].
      apply Forall_forall. intros z Hz. apply insert_sorted_In in Hz.
      destruct Hz as [-> | Hz].
      * destruct (String.leb_total x y) as [H | H]; congruence.
      * rewrite Forall_forall in Hy. now apply Hy.
Qed.

Lemma sorted_ascending (l : list string) : ascending (sorted l).
Proof.
  induction l as [|x l IH]; simpl; [constructor |].
  now apply insert_sorted_ascending.
Qed.

Lemma insert_sorted_NoDup (x : string) (l : list string) :
  ~ In x l -> NoDup l -> NoDup (insert_sorted x l).
Proof.
  intros Hx Hl. induction Hl as [|y l Hy Hl IH]; simpl.
  - repeat constructor. intros [].
  - destruct (String.leb x y).
    + constructor; [assumption | now constructor].
    + constructor.
      * rewrite insert_sorted_In. intros [-> | H]; [apply Hx; now left | contradiction].
      * apply IH. intros H. apply Hx. now right.
Qed.

Lemma sorted_NoDup (l : list string) : NoDup l -> NoDup (sorted l).
Proof.
  induction 1 as [|x l Hx Hl IH]; simpl; [constructor |].
  apply insert_sorted_NoDup; [| assumption]. now rewrite sorted_In.
Qed.

Lemma filter_ascending (f : string -> bool) (l : list string) :
  ascending l -> ascending (filter f l).
Proof.
  unfold ascending. induction 1 as [|y l Hl IH Hy]; simpl; [constructor |].
  destruct (f y); [| assumption].
  constructor; [assumption |].
  rewrite Forall_forall in *. intros z Hz. apply filter_In in Hz.
  now apply Hy.
Qed.

(** The shape of a pivot table with its columns reordered. *)
Lemma reordered_pivot_shape (cells : PivotInput) (block_order : list string) :
  NoDup block_order ->
  let t := reorder_columns (pivot_table cells) block_order in
  rectangular t /\ ascending (index t) /\ NoDup (index t) /\
  NoDup (columns t) /\
  incl (columns t) block_order.
Proof.
  intros Hnd t. unfold t, reorder_columns, select_columns, rectangular.
  cbn [index columns values].
  repeat split.
  - unfold pivot_table. cbn [index values]. now rewrite !length_map.
  - apply Forall_forall. intros row Hrow. apply in_map_iff in Hrow.
    destruct Hrow as [row0 [<- _]]. now rewrite length_map.
  - unfold pivot_table. cbn [index]. apply filter_ascending, sorted_ascending.
  - unfold pivot_table. cbn [index].
    apply NoDup_filter, sorted_NoDup, unique_NoDup.
  - now apply NoDup_filter.
  - intros c Hc. now apply filter_In in Hc.
Qed.

Lemma written_tables (snirf_files : list string) (mapping : MappingArg)
  (name : string) (t : PivotTable) :
  In (name, t) (written (fst (process_snirf_files snirf_files mapping))) ->
  exists cells,
    t = reorder_columns (pivot_table cells) (all_blocks_seen (run_loop snirf_files)).
Proof.
  unfold process_snirf_files.
  destruct snirf_files as [|f fs]; [intros [] |].
  destruct (all_averages (run_loop (f :: fs))) as [|df dfs]; [intros [] |].
  assert (Hd : forall x : string * PivotTable,
            In x [(detailed_csv,
                   detailed_pivot (combine_frames (df :: dfs))
                                  (all_blocks_seen (run_loop (f :: fs))))] ->
            exists cells,
              snd x = reorder_columns (pivot_table cells)
                                      (all_blocks_seen (run_loop (f :: fs)))).
  { intros x [<- | []]. unfold detailed_pivot. now eexists. }
  destruct mapping as [| path | channel_map]; cbn [fst written].
  - intros H. exact (Hd _ H).
  - intros H. exact (Hd _ H).
  - destruct (load_channel_mapping channel_map) as [m | e]; cbn [fst written].
    + unfold region_analysis. cbn [fst snd written].
      intros H. apply in_app_or in H. destruct H as [H | H]; [exact (Hd _ H) |].
      apply in_map_iff in H. destruct H as [[rn rt] [Heq Hin]].
      injection Heq as _ <-. apply in_map_iff in Hin.
      destruct Hin as [rname [Heq _]]. injection Heq as _ <-.
      unfold region_pivot. now eexists.
    + intros H. exact (Hd _ H).
Qed.

(** X13: every table a run writes is rectangular, its row labels are
    in ascending order without repetition, and its column labels are
    blocks of the global order without repetition. *)
Theorem written_tables_are_well_formed (snirf_files : list string)
  (mapping : MappingArg) (name : string) (t : PivotTable) :
  In (name, t) (written (fst (process_snirf_files snirf_files mapping))) ->
  rectangular t /\ ascending (index t) /\ NoDup (index t) /\
  NoDup (columns t) /\
  incl (columns t) (all_blocks_seen (run_loop snirf_files)).
Proof.
  intros H. destruct (written_tables snirf_files mapping name t H) as [cells ->].
  apply reordered_pivot_shape.
  rewrite run_loop_blocks. apply fold_add_new_blocks_NoDup. constructor.
Qed.

(* ================================================================== *)
(** * Further properties: the region tables *)
(* ================================================================== *)

Lemma region_cells (channel_to_region : dict) (combined_df : list Row)
  (region_name : string) :
  map (fun rr => (Trial (base rr), Block (base rr), Mean_Value (base rr)))
      (region_data (hbo_df_regions_clean channel_to_region combined_df)
                   region_name) =
  map (fun r => (Trial r, Block r, Mean_Value r))
      (filter (fun r => is_HbO r &&
                        option_is (resolve_region channel_to_region (Channel r))
                                  region_name)
              combined_df).
Proof.
  unfold region_data, hbo_df_regions_clean, add_region_columns, resolve_region.
  induction combined_df as [|r rest IH]; [reflexivity |].
  simpl. destruct (is_HbO r); simpl; [| exact IH].
  destruct (map_region channel_to_region (extract_source_detector (Channel r)))
    as [x |]; simpl; [| exact IH].
  destruct (String.eqb x region_name); simpl; [| exact IH].
  now rewrite IH.
Qed.

Lemma option_is_true (o : option string) (s : string) :
  option_is o s = true <-> o = Some s.
Proof.
  destruct o as [x |]; simpl; [| split; discriminate].
  rewrite String.eqb_eq. split; congruence.
Qed.

(** X14: the table of a region is determined by which oxygenated
    channels resolve to that region: two mappings that agree on this
    for the channels of the frame give the same table for the region,
    however they differ on the other regions. *)
Theorem region_table_depends_on_its_channels
  (mapping1 mapping2 : dict) (combined_df : list Row)
  (block_order : list string) (region_name : string) :
  (forall r, In r combined_df -> is_HbO r = true ->
     (resolve_region mapping1 (Channel r) = Some region_name <->
      resolve_region mapping2 (Channel r) = Some region_name)) ->
  region_pivot (hbo_df_regions_clean mapping1 combined_df) block_order region_name =
  region_pivot (hbo_df_regions_clean mapping2 combined_df) block_order region_name.
Proof.
  intros H. unfold region_pivot. rewrite !region_cells. do 3 f_equal.
  apply filter_ext_in. intros r Hr.
  destruct (is_HbO r) eqn:Hh; [| reflexivity]. simpl.
  specialize (H r Hr Hh). rewrite <- !option_is_true in H.
  destruct (option_is (resolve_region mapping1 (Channel r)) region_name),
           (option_is (resolve_region mapping2 (Channel r)) region_name);
    try reflexivity; [symmetry |]; now apply H.
Qed.

Lemma sorted_regions_In (channel_to_region : dict) (combined_df : list Row)
  (region_name : string) :
  In region_name
     (sorted_regions (hbo_df_regions_clean channel_to_region combined_df)) <->
  exists r, In r combined_df /\ is_HbO r = true /\
            resolve_region channel_to_region (Channel r) = Some region_name.
Proof.
  unfold sorted_regions. rewrite sorted_In, unique_In, in_flat_map. split.
  - intros [rr [Hrr Hreg]].
    destruct (clean_rows_come_from_frame _ _ _ Hrr) as [Hin [Hh [Heq _]]].
    exists (base rr). repeat split; try assumption.
    rewrite <- Heq. destruct (Region rr) as [x |]; [| destruct Hreg].
    destruct Hreg as [-> | []]. reflexivity.
  - intros [r [Hr [Hh Hres]]].
    exists {| base := r;
              Source_Detector := extract_source_detector (Channel r);
              Region := resolve_region channel_to_region (Channel r) |}.
    split.
    + unfold hbo_df_regions_clean, add_region_columns. apply filter_In. split.
      * apply in_map_iff. exists r. split; [reflexivity |].
        apply filter_In. now split.
      * simpl. now rewrite Hres.
    + simpl. rewrite Hres. now left.
Qed.

(** X15: in a run with a loaded mapping that processes at least one
    file, the regions that get a table are exactly the regions some
    oxygenated measurement resolves to; they are taken in ascending
    order of their names, each once; every one of them is handed to the
    renderer; and the run writes one CSV file per region after the
    detailed one. *)
Theorem region_tables_of_a_run (snirf_files : list string)
  (channel_map : list MappingEntry) (channel_to_region : dict) :
  load_channel_mapping channel_map = Ok channel_to_region ->
  contributed_frames snirf_files <> [] ->
  let out := fst (process_snirf_files snirf_files (MappingFile channel_map)) in
  let combined_df := combine_frames (contributed_frames snirf_files) in
  (forall region_name,
     In region_name (map fst (region_pivots out)) <->
     exists r, In r combined_df /\ is_HbO r = true /\
               resolve_region channel_to_region (Channel r) = Some region_name) /\
  ascending (map fst (region_pivots out)) /\
  NoDup (map fst (region_pivots out)) /\
  rendered out = region_pivots out /\
  written out =
    ((detailed_csv,
      detailed_pivot combined_df (all_blocks_seen (run_loop snirf_files)))
     :: map (fun rp : string * PivotTable => (region_csv (fst rp), snd rp))
            (region_pivots out))%list.
Proof.
  intros Hload Hne out combined_df.
  set (clean := hbo_df_regions_clean channel_to_region combined_df).
  assert (Hout : out =
    {| stdout := stdout out;
       written :=
         ((detailed_csv,
           detailed_pivot combined_df (all_blocks_seen (run_loop snirf_files)))
          :: map (fun rp : string * PivotTable => (region_csv (fst rp), snd rp))
                 (map (fun name =>
                         (name, region_pivot clean
                                  (all_blocks_seen (run_loop snirf_files)) name))
                      (sorted_regions clean)))%list;
       region_pivots :=
         map (fun name =>
                (name, region_pivot clean
                         (all_blocks_seen (run_loop snirf_files)) name))
             (sorted_regions clean);
       rendered :=
         map (fun name =>
                (name, region_pivot clean
                         (all_blocks_seen (run_loop snirf_files)) name))
             (sorted_regions clean) |}).
  { unfold out, clean, combined_df, process_snirf_files.
    destruct snirf_files as [|f fs]; [now exfalso; apply Hne |].
    rewrite run_loop_frames.
    destruct (contributed_frames (f :: fs)) as [|df dfs] eqn:Hc; [congruence |].
    rewrite Hload. unfold region_analysis. reflexivity. }
  rewrite Hout. cbn [region_pivots rendered written].
  rewrite map_map. cbn [fst]. rewrite map_id.
  repeat split.
  - apply sorted_regions_In.
  - apply sorted_regions_In.
  - unfold sorted_regions. apply sorted_ascending.
  - unfold sorted_regions. apply sorted_NoDup, unique_NoDup.
Qed.

(* ================================================================== *)
(** * Further properties: file names *)
(* ================================================================== *)

Lemma replace_single_char (a b : ascii) (s : string) :
  replace (String a EmptyString) (String b EmptyString) s =
  translate (fun c => if Ascii.eqb c a then b else c) s.
Proof.
  unfold replace. induction s as [|c t IH]; [reflexivity |].
  cbn [replace_from startswith String.length Nat.sub translate].
  rewrite andb_true_r, (Ascii.eqb_sym a c).
  destruct (Ascii.eqb c a); simpl; now rewrite IH.
Qed.

Lemma translate_translate (f g : ascii -> ascii) (s : string) :
  translate f (translate g s) = translate (fun c => f (g c)) s.
Proof. induction s as [|c t IH]; simpl; [reflexivity | now rewrite IH]. Qed.

Lemma translate_ext (f g : ascii -> ascii) (s : string) :
  (forall c, f c = g c) -> translate f s = translate g s.
Proof.
  intros H. induction s as [|c t IH]; simpl; [reflexivity |].
  now rewrite H, IH.
Qed.

Lemma lower_is_translate (s : string) : lower s = translate lower_char s.
Proof. induction s as [|c t IH]; simpl; [reflexivity | now rewrite IH]. Qed.

Lemma safe_region_name_chars (region_name : string) :
  safe_region_name region_name = translate safe_char region_name.
Proof.
  unfold safe_region_name.
  rewrite lower_is_translate, !replace_single_char, !translate_translate.
  apply translate_ext. intros c. unfold safe_char.
  destruct (Ascii.eqb_spec c " ") as [-> | Hs]; [reflexivity |].
  destruct (Ascii.eqb c "/"); reflexivity.
Qed.

Lemma safe_char_facts (c : ascii) :
  Ascii.eqb (safe_char c) " " = false /\
  Ascii.eqb (safe_char c) "/" = false /\
  is_upper (safe_char c) = false /\
  safe_char (safe_char c) = safe_char c /\
  safe_char (lower_char c) = safe_char c.
Proof.
  destruct c as [[] [] [] [] [] [] [] []]; vm_compute; repeat split.
Qed.

Lemma all_chars_no_char (a : ascii) (s : string) :
  all_chars (fun c => negb (Ascii.eqb c a)) s = true ->
  contains (String a EmptyString) s = false.
Proof.
  induction s as [|c t IH]; intros H; [reflexivity |].
  simpl in H. apply andb_true_iff in H. destruct H as [Hc Ht].
  rewrite contains_char_cons, (IH Ht), orb_false_r, Ascii.eqb_sym.
  now apply negb_true_iff.
Qed.

Lemma contains_char_append (a : ascii) (s t : string) :
  contains (String a EmptyString) (s ++ t) =
  contains (String a EmptyString) s || contains (String a EmptyString) t.
Proof.
  induction s as [|c s IH]; [reflexivity |].
  change (String c s ++ t) with (String c (s ++ t)).
  now rewrite !contains_char_cons, IH, orb_assoc.
Qed.

Lemma translate_length (f : ascii -> ascii) (s : string) :
  String.length (translate f s) = String.length s.
Proof. induction s as [|c t IH]; simpl; [reflexivity | now rewrite IH]. Qed.

Lemma all_chars_translate (p : ascii -> bool) (f : ascii -> ascii) (s : string) :
  (forall c, p (f c) = true) -> all_chars p (translate f s) = true.
Proof.
  intros H. induction s as [|c t IH]; simpl; [reflexivity |].
  now rewrite H, IH.
Qed.

(** X16: the file-name form of a region name has the length of the
    name, no space, no slash and no upper-case letter, so that the
    region's CSV name has no slash either; taking the form twice
    changes nothing; and names that differ only in the case of their
    letters, or in having a space or a slash where the other has an
    underscore, get the same file name. *)
Theorem safe_region_name_properties (region_name : string) :
  String.length (safe_region_name region_name) = String.length region_name /\
  contains " " (safe_region_name region_name) = false /\
  contains "/" (safe_region_name region_name) = false /\
  all_chars (fun c => negb (is_upper c)) (safe_region_name region_name) = true /\
  contains "/" (region_csv region_name) = false /\
  safe_region_name (safe_region_name region_name) = safe_region_name region_name /\
  region_csv (lower region_name) = region_csv region_name /\
  region_csv (replace " " "_" region_name) = region_csv region_name /\
  region_csv (replace "/" "_" region_name) = region_csv region_name.
Proof.
  assert (Hall : forall p : ascii -> bool,
            (forall c, p (safe_char c) = true) ->
            all_chars p (safe_region_name region_name) = true).
  { intros p Hp. rewrite safe_region_name_chars.
    now apply all_chars_translate. }
  assert (Hsp : contains " " (safe_region_name region_name) = false).
  { apply all_chars_no_char, Hall. intros c.
    now rewrite (proj1 (safe_char_facts c)). }
  assert (Hsl : contains "/" (safe_region_name region_name) = false).
  { apply all_chars_no_char, Hall. intros c.
    now rewrite (proj1 (proj2 (safe_char_facts c))). }
  assert (Hsame : forall f : ascii -> ascii,
            (forall c, safe_char (f c) = safe_char c) ->
            safe_region_name (translate f region_name) =
            safe_region_name region_name).
  { intros f Hf. rewrite !safe_region_name_chars, translate_translate.
    now apply translate_ext. }
  repeat split.
  - rewrite safe_region_name_chars. apply translate_length.
  - exact Hsp.
  - exact Hsl.
  - apply Hall. intros c.
    now rewrite (proj1 (proj2 (proj2 (safe_char_facts c)))).
  - unfold region_csv. rewrite !contains_char_append, Hsl. reflexivity.
  - rewrite (safe_region_name_chars (safe_region_name region_name)).
    rewrite safe_region_name_chars at 1 2. rewrite translate_translate.
    apply translate_ext. intros c. apply safe_char_facts.
  - unfold region_csv. rewrite lower_is_translate, Hsame; [reflexivity |].
    intros c. apply safe_char_facts.
  - unfold region_csv. rewrite replace_single_char, Hsame; [reflexivity |].
    intros c. destruct (Ascii.eqb_spec c " ") as [-> | _]; reflexivity.
  - unfold region_csv. rewrite replace_single_char, Hsame; [reflexivity |].
    intros c. destruct (Ascii.eqb_spec c "/") as [-> | _]; reflexivity.
Qed.

Lemma split_acc_part (sep : ascii) (acc a b : string) :
  contains (String sep EmptyString) a = false ->
  split_acc sep acc (a ++ String sep b) =
  (acc ++ a) :: split_acc sep EmptyString b.
Proof.
  revert acc. induction a as [|c a IH]; intros acc H.
  - simpl. now rewrite Ascii.eqb_refl, append_empty_r.
  - rewrite contains_char_cons in H. apply orb_false_iff in H.
    destruct H as [Hc Ha]. rewrite Ascii.eqb_sym in Hc.
    change (String c a ++ String sep b) with (String c (a ++ String sep b)).
    cbn [split_acc]. rewrite Hc, (IH _ Ha). now rewrite append_char_cons.
Qed.

Lemma split_acc_last (sep : ascii) (acc a : string) :
  contains (String sep EmptyString) a = false ->
  split_acc sep acc a = [acc ++ a].
Proof.
  revert acc. induction a as [|c a IH]; intros acc H.
  - simpl. now rewrite append_empty_r.
  - rewrite contains_char_cons in H. apply orb_false_iff in H.
    destruct H as [Hc Ha]. rewrite Ascii.eqb_sym in Hc.
    cbn [split_acc]. rewrite Hc, (IH _ Ha). now rewrite append_char_cons.
Qed.

Lemma split_acc_nonempty (sep : ascii) (acc s : string) :
  exists p ps, split_acc sep acc s = p :: ps.
Proof.
  revert acc. induction s as [|c s IH]; intros acc; simpl.
  - now exists acc, [].
  - destruct (Ascii.eqb c sep); [now eexists; eexists | apply IH].
Qed.

Lemma basename_of_path (acc dir name : string) :
  contains "/" name = false ->
  basename_acc acc (dir ++ "/" ++ name) = name.
Proof.
  intros H. revert acc. induction dir as [|c dir IH]; intros acc.
  - change (EmptyString ++ "/" ++ name) with (String "/" name).
    cbn [basename_acc]. rewrite Ascii.eqb_refl.
    now rewrite (no_slash_basename EmptyString name H).
  - change (String c dir ++ "/" ++ name) with (String c (dir ++ "/" ++ name)).
    cbn [basename_acc]. destruct (Ascii.eqb c "/"); apply IH.
Qed.

(** X17: for a file named [<date>_<treatment>_<participant>.snirf],
    with or without further underscore-separated parts, in any
    directory, the trial name is [<treatment>_<participant>]: it does
    not depend on the directory, on the date or on the further parts,
    so that recordings which differ only in these get the same trial
    name. *)
Theorem trial_name_ignores_directory_and_date
  (dir date treatment participant tail : string) :
  contains "_" date = false ->
  contains "_" treatment = false ->
  contains "_" participant = false ->
  further_parts tail ->
  contains "/" (date ++ "_" ++ treatment ++ "_" ++ participant ++ tail) = false ->
  contains ".snirf" (date ++ "_" ++ treatment ++ "_" ++ participant ++ tail) = false ->
  extract_trial_name
    (date ++ "_" ++ treatment ++ "_" ++ participant ++ tail ++ ".snirf") =
    treatment ++ "_" ++ participant /\
  extract_trial_name
    (dir ++ "/" ++ date ++ "_" ++ treatment ++ "_" ++ participant ++ tail
         ++ ".snirf") =
    treatment ++ "_" ++ participant.
Proof.
  intros Hd Ht Hp Htail Hslash Hext.
  set (stem := date ++ "_" ++ treatment ++ "_" ++ participant ++ tail) in *.
  assert (Hname : date ++ "_" ++ treatment ++ "_" ++ participant ++ tail ++ ".snirf"
                  = stem ++ ".snirf").
  { unfold stem. rewrite !append_assoc. reflexivity. }
  assert (Hfile : contains "/" (stem ++ ".snirf") = false)
    by (now rewrite contains_char_append, Hslash).
  assert (Hparts : exists more,
            split "_" stem = date :: treatment :: participant :: more).
  { unfold split, stem.
    change ("_" ++ treatment ++ "_" ++ participant ++ tail)
      with (String "_" (treatment ++ "_" ++ participant ++ tail)).
    rewrite (split_acc_part "_" EmptyString date _ Hd).
    change ("_" ++ participant ++ tail) with (String "_" (participant ++ tail)).
    rewrite (split_acc_part "_" EmptyString treatment _ Ht).
    destruct Htail as [-> | [more ->]].
    - rewrite append_empty_r, (split_acc_last "_" EmptyString participant Hp).
      now exists [].
    - change ("_" ++ more) with (String "_" more).
      rewrite (split_acc_part "_" EmptyString participant _ Hp).
      destruct (split_acc_nonempty "_" EmptyString more) as [p [ps ->]].
      now eexists. }
  destruct Hparts as [more Hparts].
  assert (Hplain : extract_trial_name (stem ++ ".snirf") =
                   treatment ++ "_" ++ participant).
  { unfold extract_trial_name, basename.
    rewrite (no_slash_basename EmptyString _ Hfile). cbn [String.append].
    rewrite (replace_removes_extension stem Hext), Hparts. reflexivity. }
  rewrite Hname. split; [exact Hplain |].
  unfold extract_trial_name, basename.
  rewrite (basename_of_path EmptyString dir (stem ++ ".snirf") Hfile).
  rewrite (replace_removes_extension stem Hext), Hparts. reflexivity.
Qed.

(* ================================================================== *)
(** * Further properties: annotations outside the recording *)
(* ================================================================== *)

Lemma py_slice_reversed {A : Type} (l : list A) (a b : Z) :
  (0 <= b <= a)%Z -> py_slice l a b = [].
Proof.
  intros H. unfold py_slice, slice_index.
  destruct (Z.ltb_spec a 0) as [Ha | _]; [lia |].
  destruct (Z.ltb_spec b 0) as [Hb | _]; [lia |].
  replace (Z.to_nat (Z.min b (Z.of_nat (List.length l)) -
                     Z.min a (Z.of_nat (List.length l)))) with 0%nat by lia.
  reflexivity.
Qed.

Lemma windows_from_last ids idx (pre : list (Z * Z * Z)) (ev : Z * Z * Z) (n : Z) :
  exists ws0 label,
    windows_from ids idx (pre ++ [ev]) n =
    (ws0 ++ [{| block_start := event_sample_of ev;
                block_end := n;
                block_label := label |}])%list.
Proof.
  revert idx. induction pre as [|p pre IH]; intros idx.
  - exists [], (label_or_default (find_event_label ids (snd ev)) idx). reflexivity.
  - destruct (IH (S idx)) as [ws0 [label Hws]].
    change ((p :: pre) ++ [ev])%list with (p :: (pre ++ [ev]))%list.
    cbn [windows_from]. rewrite Hws.
    eexists (_ :: ws0), label. reflexivity.
Qed.

Lemma negative_duration (a : Z) (b : Q) :
  (a < 0)%Z -> (0 < b)%Q ->
  exists q, np_true_divide a b = Num q /\ (q < 0)%Q.
Proof.
  intros Ha Hb. unfold np_true_divide.
  destruct (Qeq_bool b 0) eqn:E.
  - apply Qeq_bool_eq in E. rewrite E in Hb. now apply Qlt_irrefl in Hb.
  - eexists. split; [reflexivity |]. rewrite Qred_correct.
    apply Qlt_shift_div_r; [assumption |]. rewrite Qmult_0_l.
    unfold Qlt. simpl. lia.
Qed.

(** X18: when the last annotation lies beyond the end of the
    recording, the extraction still returns its frame; the rows of the
    last block, one per channel, have NaN as mean and standard
    deviation, and their duration is a negative number. *)
Theorem annotation_beyond_the_end (raw : RawHemo) (trial_name : string)
  (n : Z) (pre : list (Z * Z * Z)) (last : Z * Z * Z) :
  List.length (data raw) = List.length (ch_names raw) ->
  n_samples (data raw) = Ok n ->
  events raw = (pre ++ [last])%list ->
  (n < event_sample_of last)%Z ->
  (0 < sfreq raw)%Q ->
  exists before last_rows,
    get_hemoglobin_averages raw trial_name = Ok (before ++ last_rows)%list /\
    map Channel last_rows = ch_names raw /\
    Forall (fun r => Mean_Value r = NaN /\ Std_Value r = NaN /\
                     exists q, Block_Duration_s r = Num q /\ (q < 0)%Q)
           last_rows.
Proof.
  intros Hlen Hn Hev Hlate Hsf.
  assert (Hne : events raw <> []) by (rewrite Hev; now destruct pre).
  pose proof (block_windows_closed_form raw n Hn) as Hws.
  pose proof (averages_by_window raw trial_name _ Hne Hws Hlen) as Hrows.
  rewrite Hev in Hrows.
  destruct (windows_from_last (event_ids raw) 0 pre last n) as [ws0 [label Hlast]].
  rewrite Hlast, map_app, concat_app in Hrows. cbn [map List.concat] in Hrows.
  rewrite app_nil_r in Hrows.
  eexists. eexists. split; [exact Hrows |]. split.
  - rewrite map_map. simpl. now apply map_fst_combine.
  - assert (Hn0 : (0 <= n)%Z).
    { unfold n_samples in Hn. destruct (py_index (data raw) 0); simpl in Hn;
        [injection Hn as <-; lia | discriminate]. }
    apply Forall_forall. intros r Hr. apply in_map_iff in Hr.
    destruct Hr as [[ch samples] [<- _]]. unfold window_row. simpl.
    rewrite py_slice_reversed by lia. simpl.
    repeat split. apply negative_duration; [lia | assumption].
Qed.

(* ================================================================== *)
(** * Further properties: the GUI *)
(* ================================================================== *)

Lemma is_empty_true (s : string) : is_empty s = true <-> s = EmptyString.
Proof. destruct s; simpl; split; congruence. Qed.

(** X19: when the GUI starts a run, the stripped input field names an
    existing directory with at least one SNIRF file and the output
    field is not blank; the run is given those files and either no
    mapping (the field is blank, or names no file and the user chose
    to continue) or the parsed mapping file, never a path without a
    file behind it, provided a path that is a file exists; and the box
    shown at the end reports success exactly when the call did not
    raise. *)
Theorem gui_run_has_validated_inputs (fs : FileSystem) (fields : Fields)
  (continue_without : bool) (run : Outputs * option exn) (box : Dialog) :
  (forall path, isfile fs path = true -> path_exists fs path = true) ->
  process_files fs fields continue_without = Some (run, box) ->
  let input := strip (input_dir fields) in
  let mapping := strip (mapping_file fields) in
  input <> EmptyString /\
  isdir fs input = true /\
  glob_snirf fs input <> [] /\
  strip (output_dir fields) <> EmptyString /\
  (exists mapping_arg,
     run = process_snirf_files (glob_snirf fs input) mapping_arg /\
     ((mapping_arg = NoMappingGiven /\
       (mapping = EmptyString \/
        (isfile fs mapping = false /\ continue_without = true))) \/
      (mapping_arg = MappingFile (json_load fs mapping) /\
       mapping <> EmptyString /\ isfile fs mapping = true))) /\
  (box = ShowInfoCompleted <-> snd run = None).
Proof.
  intros Hfs H input mapping. unfold process_files, validate_inputs in H.
  fold input in H. fold mapping in H.
  assert (Hbox : forall files arg,
            process_files_thread files arg = ShowInfoCompleted <->
            snd (process_snirf_files files arg) = None).
  { intros files arg. unfold process_files_thread.
    destruct (snd (process_snirf_files files arg));
      split; congruence. }
  destruct (is_empty input) eqn:Hin; [discriminate |].
  destruct (isdir fs input) eqn:Hdir; cbn [negb] in H; [| discriminate].
  destruct (glob_snirf fs input) as [|f fs'] eqn:Hglob; [discriminate |].
  destruct (is_empty (strip (output_dir fields))) eqn:Hout; [discriminate |].
  apply is_empty_false in Hin. apply is_empty_false in Hout.
  destruct (is_empty mapping) eqn:Hmap; cbn [negb andb] in H.
  - fold input in H. fold mapping in H. rewrite Hglob, Hmap in H.
    cbn [mapping_argument] in H.
    remember (process_snirf_files (f :: fs') NoMappingGiven) as R eqn:HR.
    remember (process_files_thread (f :: fs') NoMappingGiven) as B eqn:HB.
    injection H as <- <-. subst R B.
    apply is_empty_true in Hmap.
    split; [exact Hin |]. split; [reflexivity |]. split; [discriminate |].
    split; [exact Hout |]. split; [| apply Hbox].
    exists NoMappingGiven. split; [reflexivity |].
    left. split; [reflexivity |]. now left.
  - destruct (isfile fs mapping) eqn:Hfile; cbn [negb andb] in H.
    + fold input in H. fold mapping in H. rewrite Hglob, Hmap in H.
      cbn [mapping_argument] in H. rewrite Hmap, (Hfs _ Hfile) in H.
      remember (process_snirf_files (f :: fs') (MappingFile (json_load fs mapping)))
        as R eqn:HR.
      remember (process_files_thread (f :: fs') (MappingFile (json_load fs mapping)))
        as B eqn:HB.
      injection H as <- <-. subst R B.
      split; [exact Hin |]. split; [reflexivity |]. split; [discriminate |].
      split; [exact Hout |]. split; [| apply Hbox].
      exists (MappingFile (json_load fs mapping)). split; [reflexivity |].
      right. repeat split. now apply is_empty_false.
    + destruct continue_without; [| discriminate].
      cbn [input_dir mapping_file] in H. fold input in H. rewrite Hglob in H.
      change (strip EmptyString) with EmptyString in H.
      cbn [is_empty mapping_argument] in H.
      remember (process_snirf_files (f :: fs') NoMappingGiven) as R eqn:HR.
      remember (process_files_thread (f :: fs') NoMappingGiven) as B eqn:HB.
      injection H as <- <-. subst R B.
      split; [exact Hin |]. split; [reflexivity |]. split; [discriminate |].
      split; [exact Hout |]. split; [| apply Hbox].
      exists NoMappingGiven. split; [reflexivity |]. left.
      split; [reflexivity |]. right. now split.
Qed.

(** X20: a mapping path with no file behind it is not an error: a run
    that processes at least one file warns that the mapping file was
    not found, skips the region analysis, writes the detailed table
    alone and returns without raising; [main] ends with exit status
    0. *)
Theorem missing_mapping_file_is_not_fatal (fs : FileSystem)
  (snirf_files : list string) (path : string) :
  contributed_frames snirf_files <> [] ->
  path <> EmptyString ->
  path_exists fs path = false ->
  let mapping_arg := mapping_argument fs (Some path) in
  snd (process_snirf_files snirf_files mapping_arg) = None /\
  written (fst (process_snirf_files snirf_files mapping_arg)) =
    [(detailed_csv,
      detailed_pivot (combine_frames (contributed_frames snirf_files))
                     (all_blocks_seen (run_loop snirf_files)))] /\
  region_pivots (fst (process_snirf_files snirf_files mapping_arg)) = [] /\
  rendered (fst (process_snirf_files snirf_files mapping_arg)) = [] /\
  In (MappingFileNotFound path)
     (stdout (fst (process_snirf_files snirf_files mapping_arg))) /\
  In SkippingRegions
     (stdout (fst (process_snirf_files snirf_files mapping_arg))) /\
  snd (main snirf_files mapping_arg) = 0%Z.
Proof.
  intros Hne Hpath Hmissing mapping_arg.
  assert (Harg : mapping_arg = MappingMissing path).
  { unfold mapping_arg, mapping_argument. apply is_empty_false in Hpath.
    now rewrite Hpath, Hmissing. }
  rewrite Harg. unfold main, process_snirf_files.
  destruct snirf_files as [|f fs0]; [now exfalso; apply Hne |].
  rewrite run_loop_frames.
  destruct (contributed_frames (f :: fs0)) as [|df dfs] eqn:Hc; [congruence |].
  cbn [fst snd written region_pivots rendered stdout].
  repeat split.
  - apply in_or_app. right. now left.
  - apply in_or_app. right. right. now left.
Qed.

(* ================================================================== *)
(** * Accounting of the oxygenated measurements *)
(* ================================================================== *)

Lemma list_sum_zero {A : Type} (l : list A) :
  list_sum (map (fun _ => O) l) = O.
Proof. induction l as [|a l IH]; simpl; [reflexivity | exact IH]. Qed.

Lemma list_sum_add {A : Type} (f g : A -> nat) (l : list A) :
  list_sum (map (fun a => (f a + g a)%nat) l) =
  (list_sum (map f l) + list_sum (map g l))%nat.
Proof. induction l as [|a l IH]; simpl; [reflexivity | rewrite IH; lia]. Qed.

Lemma list_sum_indicator (x : string) (l : list string) :
  NoDup l ->
  list_sum (map (fun name => if String.eqb x name then 1%nat else O) l) =
  if mem x l then 1%nat else O.
Proof.
  induction 1 as [|y l Hy Hl IH]; simpl; [reflexivity |].
  rewrite IH.
  destruct (String.eqb_spec x y) as [-> | Hne]; simpl; [| reflexivity].
  destruct (mem y l) eqn:Hm; [| reflexivity].
  exfalso. apply Hy. now apply mem_In.
Qed.

Lemma region_data_sum (clean : list RegionRow) (names : list string) :
  NoDup names ->
  (forall rr, In rr clean -> exists x, Region rr = Some x /\ In x names) ->
  list_sum (map (fun name => List.length (region_data clean name)) names) =
  List.length clean.
Proof.
  intros Hnd. induction clean as [|rr clean IH]; intros Hall.
  - simpl. apply list_sum_zero.
  - destruct (Hall rr (or_introl eq_refl)) as [x [Hx Hin]].
    rewrite (map_ext _ (fun name =>
               ((if String.eqb x name then 1 else 0) +
                List.length (region_data clean name))%nat)).
    + rewrite list_sum_add, IH, (list_sum_indicator _ _ Hnd).
      * apply mem_In in Hin. now rewrite Hin.
      * intros rr' Hrr'. apply Hall. now right.
    + intros name. unfold region_data. simpl. rewrite Hx. simpl.
      destruct (String.eqb x name); reflexivity.
Qed.

Lemma filter_split_length {A : Type} (p : A -> bool) (l : list A) :
  List.length l =
  (List.length (filter (fun a => negb (p a)) l) + List.length (filter p l))%nat.
Proof.
  induction l as [|a l IH]; simpl; [reflexivity |].
  destruct (p a); simpl; lia.
Qed.

Lemma filter_map_commute {A B : Type} (f : A -> B) (p : B -> bool) (l : list A) :
  filter p (map f l) = map f (filter (fun a => p (f a)) l).
Proof.
  induction l as [|a l IH]; simpl; [reflexivity |].
  destruct (p (f a)); simpl; now rewrite IH.
Qed.

Lemma report_is_no_warning (snirf_files : list string) (m : Message) :
  In m (printed (run_loop snirf_files)) ->
  (forall k, m <> UnmappedWarning k) /\ m <> AllChannelsMapped.
Proof.
  unfold run_loop. rewrite loop_printed. intros H.
  apply in_app_or in H. destruct H as [H | H].
  - unfold initial_state in H. simpl in H.
    destruct H as [<- | []]. split; [intros k |]; discriminate.
  - apply in_map_iff in H. destruct H as [f [<- _]]. unfold file_report.
    destruct (try_file f) as [[[df fb] tn] | e]; split; try intros k; discriminate.
Qed.

(** X21: in a run with a loaded mapping that processes at least one
    file, the warning about unmapped channels carries the number of
    oxygenated measurements (rows, not channels) whose channel label
    resolves to no region, and is printed exactly when that number is
    positive; otherwise the run prints that all channels are mapped.
    Every oxygenated measurement is either counted there or is one of
    the mapped rows, and the mapped rows are shared out among the
    region tables: the sizes of the regions' data add up to their
    number. *)
Theorem measurements_are_unmapped_or_in_one_region (snirf_files : list string)
  (channel_map : list MappingEntry) (channel_to_region : dict) :
  load_channel_mapping channel_map = Ok channel_to_region ->
  contributed_frames snirf_files <> [] ->
  let out := fst (process_snirf_files snirf_files (MappingFile channel_map)) in
  let hbo_df := filter is_HbO (combine_frames (contributed_frames snirf_files)) in
  let unmapped :=
    filter (fun r => negb (notna (resolve_region channel_to_region (Channel r))))
           hbo_df in
  let clean :=
    hbo_df_regions_clean channel_to_region
      (combine_frames (contributed_frames snirf_files)) in
  (forall k, In (UnmappedWarning k) (stdout out) <->
             k = List.length unmapped /\ (0 < k)%nat) /\
  (In AllChannelsMapped (stdout out) <-> unmapped = []) /\
  List.length hbo_df = (List.length unmapped + List.length clean)%nat /\
  list_sum (map (fun rp : string * PivotTable =>
                   List.length (region_data clean (fst rp)))
                (region_pivots out)) = List.length clean.
Proof.
  intros Hload Hne out hbo_df unmapped clean.
  set (combined_df := combine_frames (contributed_frames snirf_files)) in *.
  set (order := all_blocks_seen (run_loop snirf_files)).
  assert (Hout : exists head,
    (forall m, In m head ->
               (forall k, m <> UnmappedWarning k) /\ m <> AllChannelsMapped) /\
    stdout out =
      (head ++ fst (region_analysis combined_df order channel_to_region))%list /\
    region_pivots out =
      snd (region_analysis combined_df order channel_to_region)).
  { unfold out, process_snirf_files.
    destruct snirf_files as [|f fs]; [now exfalso; apply Hne |].
    rewrite run_loop_frames. fold order.
    destruct (contributed_frames (f :: fs)) as [|df dfs] eqn:Hc; [congruence |].
    rewrite Hload. change (combine_frames (df :: dfs)) with combined_df.
    destruct (region_analysis combined_df order channel_to_region)
      as [lines pivots] eqn:Hra.
    cbn [fst snd stdout region_pivots].
    eexists. split; [| split; reflexivity].
    intros m Hm. apply in_app_or in Hm. destruct Hm as [Hm | Hm].
    - apply in_app_or in Hm. destruct Hm as [Hm | Hm].
      + now apply report_is_no_warning in Hm.
      + destruct order; [destruct Hm |]. destruct Hm as [<- | []].
        split; [intros k |]; discriminate.
    - destruct Hm as [<- | [<- | []]]; split; try intros k; discriminate. }
  destruct Hout as [head [Hhead [Hstd Hpiv]]].
  unfold region_analysis in Hstd, Hpiv. cbn [fst snd] in Hstd, Hpiv.
  fold clean in Hstd, Hpiv.
  assert (Hun : List.length
                  (filter (fun rr => negb (notna (Region rr)))
                     (add_region_columns channel_to_region
                        (filter is_HbO combined_df))) = List.length unmapped).
  { unfold add_region_columns. rewrite filter_map_commute, length_map.
    reflexivity. }
  rewrite Hun in Hstd.
  assert (Hcl : List.length clean =
                List.length
                  (filter (fun r => notna (resolve_region channel_to_region
                                             (Channel r))) hbo_df)).
  { unfold clean, hbo_df_regions_clean, add_region_columns.
    rewrite filter_map_commute, length_map. reflexivity. }
  assert (Hin : forall m,
     (exists k, m = UnmappedWarning k) \/ m = AllChannelsMapped ->
     (In m (stdout out) <->
      m = if (0 <? List.length unmapped)%nat
          then UnmappedWarning (List.length unmapped)
          else AllChannelsMapped)).
  { intros m Hm. rewrite Hstd. split.
    - intros H. apply in_app_or in H. destruct H as [H | H].
      + exfalso. destruct (Hhead m H) as [H1 H2].
        destruct Hm as [[k ->] | ->]; [now apply (H1 k) | now apply H2].
      + apply in_app_or in H. destruct H as [H | H].
        * destruct H as [<- | [<- | [<- | H]]].
          -- exfalso. destruct Hm as [[k Hk] | Hk]; discriminate.
          -- reflexivity.
          -- exfalso. destruct Hm as [[k Hk] | Hk]; discriminate.
          -- exfalso. apply in_map_iff in H. destruct H as [rp [<- _]].
             destruct Hm as [[k Hk] | Hk]; discriminate.
        * destruct H as [<- | []]. exfalso.
          destruct Hm as [[k Hk] | Hk]; discriminate.
    - intros ->. apply in_or_app. right. apply in_or_app. left.
      right. left. reflexivity. }
  split; [| split; [| split]].
  - intros k. rewrite (Hin _ (or_introl (ex_intro _ k eq_refl))).
    destruct (Nat.ltb_spec 0 (List.length unmapped)) as [Hpos | Hzero]; split.
    + intros [= ->]. split; [reflexivity | assumption].
    + intros [-> _]. reflexivity.
    + discriminate.
    + intros [-> H0]. lia.
  - rewrite (Hin _ (or_intror eq_refl)).
    destruct (Nat.ltb_spec 0 (List.length unmapped)) as [Hpos | Hzero]; split.
    + discriminate.
    + intros Hu. rewrite Hu in Hpos. simpl in Hpos. lia.
    + intros _. destruct unmapped; [reflexivity | simpl in Hzero; lia].
    + reflexivity.
  - unfold unmapped. rewrite Hcl. apply filter_split_length.
  - rewrite Hpiv, map_map. cbn [fst]. apply region_data_sum.
    + unfold sorted_regions. apply sorted_NoDup, unique_NoDup.
    + intros rr Hrr. pose proof Hrr as Hrr'.
      unfold clean, hbo_df_regions_clean in Hrr'.
      apply filter_In in Hrr'. destruct Hrr' as [_ Hn].
      destruct (Region rr) as [x |] eqn:Hx; [| discriminate].
      exists x. split; [reflexivity |].
      unfold sorted_regions. rewrite sorted_In, unique_In, in_flat_map.
      exists rr. split; [exact Hrr | rewrite Hx; now left].
Qed.

(* ================================================================== *)
(** * Missing means in the tables *)
(* ================================================================== *)

(** On numbers and NaN, the mean of pandas is the arithmetic mean of
    the numbers. *)
Lemma pd_mean_present (xs : list float) :
  Forall finite_or_nan xs -> pd_mean xs = np_mean (present_values xs).
Proof.
  intros Hfin.
  assert (H : filter (fun x => negb (isna x)) xs = map Num (present_values xs)).
  { induction Hfin as [|x xs Hx Hxs IH]; [reflexivity |].
    destruct x as [| | | q]; simpl in *;
      [exact IH | destruct Hx | destruct Hx | now rewrite IH]. }
  unfold pd_mean. rewrite H.
  destruct (present_values xs) as [|q qs]; [reflexivity |].
  change (map Num (q :: qs)) with (Num q :: map Num qs) at 1.
  cbv iota. rewrite fold_fadd_numeric, length_map. reflexivity.
Qed.

Lemma present_values_numeric (qs : list Q) : present_values (map Num qs) = qs.
Proof.
  induction qs as [|q qs IH]; simpl; [reflexivity | now rewrite IH].
Qed.

Lemma present_values_In (xs : list float) (q : Q) :
  In (Num q) xs -> present_values xs <> [].
Proof.
  induction xs as [|x xs IH]; simpl; [intros [] |].
  intros [-> | H]; [discriminate |].
  destruct x as [| | | q']; simpl; [now apply IH .. | discriminate].
Qed.

Lemma constituent_means_are_finite (snirf_files : list string)
  (channel_to_region : dict) (region_name trial block : string) :
  Forall finite_or_nan
         (constituent_means channel_to_region
            (combine_frames (contributed_frames snirf_files))
            region_name trial block).
Proof.
  apply Forall_forall. intros x Hx. unfold constituent_means in Hx.
  apply in_map_iff in Hx. destruct Hx as [r [<- Hr]].
  apply filter_In in Hr. destruct Hr as [Hr _].
  exact (combined_means_are_finite snirf_files r Hr).
Qed.

(** C3 (amended): in a run with a mapping, the value of a region's
    table at a trial and a block is the arithmetic mean of those mean
    measurements of the oxygenated channels resolving to the region,
    for that trial and block, that are numbers: a NaN among them is
    skipped, not averaged.  When all of them are numbers it is their
    arithmetic mean; when none is, the table has no value there. *)
Theorem region_value_is_mean_of_present_channel_means (snirf_files : list string)
  (channel_map : list MappingEntry) (channel_to_region : dict) :
  load_channel_mapping channel_map = Ok channel_to_region ->
  snd (process_snirf_files snirf_files (MappingFile channel_map)) = None /\
  forall region_name trial block : string,
    let value :=
      table_at
        (lookup_table
           (region_pivots
              (fst (process_snirf_files snirf_files (MappingFile channel_map))))
           region_name)
        trial block in
    let means :=
      constituent_means channel_to_region
        (combine_frames (contributed_frames snirf_files))
        region_name trial block in
    value = np_mean (present_values means) /\
    (forall qs : list Q, means = map Num qs -> value = np_mean qs) /\
    (present_values means = [] -> value = NaN) /\
    (Forall (fun x => isna x = false) means -> value = arithmetic_mean means).
Proof.
  intros Hload.
  destruct (region_pivots_of_run snirf_files channel_map channel_to_region Hload)
    as [Hret Hpiv].
  split; [exact Hret |].
  intros region_name trial block value means.
  assert (Hv : value = pd_mean means).
  { subst value means. rewrite Hpiv.
    destruct (contributed_frames snirf_files) as [|df dfs] eqn:Hc.
    - reflexivity.
    - rewrite <- Hc. cbv zeta.
      rewrite (lookup_table_map
                 (fun name =>
                    region_pivot
                      (hbo_df_regions_clean channel_to_region
                         (combine_frames (contributed_frames snirf_files)))
                      (all_blocks_seen (run_loop snirf_files)) name)).
      rewrite <- region_group_is_constituents.
      destruct (mem region_name _) eqn:E.
      + rewrite region_pivot_value; [reflexivity |].
        intros rr Hrr. apply every_block_is_ordered.
        now apply (clean_rows_come_from_frame channel_to_region).
      + rewrite region_data_of_unknown_region; [reflexivity |].
        intros Hin. apply mem_In in Hin. congruence. }
  assert (Hp : value = np_mean (present_values means)).
  { rewrite Hv. apply pd_mean_present. apply constituent_means_are_finite. }
  split; [exact Hp |]. split; [| split].
  - intros qs Hqs. rewrite Hp, Hqs. now rewrite present_values_numeric.
  - intros Hnone. now rewrite Hp, Hnone.
  - intros Hall. rewrite Hv. unfold pd_mean, arithmetic_mean.
    assert (Hf : filter (fun x => negb (isna x)) means = means).
    { clear - Hall. induction Hall as [|x xs Hx Hxs IH]; [reflexivity |].
      simpl. rewrite Hx. simpl. now rewrite IH. }
    now rewrite Hf.
Qed.

(** The row labels of the detailed table of a run are those of the
    oxygenated measurements with a mean that is a number. *)
Lemma detailed_pivot_index (snirf_files : list string) (row_label : string) :
  In row_label
     (index (detailed_pivot (combine_frames (contributed_frames snirf_files))
                            (all_blocks_seen (run_loop snirf_files)))) <->
  exists r, In r (combine_frames (contributed_frames snirf_files)) /\
            is_HbO r = true /\ Row_Label r = row_label /\
            isna (Mean_Value r) = false.
Proof.
  set (combined_df := combine_frames (contributed_frames snirf_files)).
  assert (Hfin : forall r, In r combined_df -> finite_or_nan (Mean_Value r))
    by (intros r; apply (combined_means_are_finite snirf_files)).
  set (cells := map (fun r => (Row_Label r, Block r, Mean_Value r))
                    (filter is_HbO combined_df)).
  assert (Hgm : forall i c, group_mean cells i c =
                            pd_mean (detailed_means combined_df i c)).
  { intros i c. unfold group_mean, cells. now rewrite detailed_group_is_means. }
  change (index (detailed_pivot combined_df (all_blocks_seen (run_loop snirf_files))))
    with (index (pivot_table cells)).
  rewrite pivot_table_index. split.
  - intros [c Hc]. rewrite Hgm in Hc.
    apply detailed_means_have_value in Hc; [| exact Hfin].
    destruct Hc as [r [Hr [Hh [Hl [_ Hv]]]]]. now exists r.
  - intros [r [Hr [Hh [Hl Hv]]]]. exists (Block r). rewrite Hgm.
    apply detailed_means_have_value; [exact Hfin |]. now exists r.
Qed.

(** A block with an oxygenated measurement whose mean is a number is a
    column of the detailed table of a run. *)
Lemma detailed_pivot_column (snirf_files : list string) (r : Row) :
  In r (combine_frames (contributed_frames snirf_files)) ->
  is_HbO r = true -> isna (Mean_Value r) = false ->
  In (Block r)
     (columns (detailed_pivot (combine_frames (contributed_frames snirf_files))
                              (all_blocks_seen (run_loop snirf_files)))).
Proof.
  intros Hr Hh Hv.
  set (combined_df := combine_frames (contributed_frames snirf_files)) in *.
  set (cells := map (fun r => (Row_Label r, Block r, Mean_Value r))
                    (filter is_HbO combined_df)).
  unfold detailed_pivot, reorder_columns, select_columns. cbn [columns].
  fold cells. apply filter_In. split.
  - now apply every_block_is_ordered.
  - apply mem_In. apply pivot_table_columns. exists (Row_Label r).
    unfold group_mean, cells. rewrite detailed_group_is_means.
    apply detailed_means_have_value.
    + intros r'. apply (combined_means_are_finite snirf_files).
    + now exists r.
Qed.

(** C7 (amended): a channel label without a substring
    [S<number>_D<number>] resolves to no region under every mapping;
    the rows of a channel that resolves to no region are absent from
    the cleaned region frame, so that every region value is what it
    would be without them.  The detailed table a run writes is the same
    whatever the mapping, and it holds oxygenated measurements only: a
    row of the frame is in it, with a number as value, when it is
    oxygenated and its mean is a number; and the row label of any
    channel is among its rows only if an oxygenated measurement with a
    mean that is a number has that row label. *)
Theorem unmapped_channel_is_excluded_and_kept_if_oxygenated (label : string) :
  (~ has_SD_substring label ->
   extract_source_detector label = None /\
   forall channel_to_region : dict,
     resolve_region channel_to_region label = None) /\
  (forall channel_to_region : dict,
     resolve_region channel_to_region label = None ->
     (forall (combined_df : list Row) (rr : RegionRow),
        In rr (hbo_df_regions_clean channel_to_region combined_df) ->
        Channel (base rr) <> label) /\
     (forall (combined_df : list Row) (region_name trial block : string),
        constituent_means channel_to_region combined_df region_name trial block =
        constituent_means channel_to_region
          (filter (fun r => negb (String.eqb (Channel r) label)) combined_df)
          region_name trial block)) /\
  (forall (snirf_files : list string) (r : Row),
     In r (combine_frames (contributed_frames snirf_files)) ->
     Channel r = label ->
     let combined_df := combine_frames (contributed_frames snirf_files) in
     let detailed :=
       detailed_pivot combined_df (all_blocks_seen (run_loop snirf_files)) in
     (forall mapping : MappingArg,
        In (detailed_csv, detailed)
           (written (fst (process_snirf_files snirf_files mapping)))) /\
     (is_HbO r = true -> isna (Mean_Value r) = false ->
      In (Row_Label r) (index detailed) /\
      In (Block r) (columns detailed) /\
      (exists q, table_at detailed (Row_Label r) (Block r) = Num q) /\
      table_at detailed (Row_Label r) (Block r) =
        pd_mean (detailed_means combined_df (Row_Label r) (Block r)) /\
      In (Mean_Value r) (detailed_means combined_df (Row_Label r) (Block r))) /\
     (In (Row_Label r) (index detailed) ->
      exists r', In r' combined_df /\ is_HbO r' = true /\
                 Row_Label r' = Row_Label r /\ isna (Mean_Value r') = false)).
Proof.
  split; [| split].
  - intros Hno. apply extract_source_detector_None in Hno.
    split; [exact Hno |].
    intros m. unfold resolve_region. now rewrite Hno.
  - intros m Hres. split.
    + intros combined_df rr Hrr Hch.
      destruct (clean_rows_come_from_frame m combined_df rr Hrr)
        as [_ [_ [Hreg Hsome]]].
      apply Hsome. now rewrite Hreg, Hch.
    + intros combined_df region_name trial block. unfold constituent_means.
      f_equal. induction combined_df as [|r rest IH]; [reflexivity |]. simpl.
      destruct (String.eqb_spec (Channel r) label) as [Heq | Hne]; simpl.
      * rewrite Heq, Hres. simpl. rewrite andb_false_r. simpl. exact IH.
      * now rewrite IH.
  - intros snirf_files r Hr Hch combined_df detailed.
    split; [| split].
    + intros mapping. apply detailed_table_is_written.
      intros Hnil. rewrite Hnil in Hr. destruct Hr.
    + intros Hhbo Hv.
      assert (Hin : In (Mean_Value r)
                       (detailed_means combined_df (Row_Label r) (Block r))).
      { unfold detailed_means. apply in_map. apply filter_In.
        split; [assumption |]. now rewrite Hhbo, !String.eqb_refl. }
      assert (Hval : table_at detailed (Row_Label r) (Block r) =
                     pd_mean (detailed_means combined_df (Row_Label r) (Block r))).
      { apply detailed_pivot_value. intros r' Hr'.
        now apply every_block_is_ordered. }
      split; [| split; [| split; [| split]]].
      * apply detailed_pivot_index. now exists r.
      * now apply detailed_pivot_column.
      * rewrite Hval, pd_mean_present.
        -- destruct (Mean_Value r) as [| | | q] eqn:Hm; try discriminate.
           ++ pose proof (combined_means_are_finite snirf_files r Hr) as Hf.
              rewrite Hm in Hf. destruct Hf.
           ++ pose proof (combined_means_are_finite snirf_files r Hr) as Hf.
              rewrite Hm in Hf. destruct Hf.
           ++ apply present_values_In in Hin.
              destruct (present_values _) as [|q0 qs]; [congruence |].
              simpl. now eexists.
        -- apply Forall_forall. intros x Hx. unfold detailed_means in Hx.
           apply in_map_iff in Hx. destruct Hx as [r' [<- Hr']].
           apply filter_In in Hr'. destruct Hr' as [Hr' _].
           exact (combined_means_are_finite snirf_files r' Hr').
      * exact Hval.
      * exact Hin.
    + intros Hidx. now apply detailed_pivot_index in Hidx.
Qed.

End Toolkit.

(* ================================================================== *)
(** * The properties at concrete inputs *)
(* ================================================================== *)

Lemma empty_block_statistics_are_nan_witness :
  exists ws per_block,
    block_windows duplicate_index_series = Ok ws /\
    get_hemoglobin_averages example_sqrt duplicate_index_series "ctrl_P01" =
      Ok (List.concat per_block) /\
    Forall2
      (fun w rows =>
         map Channel rows = ch_names duplicate_index_series /\
         Forall (fun r => Block r = block_label w) rows /\
         (block_start w = block_end w -> no_samples duplicate_index_series w) /\
         (no_samples duplicate_index_series w ->
          Forall (fun r => Mean_Value r = NaN /\ Std_Value r = NaN /\
                           Mean_Value r <> Num 0 /\ Std_Value r <> Num 0)
                 rows))
      ws per_block.
Proof.
  apply (empty_block_statistics_are_nan example_sqrt duplicate_index_series "ctrl_P01").
  - reflexivity.
  - discriminate.
  - discriminate.
Defined.

Lemma no_annotations_single_block_witness :
  exists rows,
    get_hemoglobin_averages example_sqrt unannotated_series "ctrl_P01" = Ok rows /\
    rows = map (fun q => recording_row example_sqrt unannotated_series "ctrl_P01" 4 (fst q) (snd q))
               (combine (ch_names unannotated_series) (data unannotated_series)) /\
    map Channel rows = ch_names unannotated_series /\
    Forall (fun r => Block r = "Entire_Recording" /\
                     Block_Duration_s r =
                     Num (Qred (inject_Z (Z.of_nat 4) / sfreq unannotated_series)))
           rows /\
    unique (map Block rows) =
      match ch_names unannotated_series with
      | [] => []
      | _ :: _ => ["Entire_Recording"]
      end.
Proof.
  apply (no_annotations_single_block example_sqrt unannotated_series "ctrl_P01" 4).
  - reflexivity.
  - reflexivity.
  - repeat constructor.
  - reflexivity.
Defined.

Example region_value_example :
  table_at
    (lookup_table
       (region_pivots
          (fst (process_snirf_files example_sqrt example_convert example_files
                  (MappingFile example_mapping))))
       "PFC left")
    "ctrl_P01" "rest" = Num (1 # 2).
Proof. vm_compute. reflexivity. Qed.

(** C3, as written, fails when one of the mean measurements is NaN: a
    trial in which the label rest is annotated twice, the second time
    on an empty block, has the means 5/2 and NaN for the region and
    that label; their arithmetic mean is NaN, and the table shows
    5/2. *)
Lemma region_value_skips_missing_means :
  let out :=
    fst (process_snirf_files example_sqrt repeated_label_convert
           repeated_label_files (MappingFile example_mapping)) in
  let means :=
    constituent_means [("S1_D1", "PFC left")]
      (combine_frames
         (contributed_frames example_sqrt repeated_label_convert
            repeated_label_files))
      "PFC left" "ctrl_P03" "rest" in
  load_channel_mapping example_mapping = Ok [("S1_D1", "PFC left")] /\
  means = [Num (5 # 2); NaN] /\
  arithmetic_mean means = NaN /\
  table_at (lookup_table (region_pivots out) "PFC left") "ctrl_P03" "rest" =
    Num (5 # 2) /\
  table_at (lookup_table (region_pivots out) "PFC left") "ctrl_P03" "rest" <>
    arithmetic_mean means.
Proof.
  vm_compute. repeat split; discriminate.
Qed.

Lemma region_value_is_mean_of_present_channel_means_witness :
  let value :=
    table_at
      (lookup_table
         (region_pivots
            (fst (process_snirf_files example_sqrt repeated_label_convert
                    repeated_label_files (MappingFile example_mapping))))
         "PFC left")
      "ctrl_P03" "rest" in
  let means :=
    constituent_means [("S1_D1", "PFC left")]
      (combine_frames
         (contributed_frames example_sqrt repeated_label_convert
            repeated_label_files))
      "PFC left" "ctrl_P03" "rest" in
  present_values means = [(5 # 2)%Q] /\
  value = np_mean (present_values means).
Proof.
  split; [reflexivity |].
  exact (proj1 (proj2 (region_value_is_mean_of_present_channel_means
                         example_sqrt repeated_label_convert repeated_label_files
                         example_mapping [("S1_D1", "PFC left")] eq_refl)
                      "PFC left" "ctrl_P03" "rest")).
Defined.

(** C6, as written, fails on a run in which no file is processed: the
    call returns to its caller as after any other run, and [main] ends
    with exit status 0 and no fatal error. *)
Lemma empty_run_is_not_fatal :
  (forall f, In f ["data/broken.snirf"] ->
             succeeds example_sqrt failing_convert f = false) /\
  ~ fatal_to_caller
      (process_snirf_files example_sqrt failing_convert ["data/broken.snirf"]
         NoMappingGiven) /\
  main example_sqrt failing_convert ["data/broken.snirf"] NoMappingGiven =
    ([FoundFiles 1;
      ErrorProcessing "broken.snirf" (ConversionError "not a SNIRF file");
      NoFilesProcessed], 0%Z) /\
  process_files_thread example_sqrt failing_convert ["data/broken.snirf"]
    NoMappingGiven = ShowInfoCompleted.
Proof.
  split; [intros f [<- | []]; reflexivity |].
  split; [| split; reflexivity].
  intros [e He]. vm_compute in He. discriminate.
Qed.

(** The one condition the run does raise to its caller: a mapping
    entry without one of its keys. *)
Example malformed_mapping_is_fatal :
  fatal_to_caller
    (process_snirf_files example_sqrt example_convert example_files
       (MappingFile malformed_mapping)) /\
  snd (main example_sqrt example_convert example_files
         (MappingFile malformed_mapping)) = 1%Z.
Proof.
  split; [exists (KeyError "region") |]; vm_compute; reflexivity.
Qed.

Lemma failed_files_are_skipped_and_empty_run_returns_witness :
  exists lines,
    process_snirf_files example_sqrt failing_convert ["data/broken.snirf"]
      NoMappingGiven =
      ({| stdout := (lines ++ [NoFilesProcessed])%list;
          written := []; region_pivots := []; rendered := [] |}, None) /\
    ~ fatal_to_caller
        (process_snirf_files example_sqrt failing_convert ["data/broken.snirf"]
           NoMappingGiven) /\
    main example_sqrt failing_convert ["data/broken.snirf"] NoMappingGiven =
      ((lines ++ [NoFilesProcessed])%list, 0%Z) /\
    process_files_thread example_sqrt failing_convert ["data/broken.snirf"]
      NoMappingGiven = ShowInfoCompleted.
Proof.
  apply (proj2 (failed_files_are_skipped_and_empty_run_returns
                  example_sqrt failing_convert)).
  - discriminate.
  - intros f [<- | []]. reflexivity.
Defined.

(** C7, as written, fails on a deoxygenated channel: the label
    [Fp1 hbr] has no source and detector index and resolves to no
    region under any mapping, its measurements are in the combined
    frame, and the detailed table the run writes has the row of
    [Fp2 hbo] only. *)
Lemma unmapped_deoxygenated_channel_is_not_in_detailed_report :
  let combined_df :=
    combine_frames
      (contributed_frames example_sqrt unindexed_convert unindexed_files) in
  extract_source_detector "Fp1 hbr" = None /\
  (forall channel_to_region : dict,
     resolve_region channel_to_region "Fp1 hbr" = None) /\
  map (fun r => (Channel r, Block r, Mean_Value r)) combined_df =
    [("Fp1 hbr", "rest", Num 2); ("Fp2 hbo", "rest", Num (3 # 2));
     ("Fp1 hbr", "task", Num 4); ("Fp2 hbo", "task", Num (7 # 2))] /\
  (forall mapping : MappingArg,
     hd_error (written (fst (process_snirf_files example_sqrt unindexed_convert
                               unindexed_files mapping))) =
     Some (detailed_csv,
           {| index := ["ctrl_P02 | Fp2 hbo"];
              columns := ["rest"; "task"];
              values := [[Num (3 # 2); Num (7 # 2)]] |})) /\
  ~ In "ctrl_P02 | Fp1 hbr" ["ctrl_P02 | Fp2 hbo"].
Proof.
  split; [reflexivity |]. split; [intros m; reflexivity |].
  split; [vm_compute; reflexivity |]. split.
  - intros mapping. rewrite written_head by (vm_compute; discriminate).
    vm_compute. reflexivity.
  - intros [H | []]. discriminate.
Qed.

(** An oxygenated channel is absent as well when none of its means is
    a number: here the only block is empty, and the detailed table
    that is written has no row. *)
Example unindexed_channel_without_value :
  map (fun r => (Channel r, Block r, Mean_Value r))
      (combine_frames
         (contributed_frames example_sqrt unindexed_empty_convert unindexed_files)) =
    [("Fp1 hbo", "rest", NaN)] /\
  written (fst (process_snirf_files example_sqrt unindexed_empty_convert
                  unindexed_files NoMappingGiven)) =
    [(detailed_csv, {| index := []; columns := []; values := [] |})].
Proof. vm_compute. split; reflexivity. Qed.

Lemma unmapped_channel_is_excluded_and_kept_if_oxygenated_witness :
  let combined_df :=
    combine_frames
      (contributed_frames example_sqrt unindexed_convert unindexed_files) in
  let detailed :=
    detailed_pivot combined_df
      (all_blocks_seen (run_loop example_sqrt unindexed_convert unindexed_files)) in
  (forall channel_to_region : dict,
     resolve_region channel_to_region "Fp2 hbo" = None) /\
  (forall mapping : MappingArg,
     In (detailed_csv, detailed)
        (written (fst (process_snirf_files example_sqrt unindexed_convert
                         unindexed_files mapping)))) /\
  In "ctrl_P02 | Fp2 hbo" (index detailed) /\
  In "task" (columns detailed) /\
  exists q, table_at detailed "ctrl_P02 | Fp2 hbo" "task" = Num q.
Proof.
  destruct (unmapped_channel_is_excluded_and_kept_if_oxygenated
              example_sqrt unindexed_convert "Fp2 hbo") as [H1 [_ H3]].
  destruct (H3 unindexed_files
              {| Trial := "ctrl_P02"; Block := "task"; Channel := "Fp2 hbo";
                 HbType := "HbO"; Mean_Value := Num (7 # 2);
                 Std_Value := Num (1 # 2); Block_Duration_s := Num (2 # 5) |})
    as [Hw [Hkeep _]].
  - vm_compute. do 3 right. left. reflexivity.
  - reflexivity.
  - destruct (Hkeep eq_refl eq_refl) as [Hi [Hc [Hq _]]].
    split; [| split; [exact Hw | split; [exact Hi | split; [exact Hc | exact Hq]]]].
    apply H1. apply extract_source_detector_None. reflexivity.
Defined.

(* ================================================================== *)
(** * The examples of the specification *)
(* ================================================================== *)

Example three_blocks_windows :
  block_windows three_block_series =
  Ok [{| block_start := 0; block_end := 50; block_label := "rest" |};
      {| block_start := 50; block_end := 120; block_label := "task" |};
      {| block_start := 120; block_end := 200; block_label := "rest" |}].
Proof. reflexivity. Qed.

Example three_blocks_rows :
  match get_hemoglobin_averages example_sqrt three_block_series "ctrl_P01" with
  | Ok rows =>
      map (fun r => (Block r, HbType r, Block_Duration_s r)) rows =
      [("rest", "HbO", Num 10); ("rest", "HbR", Num 10);
       ("task", "HbO", Num 14); ("task", "HbR", Num 14);
       ("rest", "HbO", Num 16); ("rest", "HbR", Num 16)]
  | Err _ => False
  end.
Proof. vm_compute. reflexivity. Qed.

Example duplicate_index_rows :
  match get_hemoglobin_averages example_sqrt duplicate_index_series "ctrl_P01" with
  | Ok rows =>
      map (fun r => (Block r, Mean_Value r, Std_Value r)) rows =
      [("rest", Num (5 # 2), Num (143 # 128)); ("rest", Num 2, Num 0);
       ("cue", NaN, NaN); ("cue", NaN, NaN);
       ("task", Num (13 # 2), Num (143 # 128)); ("task", Num 4, Num 0)]
  | Err _ => False
  end.
Proof. vm_compute. reflexivity. Qed.

Example trial_name_of_convention :
  extract_trial_name "data/raw/20240101_ctrl_P01.snirf" = "ctrl_P01" /\
  extract_trial_name "session1.snirf" = "session1".
Proof. split; reflexivity. Qed.

Example source_detector_examples :
  extract_source_detector "S1_D1 hbo" = Some "S1_D1" /\
  extract_source_detector "xS12_D3S1_D22 hbo" = Some "S12_D3" /\
  extract_source_detector "S_D3 S1_D hbo" = None.
Proof. repeat split; reflexivity. Qed.

(* ================================================================== *)
(** * The further properties at concrete inputs *)
(* ================================================================== *)

Lemma load_channel_mapping_last_entry_wins_witness :
  exists channel_to_region,
    load_channel_mapping duplicate_key_mapping = Ok channel_to_region /\
    NoDup (map fst channel_to_region) /\
    forall key,
      dict_get channel_to_region key = last_region duplicate_key_mapping key.
Proof.
  apply (load_channel_mapping_last_entry_wins duplicate_key_mapping).
  intros e [<- | [<- | [<- | []]]]; reflexivity.
Defined.

Example duplicate_key_lookup :
  load_channel_mapping duplicate_key_mapping =
  Ok [("S1_D1", "PFC right"); ("S2_D1", "M1")].
Proof. reflexivity. Qed.

Lemma load_channel_mapping_first_missing_key_witness :
  load_channel_mapping (example_mapping ++ entry_without_region :: example_mapping)
  = Err (KeyError "region").
Proof.
  apply (load_channel_mapping_first_missing_key
           example_mapping example_mapping entry_without_region "region").
  - intros e [<- | []]. reflexivity.
  - reflexivity.
Defined.

Lemma malformed_mapping_raises_after_detailed_table_witness :
  snd (process_snirf_files example_sqrt example_convert example_files
         (MappingFile malformed_mapping)) = Some (KeyError "region") /\
  snd (main example_sqrt example_convert example_files
         (MappingFile malformed_mapping)) = 1%Z.
Proof.
  destruct (malformed_mapping_raises_after_detailed_table
              example_sqrt example_convert example_files malformed_mapping
              (KeyError "region")) as [H1 [_ [_ [H4 _]]]].
  - vm_compute. discriminate.
  - reflexivity.
  - split; assumption.
Defined.

Lemma extract_source_detector_key_witness :
  exists pre d1 d2 post,
    "S1_D12" = "S" ++ d1 ++ "_D" ++ d2 /\
    "xS1_D12 hbo" = pre ++ "S1_D12" ++ post /\
    d1 <> EmptyString /\ all_digits d1 = true /\
    d2 <> EmptyString /\ all_digits d2 = true /\
    no_leading_digit post /\
    contains "S1_D12" "xS1_D12 hbo" = true /\
    extract_source_detector "S1_D12" = Some "S1_D12".
Proof.
  apply (extract_source_detector_key "xS1_D12 hbo" "S1_D12"). reflexivity.
Defined.

Lemma mapped_channel_resolves_to_last_entry_witness :
  resolve_region [("S1_D1", "PFC right"); ("S2_D1", "M1")]
    ("S" ++ str_of_Z 1 ++ "_D" ++ str_of_Z 1 ++ " hbo") =
  last_region duplicate_key_mapping ("S" ++ str_of_Z 1 ++ "_D" ++ str_of_Z 1).
Proof.
  apply (mapped_channel_resolves_to_last_entry duplicate_key_mapping
           [("S1_D1", "PFC right"); ("S2_D1", "M1")] 1 1 " hbo").
  - reflexivity.
  - lia.
  - lia.
  - reflexivity.
Defined.

Lemma rows_are_blocks_times_channels_witness :
  exists ws rows,
    block_windows three_block_series = Ok ws /\
    get_hemoglobin_averages example_sqrt three_block_series "ctrl_P01" = Ok rows /\
    List.length ws = List.length (events three_block_series) /\
    map (fun r => (Block r, Channel r)) rows =
      list_prod (map block_label ws) (ch_names three_block_series) /\
    List.length rows =
      (List.length (events three_block_series) *
       List.length (ch_names three_block_series))%nat /\
    Forall (fun r => Trial r = "ctrl_P01" /\
                     HbType r = hb_type_of (Channel r) /\
                     Block r <> EmptyString) rows.
Proof.
  apply (rows_are_blocks_times_channels example_sqrt three_block_series "ctrl_P01").
  - reflexivity.
  - discriminate.
  - discriminate.
Defined.

Lemma block_slices_partition_the_samples_witness :
  exists ws,
    block_windows three_block_series = Ok ws /\
    List.concat
      (map (fun w => py_slice (repeat (1 # 2)%Q 200) (block_start w) (block_end w))
           ws) =
      skipn (Z.to_nat (event_sample_of (0, 0, 1)%Z)) (repeat (1 # 2)%Q 200) /\
    Forall (fun w =>
              List.length (py_slice (repeat (1 # 2)%Q 200)
                                    (block_start w) (block_end w)) =
              Z.to_nat (block_end w - block_start w)) ws.
Proof.
  apply (block_slices_partition_the_samples
           three_block_series 200 (0, 0, 1)%Z [(50, 0, 2); (120, 0, 1)]%Z).
  - reflexivity.
  - reflexivity.
  - reflexivity.
  - unfold event_sample_of. simpl. lia.
  - simpl. unfold event_sample_of. simpl. lia.
  - repeat constructor; unfold event_sample_of; simpl; lia.
Defined.

Lemma detailed_table_values_witness :
  exists detailed,
    hd_error (written (fst (process_snirf_files example_sqrt example_convert
                              example_files NoMappingGiven))) =
      Some (detailed_csv, detailed) /\
    (forall other : MappingArg,
       hd_error (written (fst (process_snirf_files example_sqrt example_convert
                                 example_files other))) =
         Some (detailed_csv, detailed)) /\
    forall row_label block : string,
      table_at detailed row_label block =
      pd_mean (detailed_means
                 (combine_frames
                    (contributed_frames example_sqrt example_convert example_files))
                 row_label block).
Proof.
  apply (detailed_table_values example_sqrt example_convert example_files
           NoMappingGiven).
  vm_compute. discriminate.
Defined.

Lemma written_tables_are_well_formed_witness :
  let t := detailed_pivot
             (combine_frames
                (contributed_frames example_sqrt example_convert example_files))
             (all_blocks_seen (run_loop example_sqrt example_convert example_files)) in
  rectangular t /\ ascending (index t) /\ NoDup (index t) /\
  NoDup (columns t) /\
  incl (columns t)
       (all_blocks_seen (run_loop example_sqrt example_convert example_files)).
Proof.
  apply (written_tables_are_well_formed example_sqrt example_convert example_files
           NoMappingGiven detailed_csv).
  apply detailed_table_is_written. vm_compute. discriminate.
Defined.

Lemma region_table_depends_on_its_channels_witness :
  region_pivot (hbo_df_regions_clean [("S1_D1", "PFC left")] example_frame)
               ["rest"] "PFC left" =
  region_pivot (hbo_df_regions_clean
                  [("S1_D1", "PFC left"); ("S2_D1", "M1")] example_frame)
               ["rest"] "PFC left".
Proof.
  apply (region_table_depends_on_its_channels
           [("S1_D1", "PFC left")] [("S1_D1", "PFC left"); ("S2_D1", "M1")]
           example_frame ["rest"] "PFC left").
  intros r [<- | [<- | []]] _; split; intros H; vm_compute in H |- *;
    first [reflexivity | discriminate].
Defined.

Lemma region_tables_of_a_run_witness :
  map fst (region_pivots
             (fst (process_snirf_files example_sqrt example_convert example_files
                     (MappingFile example_mapping)))) = ["PFC left"] /\
  ascending (map fst (region_pivots
             (fst (process_snirf_files example_sqrt example_convert example_files
                     (MappingFile example_mapping))))).
Proof.
  destruct (region_tables_of_a_run example_sqrt example_convert example_files
              example_mapping [("S1_D1", "PFC left")])
    as [_ [H2 _]].
  - reflexivity.
  - vm_compute. discriminate.
  - split; [reflexivity | exact H2].
Defined.

Lemma trial_name_ignores_directory_and_date_witness :
  extract_trial_name
    ("20240101" ++ "_" ++ "ctrl" ++ "_" ++ "P01" ++ EmptyString ++ ".snirf") =
    "ctrl" ++ "_" ++ "P01" /\
  extract_trial_name
    ("data/raw" ++ "/" ++ "20240101" ++ "_" ++ "ctrl" ++ "_" ++ "P01"
                ++ EmptyString ++ ".snirf") =
    "ctrl" ++ "_" ++ "P01".
Proof.
  apply (trial_name_ignores_directory_and_date
           "data/raw" "20240101" "ctrl" "P01" EmptyString);
    first [reflexivity | now left].
Defined.

Lemma annotation_beyond_the_end_witness :
  exists before last_rows,
    get_hemoglobin_averages example_sqrt late_annotation_series "ctrl_P01" =
      Ok (before ++ last_rows)%list /\
    map Channel last_rows = ch_names late_annotation_series /\
    Forall (fun r => Mean_Value r = NaN /\ Std_Value r = NaN /\
                     exists q, Block_Duration_s r = Num q /\ (q < 0)%Q)
           last_rows.
Proof.
  apply (annotation_beyond_the_end example_sqrt late_annotation_series "ctrl_P01"
           8 [(0, 0, 1)%Z] (12, 0, 2)%Z).
  - reflexivity.
  - reflexivity.
  - reflexivity.
  - unfold event_sample_of. simpl. lia.
  - reflexivity.
Defined.

Example late_annotation_rows :
  match get_hemoglobin_averages example_sqrt late_annotation_series "ctrl_P01" with
  | Ok rows =>
      map (fun r => (Block r, Mean_Value r, Block_Duration_s r)) rows =
      [("rest", Num (9 # 2), Num (12 # 5)); ("task", NaN, Num (-4 # 5))]
  | Err _ => False
  end.
Proof. vm_compute. reflexivity. Qed.

Lemma gui_run_has_validated_inputs_witness :
  exists mapping_arg,
    process_snirf_files example_sqrt example_convert example_files NoMappingGiven =
      process_snirf_files example_sqrt example_convert
        (glob_snirf example_fs (strip (input_dir example_fields))) mapping_arg /\
    ((mapping_arg = NoMappingGiven /\
      (strip (mapping_file example_fields) = EmptyString \/
       (isfile example_fs (strip (mapping_file example_fields)) = false /\
        true = true))) \/
     (mapping_arg =
        MappingFile (json_load example_fs (strip (mapping_file example_fields))) /\
      strip (mapping_file example_fields) <> EmptyString /\
      isfile example_fs (strip (mapping_file example_fields)) = true)).
Proof.
  destruct (gui_run_has_validated_inputs example_sqrt example_convert
              example_fs example_fields true
              (process_snirf_files example_sqrt example_convert example_files
                 NoMappingGiven)
              (process_files_thread example_sqrt example_convert example_files
                 NoMappingGiven))
    as [_ [_ [_ [_ [H _]]]]].
  - intros path H. unfold example_fs in *. simpl in *. now rewrite H.
  - reflexivity.
  - exact H.
Defined.

Lemma missing_mapping_file_is_not_fatal_witness :
  snd (process_snirf_files example_sqrt example_convert example_files
         (mapping_argument example_fs (Some "missing.json"))) = None /\
  In (MappingFileNotFound "missing.json")
     (stdout (fst (process_snirf_files example_sqrt example_convert example_files
                     (mapping_argument example_fs (Some "missing.json"))))).
Proof.
  destruct (missing_mapping_file_is_not_fatal example_sqrt example_convert
              example_fs example_files "missing.json")
    as [H1 [_ [_ [_ [H5 _]]]]].
  - vm_compute. discriminate.
  - discriminate.
  - reflexivity.
  - split; assumption.
Defined.

Lemma measurements_are_unmapped_or_in_one_region_witness :
  let out := fst (process_snirf_files example_sqrt example_convert example_files
                    (MappingFile example_mapping)) in
  let hbo_df :=
    filter is_HbO
      (combine_frames
         (contributed_frames example_sqrt example_convert example_files)) in
  let unmapped :=
    filter (fun r => negb (notna (resolve_region [("S1_D1", "PFC left")]
                                    (Channel r))))
           hbo_df in
  let clean :=
    hbo_df_regions_clean [("S1_D1", "PFC left")]
      (combine_frames
         (contributed_frames example_sqrt example_convert example_files)) in
  (forall k, In (UnmappedWarning k) (stdout out) <->
             k = List.length unmapped /\ (0 < k)%nat) /\
  (In AllChannelsMapped (stdout out) <-> unmapped = []) /\
  List.length hbo_df = (List.length unmapped + List.length clean)%nat /\
  list_sum (map (fun rp : string * PivotTable =>
                   List.length (region_data clean (fst rp)))
                (region_pivots out)) = List.length clean.
Proof.
  apply (measurements_are_unmapped_or_in_one_region
           example_sqrt example_convert example_files example_mapping
           [("S1_D1", "PFC left")]).
  - reflexivity.
  - vm_compute. discriminate.
Defined.
